(** * Object formats of the memory manager (src/src/format.c)

    A shallow embedding of [FormatCheck], [FormatDefaultClass],
    [FormatCreate], [FormatDestroy], [FormatArena] and [FormatDescribe].

    The C code works on a heap of structures reached through pointers.  The
    embedding keeps that shape: a store maps addresses to [FormatStruct]s
    and [ArenaStruct]s, every C statement is a load or a store on it, and
    the functions are written in a small state-and-failure monad whose
    failures are a failed assertion ([AVER], [AVERT]) and an access through
    a pointer that denotes no storage. *)

From Stdlib Require Import NArith Lia.
From stdpp Require Import base option list sorting gmap strings.

Local Open Scope N_scope.

(** ** Words, pointers and enumerations *)

(** [Addr], [Serial], [Sig] and [Align] are unsigned machine words. *)
Abbreviation Addr := N (only parsing).
Abbreviation Serial := N (only parsing).
Abbreviation Sig := N (only parsing).
Abbreviation Align := N (only parsing).

Definition NULL : Addr := 0.

(** Modelled from the spec: the validity signatures are constants of the
    structure headers, which format.c includes but does not define.  A
    structure kind has its own sentinel, and [SigInvalid] is the value
    written over the signature of a finished structure.  Any three distinct
    words serve: the proofs use only that [SigInvalid] is not [FormatSig]. *)
Definition FormatSig : Sig := 0x519F63A2.
Definition ArenaSig : Sig := 0x519A6E4A.
Definition SigInvalid : Sig := 0x51915BAD.

(** A [Ring] is a pointer to a ring node.  The nodes this file reaches are
    embedded in other structures: [&format->arenaRing] and
    [&arena->formatRing]; [RingNONE] is the null ring pointer. *)
Inductive Ring : Type :=
  | RingNONE
  | FormatArenaRing (format : Addr)
  | ArenaFormatRing (arena : Addr).

#[global] Instance Ring_eq_dec : EqDecision Ring.
Proof. solve_decision. Defined.

(** A format method is a pointer to code: null, the address of the static
    function [FormatDefaultClass], or the entry point of a client function. *)
Inductive Method : Type :=
  | MethodNULL
  | MethodFormatDefaultClass
  | MethodClient (entry : Addr).

#[global] Instance Method_eq_dec : EqDecision Method.
Proof. solve_decision. Defined.

(** [FormatVariety] is an integer type with two named values; the validator
    tests for them, so any other value stays representable. *)
Inductive FormatVariety : Type :=
  | FormatVarietyA
  | FormatVarietyB
  | FormatVarietyOther (tag : N).

#[global] Instance FormatVariety_eq_dec : EqDecision FormatVariety.
Proof. solve_decision. Defined.

Inductive Res : Type :=
  | ResOK | ResFAIL | ResRESOURCE | ResMEMORY | ResLIMIT | ResUNIMPL | ResIO.

#[global] Instance Res_eq_dec : EqDecision Res.
Proof. solve_decision. Defined.

(** ** Structures *)

Module RingStruct.
Record t : Type := Build { next : Ring; prev : Ring }.
Definition set_next (v : Ring) (r : t) : t := Build v (prev r).
Definition set_prev (v : Ring) (r : t) : t := Build (next r) v.
End RingStruct.

Module FormatStruct.
Record t : Type := Build {
  sig : Sig;
  serial : Serial;
  arena : Addr;
  arenaRing : RingStruct.t;
  alignment : Align;
  variety : FormatVariety;
  scan : Method;
  skip : Method;
  move : Method;
  isMoved : Method;
  copy : Method;
  pad : Method;
  class : Method
}.
Definition set_sig (v : Sig) (f : t) : t :=
  Build v (serial f) (arena f) (arenaRing f) (alignment f) (variety f)
        (scan f) (skip f) (move f) (isMoved f) (copy f) (pad f) (class f).
Definition set_serial (v : Serial) (f : t) : t :=
  Build (sig f) v (arena f) (arenaRing f) (alignment f) (variety f)
        (scan f) (skip f) (move f) (isMoved f) (copy f) (pad f) (class f).
Definition set_arena (v : Addr) (f : t) : t :=
  Build (sig f) (serial f) v (arenaRing f) (alignment f) (variety f)
        (scan f) (skip f) (move f) (isMoved f) (copy f) (pad f) (class f).
Definition set_arenaRing (v : RingStruct.t) (f : t) : t :=
  Build (sig f) (serial f) (arena f) v (alignment f) (variety f)
        (scan f) (skip f) (move f) (isMoved f) (copy f) (pad f) (class f).
Definition set_alignment (v : Align) (f : t) : t :=
  Build (sig f) (serial f) (arena f) (arenaRing f) v (variety f)
        (scan f) (skip f) (move f) (isMoved f) (copy f) (pad f) (class f).
Definition set_variety (v : FormatVariety) (f : t) : t :=
  Build (sig f) (serial f) (arena f) (arenaRing f) (alignment f) v
        (scan f) (skip f) (move f) (isMoved f) (copy f) (pad f) (class f).
Definition set_scan (v : Method) (f : t) : t :=
  Build (sig f) (serial f) (arena f) (arenaRing f) (alignment f) (variety f)
        v (skip f) (move f) (isMoved f) (copy f) (pad f) (class f).
Definition set_skip (v : Method) (f : t) : t :=
  Build (sig f) (serial f) (arena f) (arenaRing f) (alignment f) (variety f)
        (scan f) v (move f) (isMoved f) (copy f) (pad f) (class f).
Definition set_move (v : Method) (f : t) : t :=
  Build (sig f) (serial f) (arena f) (arenaRing f) (alignment f) (variety f)
        (scan f) (skip f) v (isMoved f) (copy f) (pad f) (class f).
Definition set_isMoved (v : Method) (f : t) : t :=
  Build (sig f) (serial f) (arena f) (arenaRing f) (alignment f) (variety f)
        (scan f) (skip f) (move f) v (copy f) (pad f) (class f).
Definition set_copy (v : Method) (f : t) : t :=
  Build (sig f) (serial f) (arena f) (arenaRing f) (alignment f) (variety f)
        (scan f) (skip f) (move f) (isMoved f) v (pad f) (class f).
Definition set_pad (v : Method) (f : t) : t :=
  Build (sig f) (serial f) (arena f) (arenaRing f) (alignment f) (variety f)
        (scan f) (skip f) (move f) (isMoved f) (copy f) v (class f).
Definition set_class (v : Method) (f : t) : t :=
  Build (sig f) (serial f) (arena f) (arenaRing f) (alignment f) (variety f)
        (scan f) (skip f) (move f) (isMoved f) (copy f) (pad f) v.
End FormatStruct.

(** Modelled from the spec: [ArenaStruct] is declared outside format.c.  Its
    surface here is what format.c touches (signature, serial, the counter
    that issues format serials, the ring of formats) and the storage its
    allocation primitive hands out: [controlPool] lists the free blocks, each
    large enough for a [FormatStruct], in the order [ArenaAlloc] takes them. *)
Module ArenaStruct.
Record t : Type := Build {
  sig : Sig;
  serial : Serial;
  formatSerial : Serial;
  formatRing : RingStruct.t;
  controlPool : list Addr
}.
Definition set_formatSerial (v : Serial) (a : t) : t :=
  Build (sig a) (serial a) v (formatRing a) (controlPool a).
Definition set_formatRing (v : RingStruct.t) (a : t) : t :=
  Build (sig a) (serial a) (formatSerial a) v (controlPool a).
Definition set_controlPool (v : list Addr) (a : t) : t :=
  Build (sig a) (serial a) (formatSerial a) (formatRing a) v.
End ArenaStruct.

(** Modelled from the spec: the text sink and [WriteF] are the diagnostic
    writer, outside format.c.  [WriteF] takes format strings, each followed
    by the arguments its directives consume ([$P] an address, [$U] an
    unsigned, [$W] a word, [$F] a function), and returns success or
    failure.  The sink keeps what was written and how many more pieces it
    accepts before its write operation fails. *)
Inductive WriteFArg : Type :=
  | WriteFP (p : Addr)
  | WriteFU (u : N)
  | WriteFW (w : N)
  | WriteFF (f : Method).

#[global] Instance WriteFArg_eq_dec : EqDecision WriteFArg.
Proof. solve_decision. Defined.

Module StreamStruct.
Record t : Type := Build {
  written : list (string * list WriteFArg);
  room : nat
}.
End StreamStruct.

(** ** The store *)

Record State : Type := mkState {
  formats : gmap N FormatStruct.t;
  arenas : gmap N ArenaStruct.t;
  words : gmap N N;
  streams : gmap N StreamStruct.t
}.

Definition with_formats (m : gmap N FormatStruct.t) (s : State) : State :=
  mkState m (arenas s) (words s) (streams s).
Definition with_arenas (m : gmap N ArenaStruct.t) (s : State) : State :=
  mkState (formats s) m (words s) (streams s).
Definition with_words (m : gmap N N) (s : State) : State :=
  mkState (formats s) (arenas s) m (streams s).
Definition with_streams (m : gmap N StreamStruct.t) (s : State) : State :=
  mkState (formats s) (arenas s) (words s) m.

(** ** The monad of C statements *)

Inductive Outcome (A : Type) : Type :=
  | Done (a : A) (s : State)
  | AssertFail (cond : string)
  | Fault.
Arguments Done {A} a s.
Arguments AssertFail {A} cond.
Arguments Fault {A}.

Definition M (A : Type) : Type := State -> Outcome A.

Definition ret {A} (a : A) : M A := fun s => Done a s.

Definition bind {A B} (m : M A) (k : A -> M B) : M B :=
  fun s => match m s with
           | Done a s' => k a s'
           | AssertFail c => AssertFail c
           | Fault => Fault
           end.

Notation "x <- m ;; k" := (bind m (fun x => k))
  (at level 100, m at next level, right associativity).
Notation "m ;;; k" := (bind m (fun _ => k))
  (at level 100, right associativity).

(** [AVER(cond)]. *)
Definition AVER (cond : bool) (text : string) : M unit :=
  fun s => if cond then Done tt s else AssertFail text.

(** Loads and stores.  The null pointer denotes no storage. *)
Definition format_load (format : Addr) : M FormatStruct.t :=
  fun s => if decide (format = NULL) then Fault
           else match formats s !! format with
                | Some fs => Done fs s
                | None => Fault
                end.

Definition format_store (format : Addr) (upd : FormatStruct.t -> FormatStruct.t) : M unit :=
  fun s => if decide (format = NULL) then Fault
           else match formats s !! format with
                | Some fs => Done tt (with_formats (<[format := upd fs]> (formats s)) s)
                | None => Fault
                end.

Definition arena_load (arena : Addr) : M ArenaStruct.t :=
  fun s => if decide (arena = NULL) then Fault
           else match arenas s !! arena with
                | Some a => Done a s
                | None => Fault
                end.

Definition arena_store (arena : Addr) (upd : ArenaStruct.t -> ArenaStruct.t) : M unit :=
  fun s => if decide (arena = NULL) then Fault
           else match arenas s !! arena with
                | Some a => Done tt (with_arenas (<[arena := upd a]> (arenas s)) s)
                | None => Fault
                end.

Definition word_load (p : Addr) : M Addr :=
  fun s => if decide (p = NULL) then Fault
           else match words s !! p with
                | Some w => Done w s
                | None => Fault
                end.

Definition word_store (p : Addr) (w : Addr) : M unit :=
  fun s => if decide (p = NULL) then Fault
           else match words s !! p with
                | Some _ => Done tt (with_words (<[p := w]> (words s)) s)
                | None => Fault
                end.

(** [format->field] and [arena->field]. *)
Definition format_get {A} (field : FormatStruct.t -> A) (format : Addr) : M A :=
  fs <- format_load format ;; ret (field fs).

Definition arena_get {A} (field : ArenaStruct.t -> A) (arena : Addr) : M A :=
  a <- arena_load arena ;; ret (field a).

(** [*ring] for the ring nodes embedded in formats and arenas. *)
Definition ring_load (ring : Ring) : M RingStruct.t :=
  match ring with
  | RingNONE => fun _ => Fault
  | FormatArenaRing format => format_get FormatStruct.arenaRing format
  | ArenaFormatRing arena => arena_get ArenaStruct.formatRing arena
  end.

Definition ring_store (ring : Ring) (upd : RingStruct.t -> RingStruct.t) : M unit :=
  match ring with
  | RingNONE => fun _ => Fault
  | FormatArenaRing format =>
      format_store format
        (fun fs => FormatStruct.set_arenaRing (upd (FormatStruct.arenaRing fs)) fs)
  | ArenaFormatRing arena =>
      arena_store arena
        (fun a => ArenaStruct.set_formatRing (upd (ArenaStruct.formatRing a)) a)
  end.

Definition ring_get (field : RingStruct.t -> Ring) (ring : Ring) : M Ring :=
  r <- ring_load ring ;; ret (field r).

(** ** The ring collaborator *)

(** Modelled from the spec: the intrusive ring is outside format.c.  A node
    is initialised single (linked to itself), appended before the head of a
    ring, removed by joining its neighbours and becoming single again, and
    checked by "its forward/back links agree".  A finished node has its
    links reset to [RingNONE]. *)
Definition RingInit (ring : Ring) : M unit :=
  ring_store ring (RingStruct.set_next ring) ;;;
  ring_store ring (RingStruct.set_prev ring).

Definition RingCheck (ring : Ring) : M bool :=
  if decide (ring = RingNONE) then ret false else
  n <- ring_get RingStruct.next ring ;;
  if decide (n = RingNONE) then ret false else
  np <- ring_get RingStruct.prev n ;;
  if decide (np = ring) then
    p <- ring_get RingStruct.prev ring ;;
    if decide (p = RingNONE) then ret false else
    pn <- ring_get RingStruct.next p ;;
    ret (bool_decide (pn = ring))
  else ret false.

Definition RingAppend (ring new : Ring) : M unit :=
  p <- ring_get RingStruct.prev ring ;;
  ring_store new (RingStruct.set_prev p) ;;;
  ring_store new (RingStruct.set_next ring) ;;;
  q <- ring_get RingStruct.prev ring ;;
  ring_store q (RingStruct.set_next new) ;;;
  ring_store ring (RingStruct.set_prev new).

Definition RingRemove (old : Ring) : M unit :=
  n <- ring_get RingStruct.next old ;;
  p <- ring_get RingStruct.prev old ;;
  ring_store n (RingStruct.set_prev p) ;;;
  q <- ring_get RingStruct.prev old ;;
  m <- ring_get RingStruct.next old ;;
  ring_store q (RingStruct.set_next m) ;;;
  ring_store old (RingStruct.set_next old) ;;;
  ring_store old (RingStruct.set_prev old).

Definition RingFinish (ring : Ring) : M unit :=
  ring_store ring (RingStruct.set_next RingNONE) ;;;
  ring_store ring (RingStruct.set_prev RingNONE).

(** ** The arena collaborator *)

(** Modelled from the spec: the arena's allocation primitive "request N
    bytes, fails on exhaustion" and its matching free primitive.  The size
    asked for and given back in format.c is always [sizeof(FormatStruct)],
    the size of the blocks of [controlPool], so it is left out.  A freed
    block goes back to the pool with its contents as they are. *)
Definition ArenaAlloc (arena : Addr) : M (Res * Addr) :=
  pool <- arena_get ArenaStruct.controlPool arena ;;
  match pool with
  | [] => ret (ResMEMORY, NULL)
  | p :: rest =>
      arena_store arena (ArenaStruct.set_controlPool rest) ;;;
      ret (ResOK, p)
  end.

Definition ArenaFree (arena : Addr) (base : Addr) : M unit :=
  arena_store arena
    (fun a => ArenaStruct.set_controlPool (base :: ArenaStruct.controlPool a) a).

(** ** The diagnostic writer *)

Fixpoint WriteF_items (items : list (string * list WriteFArg)) (st : StreamStruct.t)
  : Res * StreamStruct.t :=
  match items with
  | [] => (ResOK, st)
  | item :: rest =>
      match StreamStruct.room st with
      | O => (ResIO, st)
      | S r => WriteF_items rest (StreamStruct.Build (StreamStruct.written st ++ [item]) r)
      end
  end.

Definition WriteF (stream : Addr) (items : list (string * list WriteFArg)) : M Res :=
  fun s => if decide (stream = NULL) then Fault
           else match streams s !! stream with
                | Some st =>
                    let r := WriteF_items items st in
                    Done r.1 (with_streams (<[stream := r.2]> (streams s)) s)
                | None => Fault
                end.

(** ** The check layer *)

(** Modelled from the spec: the structural-check macros are outside
    format.c.  A check function reports pass or fail, and "failure
    identifies which check failed"; [CHECKS(Format, format)] and
    [CHECKU(Arena, arena)] test the validity signature of a structure
    ("the validity signature ... proves the structure has not been destroyed
    or corrupted"), [CHECKL] a condition, and [FUNCHECK] that a method is not
    null. *)
Inductive CheckId : Type :=
  | CheckSig | CheckArena | CheckSerial | CheckVariety | CheckRing | CheckAlign
  | CheckScan | CheckSkip | CheckMove | CheckIsMoved | CheckCopy | CheckPad
  | CheckClass.

#[global] Instance CheckId_eq_dec : EqDecision CheckId.
Proof. solve_decision. Defined.

Inductive Verdict : Type :=
  | CheckPass
  | CheckFail (which : CheckId).

#[global] Instance Verdict_eq_dec : EqDecision Verdict.
Proof. solve_decision. Defined.

Definition passes (v : Verdict) : bool :=
  match v with CheckPass => true | CheckFail _ => false end.

Definition CHECKT_Format (format : Addr) : M bool :=
  if decide (format = NULL) then ret false else
  sg <- format_get FormatStruct.sig format ;;
  ret (bool_decide (sg = FormatSig)).

Definition CHECKT_Arena (arena : Addr) : M bool :=
  if decide (arena = NULL) then ret false else
  sg <- arena_get ArenaStruct.sig arena ;;
  ret (bool_decide (sg = ArenaSig)).

Definition FUNCHECK (f : Method) : bool := bool_decide (f ≠ MethodNULL).

(** [CHECK id cond rest]: evaluate [cond]; on failure return at once. *)
Definition CHECK (id : CheckId) (cond : M bool) (rest : M Verdict) : M Verdict :=
  b <- cond ;; if b then rest else ret (CheckFail id).

Section Format.

Set Default Proof Using "Type".

(** Modelled from the spec: "the alignment-validity predicate" is a function
    of the memory manager's core, outside format.c; it is a parameter of
    the development. *)
Variable AlignCheck : Align -> bool.

(** The width of [unsigned long], the type of a [Serial], is the
    platform's; its arithmetic wraps at that width. *)
Variable MPS_WORD_WIDTH : N.

Definition word_succ (n : Serial) : Serial := (n + 1) mod 2 ^ MPS_WORD_WIDTH.

(** ** format.c *)

Definition FormatCheck (format : Addr) : M Verdict :=
  CHECK CheckSig (CHECKT_Format format) (
  CHECK CheckArena (a <- format_get FormatStruct.arena format ;; CHECKT_Arena a) (
  CHECK CheckSerial
    (n <- format_get FormatStruct.serial format ;;
     a <- format_get FormatStruct.arena format ;;
     c <- arena_get ArenaStruct.formatSerial a ;;
     ret (n <? c)) (
  CHECK CheckVariety
    (v <- format_get FormatStruct.variety format ;;
     ret (bool_decide (v = FormatVarietyA) || bool_decide (v = FormatVarietyB))) (
  CHECK CheckRing (RingCheck (FormatArenaRing format)) (
  CHECK CheckAlign
    (al <- format_get FormatStruct.alignment format ;; ret (AlignCheck al)) (
  CHECK CheckScan (f <- format_get FormatStruct.scan format ;; ret (FUNCHECK f)) (
  CHECK CheckSkip (f <- format_get FormatStruct.skip format ;; ret (FUNCHECK f)) (
  CHECK CheckMove (f <- format_get FormatStruct.move format ;; ret (FUNCHECK f)) (
  CHECK CheckIsMoved (f <- format_get FormatStruct.isMoved format ;; ret (FUNCHECK f)) (
  CHECK CheckCopy (f <- format_get FormatStruct.copy format ;; ret (FUNCHECK f)) (
  CHECK CheckPad (f <- format_get FormatStruct.pad format ;; ret (FUNCHECK f)) (
  CHECK CheckClass (f <- format_get FormatStruct.class format ;; ret (FUNCHECK f)) (
  ret CheckPass))))))))))))).

(** [AVERT(Format, format)]. *)
Definition AVERT_Format (format : Addr) : M unit :=
  v <- FormatCheck format ;; AVER (passes v) "FormatCheck(format)".

Definition FormatDefaultClass (object : Addr) : M Addr :=
  AVER (bool_decide (object ≠ NULL)) "object != NULL" ;;;
  word_load object.

Definition FormatCreate (formatReturn : Addr) (arena : Addr)
    (alignment : Align) (variety : FormatVariety)
    (scan skip move isMoved copy pad class : Method) : M Res :=
  AVER (bool_decide (formatReturn ≠ NULL)) "formatReturn != NULL" ;;;
  rp <- ArenaAlloc arena ;;
  if decide (rp.1 ≠ ResOK) then ret rp.1 else
  let format := rp.2 in
  format_store format (FormatStruct.set_arena arena) ;;;
  RingInit (FormatArenaRing format) ;;;
  format_store format (FormatStruct.set_alignment alignment) ;;;
  format_store format (FormatStruct.set_variety variety) ;;;
  format_store format (FormatStruct.set_scan scan) ;;;
  format_store format (FormatStruct.set_skip skip) ;;;
  format_store format (FormatStruct.set_move move) ;;;
  format_store format (FormatStruct.set_isMoved isMoved) ;;;
  format_store format (FormatStruct.set_copy copy) ;;;
  format_store format (FormatStruct.set_pad pad) ;;;
  (if decide (class = MethodNULL) then
     AVER (bool_decide (variety = FormatVarietyA)) "variety == FormatVarietyA" ;;;
     format_store format (FormatStruct.set_class MethodFormatDefaultClass)
   else
     format_store format (FormatStruct.set_class class)) ;;;
  format_store format (FormatStruct.set_sig FormatSig) ;;;
  n <- arena_get ArenaStruct.formatSerial arena ;;
  format_store format (FormatStruct.set_serial n) ;;;
  arena_store arena
    (fun a => ArenaStruct.set_formatSerial (word_succ (ArenaStruct.formatSerial a)) a) ;;;
  AVERT_Format format ;;;
  RingAppend (ArenaFormatRing arena) (FormatArenaRing format) ;;;
  word_store formatReturn format ;;;
  ret ResOK.

Definition FormatDestroy (format : Addr) : M unit :=
  AVERT_Format format ;;;
  RingRemove (FormatArenaRing format) ;;;
  format_store format (FormatStruct.set_sig SigInvalid) ;;;
  RingFinish (FormatArenaRing format) ;;;
  a <- format_get FormatStruct.arena format ;;
  ArenaFree a format.

Definition FormatArena (format : Addr) : M Addr :=
  format_get FormatStruct.arena format.

Definition FormatDescribe (format : Addr) (stream : Addr) : M Res :=
  fs <- format_load format ;;
  aserial <- arena_get ArenaStruct.serial (FormatStruct.arena fs) ;;
  res <- WriteF stream
    [ ("Format $P ($U) {\n", [WriteFP format; WriteFU (FormatStruct.serial fs)]);
      ("  arena $P ($U)\n", [WriteFP (FormatStruct.arena fs); WriteFU aserial]);
      ("  alignment $W\n", [WriteFW (FormatStruct.alignment fs)]);
      ("  scan $F\n", [WriteFF (FormatStruct.scan fs)]);
      ("  skip $F\n", [WriteFF (FormatStruct.skip fs)]);
      ("  move $F\n", [WriteFF (FormatStruct.move fs)]);
      ("  isMoved $F\n", [WriteFF (FormatStruct.isMoved fs)]);
      ("  copy $F\n", [WriteFF (FormatStruct.copy fs)]);
      ("  pad $F\n", [WriteFF (FormatStruct.pad fs)]);
      ("} Format $P ($U)\n", [WriteFP format; WriteFU (FormatStruct.serial fs)]) ] ;;
  if decide (res ≠ ResOK) then ret res else ret ResOK.

(** The code a method pointer denotes, for the one method format.c defines. *)
Definition class_code (f : Method) : option (Addr -> M Addr) :=
  match f with
  | MethodFormatDefaultClass => Some FormatDefaultClass
  | _ => None
  end.

(** ** Reading the store *)

(** What a pointer denotes: the structure it points to, if any. *)
Definition fmt (s : State) (format : Addr) : option FormatStruct.t :=
  if decide (format = NULL) then None else formats s !! format.

Definition arn (s : State) (arena : Addr) : option ArenaStruct.t :=
  if decide (arena = NULL) then None else arenas s !! arena.

Definition node (s : State) (ring : Ring) : option RingStruct.t :=
  match ring with
  | RingNONE => None
  | FormatArenaRing format => FormatStruct.arenaRing <$> fmt s format
  | ArenaFormatRing arena => ArenaStruct.formatRing <$> arn s arena
  end.

Definition put_fmt (format : Addr) (fs : FormatStruct.t) (s : State) : State :=
  with_formats (<[format := fs]> (formats s)) s.

Definition put_arn (arena : Addr) (a : ArenaStruct.t) (s : State) : State :=
  with_arenas (<[arena := a]> (arenas s)) s.

(** Ring nodes are fields of formats and arenas: a store to a node is a
    store to the structure that embeds it. *)
Definition put_node (ring : Ring) (x : RingStruct.t) (s : State) : State :=
  match ring with
  | RingNONE => s
  | FormatArenaRing format =>
      match fmt s format with
      | Some fs => put_fmt format (FormatStruct.set_arenaRing x fs) s
      | None => s
      end
  | ArenaFormatRing arena =>
      match arn s arena with
      | Some a => put_arn arena (ArenaStruct.set_formatRing x a) s
      | None => s
      end
  end.

(** A structure without its ring links: what a store to a ring node keeps. *)
Definition fcore (fs : FormatStruct.t) : FormatStruct.t :=
  FormatStruct.set_arenaRing (RingStruct.Build RingNONE RingNONE) fs.

Definition acore (a : ArenaStruct.t) : ArenaStruct.t :=
  ArenaStruct.set_formatRing (RingStruct.Build RingNONE RingNONE) a.

Definition same_core (s s' : State) : Prop :=
  (forall f, fcore <$> fmt s' f = fcore <$> fmt s f) /\
  (forall a, acore <$> arn s' a = acore <$> arn s a) /\
  words s' = words s /\ streams s' = streams s.

(** ** The validator as the spec words it *)

(** "Its forward/back links agree", read off the store; [None] when a link
    leads to no storage. *)
Definition ring_consistent (s : State) (ring : Ring) : option bool :=
  if decide (ring = RingNONE) then Some false else
  r ← node s ring;
  if decide (RingStruct.next r = RingNONE) then Some false else
  n ← node s (RingStruct.next r);
  if decide (RingStruct.prev n = ring) then
    if decide (RingStruct.prev r = RingNONE) then Some false else
    p ← node s (RingStruct.prev r);
    Some (bool_decide (RingStruct.next p = ring))
  else Some false.

(** The spec's numbered checks, with the seven callbacks of check 7 in the
    order it names them. *)
Definition check_order : list CheckId :=
  [CheckSig; CheckArena; CheckSerial; CheckVariety; CheckRing; CheckAlign;
   CheckScan; CheckSkip; CheckMove; CheckIsMoved; CheckCopy; CheckPad; CheckClass].

(** What each check asks of the store; [None] when it cannot be evaluated
    because a pointer it follows denotes no storage. *)
Definition holds (c : CheckId) (s : State) (format : Addr) : option bool :=
  match c with
  | CheckSig =>
      if decide (format = NULL) then Some false else
      fs ← fmt s format; Some (bool_decide (FormatStruct.sig fs = FormatSig))
  | CheckArena =>
      fs ← fmt s format;
      if decide (FormatStruct.arena fs = NULL) then Some false else
      a ← arn s (FormatStruct.arena fs); Some (bool_decide (ArenaStruct.sig a = ArenaSig))
  | CheckSerial =>
      fs ← fmt s format;
      a ← arn s (FormatStruct.arena fs);
      Some (FormatStruct.serial fs <? ArenaStruct.formatSerial a)
  | CheckVariety =>
      fs ← fmt s format;
      Some (bool_decide (FormatStruct.variety fs = FormatVarietyA)
            || bool_decide (FormatStruct.variety fs = FormatVarietyB))
  | CheckRing => ring_consistent s (FormatArenaRing format)
  | CheckAlign => fs ← fmt s format; Some (AlignCheck (FormatStruct.alignment fs))
  | CheckScan => fs ← fmt s format; Some (bool_decide (FormatStruct.scan fs ≠ MethodNULL))
  | CheckSkip => fs ← fmt s format; Some (bool_decide (FormatStruct.skip fs ≠ MethodNULL))
  | CheckMove => fs ← fmt s format; Some (bool_decide (FormatStruct.move fs ≠ MethodNULL))
  | CheckIsMoved => fs ← fmt s format; Some (bool_decide (FormatStruct.isMoved fs ≠ MethodNULL))
  | CheckCopy => fs ← fmt s format; Some (bool_decide (FormatStruct.copy fs ≠ MethodNULL))
  | CheckPad => fs ← fmt s format; Some (bool_decide (FormatStruct.pad fs ≠ MethodNULL))
  | CheckClass => fs ← fmt s format; Some (bool_decide (FormatStruct.class fs ≠ MethodNULL))
  end.

(** Checks taken in order, stopping at the first that fails. *)
Fixpoint first_failure (s : State) (format : Addr) (cs : list CheckId) : Outcome Verdict :=
  match cs with
  | [] => Done CheckPass s
  | c :: rest =>
      match holds c s format with
      | Some true => first_failure s format rest
      | Some false => Done (CheckFail c) s
      | None => Fault
      end
  end.

Definition validate_spec (s : State) (format : Addr) : Outcome Verdict :=
  first_failure s format check_order.

(** The store when [FormatCreate] reaches its [AVERT]: the block [p] taken
    from the pool holds the new descriptor, single in its ring, and the
    arena's counter has been stepped. *)
Definition created (arena : Addr) (a : ArenaStruct.t) (p : Addr) (rest : list Addr)
    (alignment : Align) (variety : FormatVariety)
    (scan skip move isMoved copy pad class : Method) (s : State) : State :=
  put_arn arena
    (ArenaStruct.set_formatSerial (word_succ (ArenaStruct.formatSerial a))
       (ArenaStruct.set_controlPool rest a))
    (put_fmt p
       (FormatStruct.Build FormatSig (ArenaStruct.formatSerial a) arena
          (RingStruct.Build (FormatArenaRing p) (FormatArenaRing p))
          alignment variety scan skip move isMoved copy pad
          (if decide (class = MethodNULL) then MethodFormatDefaultClass else class))
       (put_arn arena (ArenaStruct.set_controlPool rest a) s)).

(** ** Rings as cycles *)

Definition next_of (s : State) (ring : Ring) : option Ring :=
  RingStruct.next <$> node s ring.

Definition prev_of (s : State) (ring : Ring) : option Ring :=
  RingStruct.prev <$> node s ring.

(** [path s x l]: the nodes [x :: l] are linked each to the next, forwards
    by [next] and backwards by [prev]. *)
Fixpoint path (s : State) (x : Ring) (l : list Ring) : Prop :=
  match l with
  | [] => True
  | y :: l' => next_of s x = Some y /\ prev_of s y = Some x /\ path s y l'
  end.

(** The ring of [head] consists of the nodes [l], in order: starting from
    the head the links run through [l] and back to the head, and no node
    occurs twice. *)
Definition ring_members (s : State) (head : Ring) (l : list Ring) : Prop :=
  NoDup (head :: l) /\ path s head (l ++ [head]).

(** The pieces [FormatDescribe] hands to [WriteF]. *)
Definition describe_items (format : Addr) (fs : FormatStruct.t) (aserial : Serial)
  : list (string * list WriteFArg) :=
  [ ("Format $P ($U) {\n", [WriteFP format; WriteFU (FormatStruct.serial fs)]);
    ("  arena $P ($U)\n", [WriteFP (FormatStruct.arena fs); WriteFU aserial]);
    ("  alignment $W\n", [WriteFW (FormatStruct.alignment fs)]);
    ("  scan $F\n", [WriteFF (FormatStruct.scan fs)]);
    ("  skip $F\n", [WriteFF (FormatStruct.skip fs)]);
    ("  move $F\n", [WriteFF (FormatStruct.move fs)]);
    ("  isMoved $F\n", [WriteFF (FormatStruct.isMoved fs)]);
    ("  copy $F\n", [WriteFF (FormatStruct.copy fs)]);
    ("  pad $F\n", [WriteFF (FormatStruct.pad fs)]);
    ("} Format $P ($U)\n", [WriteFP format; WriteFU (FormatStruct.serial fs)]) ].

(** ** Sequences of constructions and destructions *)

(** A client of format.c: it constructs and destroys formats in any order.
    A construction that returns [ResOK] issues a serial; the client reads
    the handle from [*formatReturn] and the serial from the descriptor. *)
Inductive Op : Type :=
  | OpCreate (formatReturn arena : Addr) (alignment : Align) (variety : FormatVariety)
             (scan skip move isMoved copy pad class : Method)
  | OpDestroy (format : Addr).

Record Issued : Type := mkIssued {
  issued_arena : Addr;
  issued_format : Addr;
  issued_serial : Serial
}.

Definition client_step (op : Op) : M (list Issued) :=
  match op with
  | OpCreate formatReturn arena alignment variety scan skip move isMoved copy pad class =>
      res <- FormatCreate formatReturn arena alignment variety
               scan skip move isMoved copy pad class ;;
      if decide (res = ResOK) then
        format <- word_load formatReturn ;;
        n <- format_get FormatStruct.serial format ;;
        ret [mkIssued arena format n]
      else ret []
  | OpDestroy format => FormatDestroy format ;;; ret []
  end.

(** A failed assertion or a fault stops the run; a construction that fails
    for want of storage does not. *)
Fixpoint client_run (ops : list Op) : M (list Issued) :=
  match ops with
  | [] => ret []
  | op :: rest =>
      l1 <- client_step op ;; l2 <- client_run rest ;; ret (l1 ++ l2)
  end.

(** The serials issued in [arena], in the order of their construction. *)
Definition serials_in (arena : Addr) (log : list Issued) : list Serial :=
  issued_serial <$> filter (fun i => issued_arena i = arena) log.

Definition counter (s : State) (arena : Addr) : option Serial :=
  ArenaStruct.formatSerial <$> arn s arena.

(** ** Valid descriptors and arguments *)

(** What [FormatCheck] asks of the fields of a descriptor and of its arena,
    the ring links apart. *)
Definition fields_valid (fs : FormatStruct.t) (a : ArenaStruct.t) : Prop :=
  FormatStruct.sig fs = FormatSig /\
  ArenaStruct.sig a = ArenaSig /\
  FormatStruct.serial fs < ArenaStruct.formatSerial a /\
  (FormatStruct.variety fs = FormatVarietyA \/ FormatStruct.variety fs = FormatVarietyB) /\
  AlignCheck (FormatStruct.alignment fs) = true /\
  FormatStruct.scan fs <> MethodNULL /\ FormatStruct.skip fs <> MethodNULL /\
  FormatStruct.move fs <> MethodNULL /\ FormatStruct.isMoved fs <> MethodNULL /\
  FormatStruct.copy fs <> MethodNULL /\ FormatStruct.pad fs <> MethodNULL /\
  FormatStruct.class fs <> MethodNULL.

(** What the assertions of [FormatCreate] ask of its arguments: the
    [AVER] on a null class method and the [AVERT] on the descriptor built
    from them. *)
Definition arguments_valid (alignment : Align) (variety : FormatVariety)
    (scan skip move isMoved copy pad class : Method) : Prop :=
  (variety = FormatVarietyA \/ variety = FormatVarietyB) /\
  (class = MethodNULL -> variety = FormatVarietyA) /\
  AlignCheck alignment = true /\
  scan <> MethodNULL /\ skip <> MethodNULL /\ move <> MethodNULL /\
  isMoved <> MethodNULL /\ copy <> MethodNULL /\ pad <> MethodNULL.

(** The class method [FormatCreate] stores for the argument [class]. *)
Definition class_or_default (class : Method) : Method :=
  if decide (class = MethodNULL) then MethodFormatDefaultClass else class.

(** ** An arena and its formats *)

(** The formats of an arena as a client sees them: the live descriptors in
    the order of the ring, the free blocks in the order the allocation
    primitive takes them, and the next serial. *)
Record ArenaView : Type := mkArenaView {
  view_live : list Addr;
  view_free : list Addr;
  view_next : Serial
}.

(** The descriptor at [f] has a smaller serial than the one at [g]. *)
Definition serial_before (s : State) (f g : Addr) : Prop :=
  exists fs gs,
    fmt s f = Some fs /\ fmt s g = Some gs /\
    FormatStruct.serial fs < FormatStruct.serial gs.

(** The store agrees with a view of [arena]: the arena is valid, its pool
    and counter are the view's, its ring consists of the nodes of the live
    descriptors, each of which belongs to the arena and has valid fields,
    no block is both live and free or listed twice, the serials of the live
    descriptors increase along the ring, the free blocks denote storage, and
    no other block carries the signature of a format. *)
Definition heap_ok (s : State) (arena : Addr) (v : ArenaView) : Prop :=
  exists a,
    arn s arena = Some a /\ ArenaStruct.sig a = ArenaSig /\
    ArenaStruct.controlPool a = view_free v /\
    ArenaStruct.formatSerial a = view_next v /\
    ring_members s (ArenaFormatRing arena) (FormatArenaRing <$> view_live v) /\
    NoDup (view_live v ++ view_free v) /\
    StronglySorted (serial_before s) (view_live v) /\
    (forall p, p ∈ view_free v -> is_Some (fmt s p)) /\
    (forall f fs, fmt s f = Some fs -> FormatStruct.sig fs = FormatSig -> f ∈ view_live v) /\
    (forall f, f ∈ view_live v ->
       exists fs, fmt s f = Some fs /\ FormatStruct.arena fs = arena /\ fields_valid fs a).

(** What an operation of the client does to the view, when it runs to its
    end: a construction takes the first free block, if there is one, puts it
    last among the live descriptors and steps the serial; a destruction
    takes the descriptor out of the live ones and puts its block first among
    the free ones. *)
Definition view_step (v : ArenaView) (op : Op) : ArenaView :=
  match op with
  | OpCreate _ _ _ _ _ _ _ _ _ _ _ =>
      match view_free v with
      | [] => v
      | p :: rest => mkArenaView (view_live v ++ [p]) rest (view_next v + 1)
      end
  | OpDestroy format =>
      mkArenaView (filter (fun f => f <> format) (view_live v))
                  (format :: view_free v) (view_next v)
  end.

Definition view_run (v : ArenaView) (ops : list Op) : ArenaView :=
  foldl view_step v ops.

(** The arena an operation constructs in. *)
Definition creates_in (arena : Addr) (op : Op) : Prop :=
  match op with
  | OpCreate _ a _ _ _ _ _ _ _ _ _ => a = arena
  | OpDestroy _ => True
  end.

(** What the client receives from an operation, by the view: a construction
    that finds a free block issues that block and the next serial. *)
Definition view_issue (arena : Addr) (v : ArenaView) (op : Op) : list Issued :=
  match op with
  | OpCreate _ _ _ _ _ _ _ _ _ _ _ =>
      match view_free v with
      | [] => []
      | p :: _ => [mkIssued arena p (view_next v)]
      end
  | OpDestroy _ => []
  end.

Fixpoint view_log (arena : Addr) (v : ArenaView) (ops : list Op) : list Issued :=
  match ops with
  | [] => []
  | op :: rest => view_issue arena v op ++ view_log arena (view_step v op) rest
  end.

(** An operation the client may ask for, by the view: a construction in
    [arena] with a place for the result that can be written and, when a
    block is free, valid arguments and a counter that can be stepped; a
    destruction of a live descriptor. *)
Definition op_ok (arena : Addr) (s : State) (v : ArenaView) (op : Op) : Prop :=
  match op with
  | OpCreate formatReturn a alignment variety scan skip move isMoved copy pad class =>
      a = arena /\ formatReturn <> NULL /\ is_Some (words s !! formatReturn) /\
      (view_free v <> [] ->
       view_next v + 1 < 2 ^ MPS_WORD_WIDTH /\
       arguments_valid alignment variety scan skip move isMoved copy pad class)
  | OpDestroy format => format ∈ view_live v
  end.

Fixpoint ops_ok (arena : Addr) (s : State) (v : ArenaView) (ops : list Op) : Prop :=
  match ops with
  | [] => True
  | op :: rest => op_ok arena s v op /\ ops_ok arena s (view_step v op) rest
  end.

(** ** Monad laws and the primitives on the store *)

Lemma bind_Done {A B} (m : M A) (k : A -> M B) s b s' :
  bind m k s = Done b s' <-> exists a s1, m s = Done a s1 /\ k a s1 = Done b s'.
Proof.
  unfold bind. split.
  - destruct (m s) as [a s1| |]; try discriminate. eauto.
  - intros (a & s1 & -> & H). exact H.
Qed.

Lemma AVER_Done cond text s u s' :
  AVER cond text s = Done u s' <-> cond = true /\ s' = s.
Proof.
  unfold AVER. destruct cond; split.
  - intros [= _ <-]. auto.
  - intros [_ ->]. by destruct u.
  - discriminate.
  - intros [? _]. discriminate.
Qed.

Lemma format_load_eq format s :
  format_load format s = match fmt s format with Some fs => Done fs s | None => Fault end.
Proof. unfold format_load, fmt. by destruct (decide _). Qed.

Lemma format_store_eq format upd s :
  format_store format upd s =
  match fmt s format with
  | Some fs => Done tt (put_fmt format (upd fs) s)
  | None => Fault
  end.
Proof. unfold format_store, fmt. by destruct (decide _). Qed.

Lemma arena_load_eq arena s :
  arena_load arena s = match arn s arena with Some a => Done a s | None => Fault end.
Proof. unfold arena_load, arn. by destruct (decide _). Qed.

Lemma arena_store_eq arena upd s :
  arena_store arena upd s =
  match arn s arena with
  | Some a => Done tt (put_arn arena (upd a) s)
  | None => Fault
  end.
Proof. unfold arena_store, arn. by destruct (decide _). Qed.

Lemma format_get_eq {A} (field : FormatStruct.t -> A) format s :
  format_get field format s =
  match fmt s format with Some fs => Done (field fs) s | None => Fault end.
Proof. unfold format_get, bind. rewrite format_load_eq. by destruct (fmt s format). Qed.

Lemma arena_get_eq {A} (field : ArenaStruct.t -> A) arena s :
  arena_get field arena s =
  match arn s arena with Some a => Done (field a) s | None => Fault end.
Proof. unfold arena_get, bind. rewrite arena_load_eq. by destruct (arn s arena). Qed.

Lemma fmt_put_fmt format fs s g :
  fmt s format <> None ->
  fmt (put_fmt format fs s) g = if decide (g = format) then Some fs else fmt s g.
Proof.
  unfold fmt, put_fmt. simpl. intros Hm.
  destruct (decide (format = NULL)) as [->|Hn]; [done|].
  destruct (decide (g = format)) as [->|Hne].
  - rewrite decide_False by done. by rewrite lookup_insert_eq.
  - destruct (decide (g = NULL)); [done|]. by rewrite lookup_insert_ne.
Qed.

Lemma arn_put_fmt format fs s a : arn (put_fmt format fs s) a = arn s a.
Proof. reflexivity. Qed.

Lemma arn_put_arn arena a s b :
  arn s arena <> None ->
  arn (put_arn arena a s) b = if decide (b = arena) then Some a else arn s b.
Proof.
  unfold arn, put_arn. simpl. intros Hm.
  destruct (decide (arena = NULL)) as [->|Hn]; [done|].
  destruct (decide (b = arena)) as [->|Hne].
  - rewrite decide_False by done. by rewrite lookup_insert_eq.
  - destruct (decide (b = NULL)); [done|]. by rewrite lookup_insert_ne.
Qed.

Lemma fmt_put_arn arena a s f : fmt (put_arn arena a s) f = fmt s f.
Proof. reflexivity. Qed.

Lemma ring_load_eq ring s :
  ring_load ring s = match node s ring with Some x => Done x s | None => Fault end.
Proof.
  destruct ring as [|f|a]; simpl; [done| |].
  - rewrite format_get_eq. by destruct (fmt s f).
  - rewrite arena_get_eq. by destruct (arn s a).
Qed.

Lemma ring_get_eq field ring s :
  ring_get field ring s =
  match node s ring with Some x => Done (field x) s | None => Fault end.
Proof. unfold ring_get, bind. rewrite ring_load_eq. by destruct (node s ring). Qed.

Lemma ring_store_eq ring upd s :
  ring_store ring upd s =
  match node s ring with
  | Some x => Done tt (put_node ring (upd x) s)
  | None => Fault
  end.
Proof.
  destruct ring as [|f|a]; simpl; [done| |].
  - rewrite format_store_eq. by destruct (fmt s f).
  - rewrite arena_store_eq. by destruct (arn s a).
Qed.

Lemma node_put_node ring x s r :
  node (put_node ring x s) r =
  if decide (r = ring) then (fun _ => x) <$> node s ring else node s r.
Proof.
  destruct ring as [|f|a]; simpl in *.
  - case_decide; by subst.
  - destruct (fmt s f) as [fs|] eqn:Hf.
    + destruct r as [|g|b]; cbn [node]; rewrite ?fmt_put_fmt by congruence;
        repeat case_decide; simplify_eq; rewrite ?Hf; done.
    + case_decide; subst; simpl; by rewrite ?Hf.
  - destruct (arn s a) as [ar|] eqn:Ha.
    + destruct r as [|g|b]; cbn [node]; rewrite ?arn_put_arn by congruence;
        repeat case_decide; simplify_eq; rewrite ?Ha; done.
    + case_decide; subst; simpl; by rewrite ?Ha.
Qed.

Lemma same_core_refl s : same_core s s.
Proof. by repeat split. Qed.

Lemma same_core_trans s1 s2 s3 : same_core s1 s2 -> same_core s2 s3 -> same_core s1 s3.
Proof.
  intros (F1 & A1 & W1 & S1) (F2 & A2 & W2 & S2). repeat split; intros; congruence.
Qed.

Lemma put_node_same_core ring x s : same_core s (put_node ring x s).
Proof.
  destruct ring as [|f|a]; simpl; [apply same_core_refl| |].
  - destruct (fmt s f) as [fs|] eqn:Hf; [|apply same_core_refl].
    repeat split; try done. intros g. rewrite fmt_put_fmt by congruence.
    destruct (decide (g = f)) as [->|]; [|done]. by rewrite Hf.
  - destruct (arn s a) as [ar|] eqn:Ha; [|apply same_core_refl].
    repeat split; try done. intros b. rewrite arn_put_arn by congruence.
    destruct (decide (b = a)) as [->|]; [|done]. by rewrite Ha.
Qed.

(** ** The validator *)

Ltac read_store :=
  repeat (rewrite ?format_get_eq, ?arena_get_eq, ?ring_get_eq,
            ?format_load_eq, ?arena_load_eq, ?ring_load_eq);
  simpl.

Ltac case_store :=
  match goal with
  | H : node ?s ?r = _ |- context [node ?s ?r] => rewrite H
  | H : arn ?s ?a = _ |- context [arn ?s ?a] => rewrite H
  | H : fmt ?s ?f = _ |- context [fmt ?s ?f] => rewrite H
  | |- context [decide ?P] => destruct (decide P)
  | |- context [node ?s ?r] => destruct (node s r) eqn:?
  | |- context [arn ?s ?a] => destruct (arn s a) eqn:?
  | |- context [fmt ?s ?f] => destruct (fmt s f) eqn:?
  end; simpl; try done.

Lemma RingCheck_eq ring s :
  RingCheck ring s =
  match ring_consistent s ring with Some b => Done b s | None => Fault end.
Proof.
  unfold RingCheck, ring_consistent, bind, ret.
  repeat (read_store; try done; case_store).
Qed.

Lemma CHECK_holds c (cond : M bool) (rest : M Verdict) s format cs :
  cond s = match holds c s format with Some b => Done b s | None => Fault end ->
  rest s = first_failure s format cs ->
  CHECK c cond rest s = first_failure s format (c :: cs).
Proof.
  intros Hc Hr. unfold CHECK, bind. rewrite Hc. simpl.
  destruct (holds c s format) as [[|]|]; done.
Qed.

Lemma FormatCheck_validate_spec format s :
  FormatCheck format s = validate_spec s format.
Proof.
  unfold FormatCheck, validate_spec, check_order.
  repeat (apply CHECK_holds;
          [ first [ apply RingCheck_eq
                  | unfold holds, CHECKT_Format, CHECKT_Arena, FUNCHECK, bind, ret;
                    repeat (read_store; try done; case_store) ] | ]).
  reflexivity.
Qed.

Lemma first_failure_pure s format cs v s' :
  first_failure s format cs = Done v s' -> s' = s.
Proof.
  induction cs as [|c cs IH]; simpl.
  - by intros [= _ <-].
  - destruct (holds c s format) as [[|]|]; [done| |done]. by intros [= _ <-].
Qed.

Lemma first_failure_pass s format cs :
  first_failure s format cs = Done CheckPass s <->
  forall c, c ∈ cs -> holds c s format = Some true.
Proof.
  induction cs as [|c cs IH]; simpl.
  - split; [|done]. intros _ c Hc. by apply elem_of_nil in Hc.
  - destruct (holds c s format) as [[|]|] eqn:Hh.
    + rewrite IH. split.
      * intros H c' [->|Hc']%elem_of_cons; auto.
      * intros H c' Hc'. apply H. by right.
    + split; [done|]. intros H. specialize (H c ltac:(by left)). congruence.
    + split; [done|]. intros H. specialize (H c ltac:(by left)). congruence.
Qed.

Lemma first_failure_fail s format cs c :
  first_failure s format cs = Done (CheckFail c) s <->
  exists before after, cs = before ++ c :: after /\
    (forall c', c' ∈ before -> holds c' s format = Some true) /\
    holds c s format = Some false.
Proof.
  induction cs as [|c0 cs IH]; simpl.
  - split; [done|]. intros (b & a & H & _). by destruct b.
  - destruct (holds c0 s format) as [[|]|] eqn:Hh.
    + rewrite IH. split.
      * intros (b & a & -> & Hb & Hc). exists (c0 :: b), a. split; [done|].
        split; [|done]. intros c' [->|Hc']%elem_of_cons; auto.
      * intros (b & a & Heq & Hb & Hc). destruct b as [|b0 b]; simplify_eq/=.
        exists b, a. split; [done|].
        split; [|done]. intros c' Hc'. apply Hb. by right.
    + split.
      * intros [= ->]. exists [], cs. split; [done|]. split; [|done].
        intros c' Hc'. by apply elem_of_nil in Hc'.
      * intros (b & a & Heq & Hb & Hc). destruct b as [|b0 b]; simplify_eq/=; [done|].
        specialize (Hb b0 ltac:(by left)). congruence.
    + split; [done|]. intros (b & a & Heq & Hb & Hc).
      destruct b as [|b0 b]; simplify_eq/=.
      specialize (Hb b0 ltac:(by left)). congruence.
Qed.

(** C5.  The validator of format.c is the spec's ordered list of checks:
    it evaluates signature, arena, serial, variety, ring, alignment and the
    seven callbacks scan, skip, move, isMoved, copy, pad, class in this
    order, returns at the first check that fails, naming it, and passes
    exactly when every check holds. *)
Theorem FormatCheck_checks_in_order (format : Addr) (s : State) :
  FormatCheck format s = validate_spec s format /\
  (FormatCheck format s = Done CheckPass s <->
   forall c, c ∈ check_order -> holds c s format = Some true) /\
  (forall c, FormatCheck format s = Done (CheckFail c) s <->
   exists before after, check_order = before ++ c :: after /\
     (forall c', c' ∈ before -> holds c' s format = Some true) /\
     holds c s format = Some false).
Proof.
  rewrite FormatCheck_validate_spec. unfold validate_spec.
  split; [reflexivity|]. split.
  - apply first_failure_pass.
  - intros c. apply first_failure_fail.
Qed.

Lemma FormatCheck_pure format s v s' :
  FormatCheck format s = Done v s' -> s' = s.
Proof. rewrite FormatCheck_validate_spec. apply first_failure_pure. Qed.

(** C6.  The validator changes nothing in the store (descriptor, arena,
    client memory, sinks) and two calls in a row give the result of one. *)
Theorem FormatCheck_no_side_effect_idempotent (format : Addr) (s : State) :
  (forall v s', FormatCheck format s = Done v s' -> s' = s) /\
  (v1 <- FormatCheck format ;; v2 <- FormatCheck format ;; ret (v1, v2)) s =
  (v <- FormatCheck format ;; ret (v, v)) s.
Proof.
  split; [intros v s'; apply FormatCheck_pure|].
  unfold bind at 1 3.
  destruct (FormatCheck format s) as [v s'| |] eqn:H; [|done..].
  apply FormatCheck_pure in H as Hs. subst s'.
  unfold bind. by rewrite H.
Qed.

(** ** Construction *)

Lemma put_fmt_put_fmt p x y s : put_fmt p y (put_fmt p x s) = put_fmt p y s.
Proof. unfold put_fmt, with_formats. simpl. by rewrite insert_insert_eq. Qed.

Lemma format_store_put p upd x s :
  fmt s p <> None ->
  format_store p upd (put_fmt p x s) = Done tt (put_fmt p (upd x) s).
Proof.
  intros H. rewrite format_store_eq, fmt_put_fmt by done.
  rewrite decide_True by done. by rewrite put_fmt_put_fmt.
Qed.

Lemma format_store_first p upd x s :
  fmt s p = Some x ->
  format_store p upd s = Done tt (put_fmt p (upd x) s).
Proof. intros H. by rewrite format_store_eq, H. Qed.

Lemma FormatCreate_eq formatReturn arena alignment variety
    scan skip move isMoved copy pad class s :
  FormatCreate formatReturn arena alignment variety scan skip move isMoved copy pad class s =
  if decide (formatReturn = NULL) then AssertFail "formatReturn != NULL" else
  match arn s arena with
  | None => Fault
  | Some a =>
      match ArenaStruct.controlPool a with
      | [] => Done ResMEMORY s
      | p :: rest =>
          match fmt s p with
          | None => Fault
          | Some _ =>
              if decide (class = MethodNULL /\ variety <> FormatVarietyA)
              then AssertFail "variety == FormatVarietyA"
              else
                (AVERT_Format p ;;;
                 RingAppend (ArenaFormatRing arena) (FormatArenaRing p) ;;;
                 word_store formatReturn p ;;;
                 ret ResOK)
                  (created arena a p rest alignment variety
                     scan skip move isMoved copy pad class s)
          end
      end
  end.
Proof.
  unfold FormatCreate. unfold bind at 1. unfold AVER.
  destruct (decide (formatReturn = NULL)) as [->|Hfr].
  { by rewrite bool_decide_eq_false_2 by (intros H; by apply H). }
  rewrite bool_decide_eq_true_2 by done.
  unfold bind at 1. unfold ArenaAlloc. unfold bind at 1. rewrite arena_get_eq.
  destruct (arn s arena) as [a|] eqn:Ha; [|done].
  destruct (ArenaStruct.controlPool a) as [|p rest] eqn:Hpool; [done|].
  unfold bind at 1. rewrite arena_store_eq, Ha. unfold ret at 1. cbn [fst snd].
  rewrite decide_False by (intros H; by apply H).
  set (s1 := put_arn arena _ s).
  unfold bind at 1. rewrite format_store_eq.
  change (fmt s1 p) with (fmt s p).
  destruct (fmt s p) as [junk|] eqn:Hp; [|done].
  assert (Hs1 : fmt s1 p <> None) by (change (fmt s1 p) with (fmt s p); congruence).
  assert (Ha1 : arn s1 arena = Some (ArenaStruct.set_controlPool rest a)).
  { unfold s1. rewrite arn_put_arn by congruence. by rewrite decide_True. }
  unfold RingInit, ring_store. unfold bind.
  repeat (rewrite format_store_put by assumption; cbv beta iota).
  destruct (decide (class = MethodNULL)) as [->|Hcls].
  - destruct (decide (variety = FormatVarietyA)) as [->|Hv].
    + rewrite bool_decide_eq_true_2 by done.
      rewrite decide_False by (intros [_ H]; by apply H).
      repeat (rewrite format_store_put by assumption; cbv beta iota).
      rewrite arena_get_eq, arn_put_fmt, Ha1.
      repeat (rewrite format_store_put by assumption; cbv beta iota).
      rewrite arena_store_eq, arn_put_fmt, Ha1.
      reflexivity.
    + rewrite bool_decide_eq_false_2 by done.
      by rewrite decide_True.
  - rewrite decide_False by (intros [H _]; by apply Hcls).
    repeat (rewrite format_store_put by assumption; cbv beta iota).
    rewrite arena_get_eq, arn_put_fmt, Ha1.
    repeat (rewrite format_store_put by assumption; cbv beta iota).
    rewrite arena_store_eq, arn_put_fmt, Ha1.
    unfold created. rewrite decide_False by done.
    reflexivity.
Qed.

Lemma ring_get_Done field ring s v s' :
  ring_get field ring s = Done v s' <->
  exists x, node s ring = Some x /\ v = field x /\ s' = s.
Proof.
  rewrite ring_get_eq. destruct (node s ring) as [x|]; split.
  - intros [= <- <-]. eauto.
  - intros (y & [= <-] & -> & ->). done.
  - done.
  - intros (y & [=] & _).
Qed.

Lemma ring_store_Done ring upd s u s' :
  ring_store ring upd s = Done u s' <->
  exists x, node s ring = Some x /\ s' = put_node ring (upd x) s.
Proof.
  rewrite ring_store_eq. destruct (node s ring) as [x|]; split.
  - intros [= <-]. eauto.
  - intros (y & [= <-] & ->). by destruct u.
  - done.
  - intros (y & [=] & _).
Qed.

Ltac inv_bind H :=
  let a := fresh "a" in let s := fresh "s" in let H1 := fresh "H" in
  apply bind_Done in H; destruct H as (a & s & H1 & H).

Ltac inv_ring :=
  repeat match goal with
  | H : bind _ _ _ = Done _ _ |- _ => inv_bind H
  | H : ring_get _ _ _ = Done _ _ |- _ =>
      apply ring_get_Done in H; destruct H as (? & H & ? & ?); subst
  | H : ring_store _ _ _ = Done _ _ |- _ =>
      apply ring_store_Done in H; destruct H as (? & H & ?); subst
  end.

Lemma RingAppend_same_core ring new s u s' :
  RingAppend ring new s = Done u s' -> same_core s s'.
Proof.
  unfold RingAppend. intros H. inv_ring.
  repeat (eapply same_core_trans; [|apply put_node_same_core]).
  apply same_core_refl.
Qed.

Lemma node_put_same ring x s y :
  node s ring = Some y -> node (put_node ring x s) ring = Some x.
Proof. intros H. rewrite node_put_node, decide_True by done. by rewrite H. Qed.

Lemma node_put_other ring x s r :
  r <> ring -> node (put_node ring x s) r = node s r.
Proof. intros H. by rewrite node_put_node, decide_False. Qed.

Lemma node_Some_not_NONE s ring x : node s ring = Some x -> ring <> RingNONE.
Proof. by intros H ->. Qed.

Lemma ring_consistent_intro s ring r n p :
  node s ring = Some r ->
  node s (RingStruct.next r) = Some n -> RingStruct.prev n = ring ->
  node s (RingStruct.prev r) = Some p -> RingStruct.next p = ring ->
  ring_consistent s ring = Some true.
Proof.
  intros Hr Hn Hnp Hp Hpn. unfold ring_consistent.
  rewrite decide_False by (by eapply node_Some_not_NONE).
  rewrite Hr. simpl.
  rewrite decide_False by (by eapply node_Some_not_NONE).
  rewrite Hn. simpl. rewrite decide_True by done.
  rewrite decide_False by (by eapply node_Some_not_NONE).
  rewrite Hp. simpl. by rewrite bool_decide_eq_true_2.
Qed.

Lemma ring_consistent_elim s ring :
  ring_consistent s ring = Some true ->
  exists r n p,
    node s ring = Some r /\
    node s (RingStruct.next r) = Some n /\ RingStruct.prev n = ring /\
    node s (RingStruct.prev r) = Some p /\ RingStruct.next p = ring.
Proof.
  unfold ring_consistent. intros H.
  destruct (decide (ring = RingNONE)) as [|_]; [done|].
  destruct (node s ring) as [r|] eqn:Hr; [|done]. simpl in H.
  destruct (decide (RingStruct.next r = RingNONE)) as [|_]; [done|].
  destruct (node s (RingStruct.next r)) as [nx|] eqn:Hn; [|done]. simpl in H.
  destruct (decide (RingStruct.prev nx = ring)) as [Hnp|]; [|done].
  destruct (decide (RingStruct.prev r = RingNONE)) as [|_]; [done|].
  destruct (node s (RingStruct.prev r)) as [px|] eqn:Hp; [|done]. simpl in H.
  injection H as H. apply bool_decide_eq_true_1 in H.
  by exists r, nx, px.
Qed.

Lemma RingAppend_consistent ring new s u s' :
  ring <> new ->
  RingAppend ring new s = Done u s' ->
  ring_consistent s' new = Some true.
Proof.
  unfold RingAppend. intros Hne H. inv_ring.
  match goal with H : node s ring = Some ?x |- _ => rename x into r0; rename H into Hr0 end.
  match goal with H : node s new = Some ?x |- _ => rename x into n0; rename H into Hn0 end.
  set (sa := put_node new (RingStruct.set_prev (RingStruct.prev r0) n0) s) in *.
  assert (Hna : node sa new = Some (RingStruct.set_prev (RingStruct.prev r0) n0))
    by (by eapply node_put_same).
  match goal with H : node sa new = Some ?x |- _ =>
    rewrite Hna in H; injection H as <- end.
  set (sb := put_node new _ sa) in *.
  assert (Hnb : node sb new = Some (RingStruct.Build ring (RingStruct.prev r0)))
    by (by eapply node_put_same).
  assert (Hrb : node sb ring = Some r0).
  { unfold sb, sa. by rewrite !node_put_other. }
  match goal with H : node sb ring = Some ?x |- _ =>
    rewrite Hrb in H; injection H as <- end.
  match goal with H : node sb (RingStruct.prev r0) = Some ?x |- _ =>
    rename x into q0; rename H into Hq0 end.
  set (sc := put_node (RingStruct.prev r0) _ sb) in *.
  match goal with H : node sc ring = Some ?x |- _ => rename x into r1; rename H into Hr1 end.
  assert (Hpc : node sc (RingStruct.prev r0) = Some (RingStruct.set_next new q0))
    by (by eapply node_put_same).
  destruct (decide (RingStruct.prev r0 = new)) as [Hp|Hp].
  - (* the head's last node is the new node itself *)
    rewrite Hp in *. rewrite Hnb in Hq0. injection Hq0 as <-.
    eapply ring_consistent_intro.
    + rewrite node_put_other by done. exact Hpc.
    + simpl. rewrite node_put_other by done. exact Hpc.
    + done.
    + simpl. rewrite node_put_other by done. exact Hpc.
    + done.
  - assert (Hnc : node sc new = Some (RingStruct.Build ring (RingStruct.prev r0))).
    { unfold sc. by rewrite node_put_other. }
    destruct (decide (RingStruct.prev r0 = ring)) as [Hpr|Hpr].
    + rewrite Hpr in Hpc. rewrite Hpc in Hr1. injection Hr1 as <-.
      eapply ring_consistent_intro.
      * rewrite node_put_other by done. exact Hnc.
      * simpl. by eapply node_put_same.
      * done.
      * simpl. rewrite Hpr. by eapply node_put_same.
      * done.
    + eapply ring_consistent_intro.
      * rewrite node_put_other by done. exact Hnc.
      * simpl. by eapply node_put_same.
      * done.
      * simpl. rewrite node_put_other by done. exact Hpc.
      * done.
Qed.

Lemma word_succ_no_wrap n : n < word_succ n -> word_succ n = n + 1.
Proof.
  unfold word_succ. intros H.
  pose proof (N.Div0.mod_le (n + 1) (2 ^ MPS_WORD_WIDTH)). lia.
Qed.

Lemma same_core_fmt s s' f fs :
  same_core s s' -> fmt s f = Some fs ->
  exists fs', fmt s' f = Some fs' /\ fcore fs' = fcore fs.
Proof.
  intros (F & _) H. specialize (F f). rewrite H in F.
  destruct (fmt s' f) as [fs'|]; [|done]. exists fs'. split; [done|].
  by apply (inj Some) in F.
Qed.

Lemma same_core_arn s s' a x :
  same_core s s' -> arn s a = Some x ->
  exists x', arn s' a = Some x' /\ acore x' = acore x.
Proof.
  intros (_ & A & _) H. specialize (A a). rewrite H in A.
  destruct (arn s' a) as [x'|]; [|done]. exists x'. split; [done|].
  by apply (inj Some) in A.
Qed.

Lemma same_core_fmt_None s s' f :
  same_core s s' -> fmt s f = None -> fmt s' f = None.
Proof.
  intros (F & _) H. specialize (F f). rewrite H in F.
  by destruct (fmt s' f).
Qed.

Lemma same_core_arn_None s s' a :
  same_core s s' -> arn s a = None -> arn s' a = None.
Proof.
  intros (_ & A & _) H. specialize (A a). rewrite H in A.
  by destruct (arn s' a).
Qed.

(** Only the ring check reads ring links. *)
Lemma holds_same_core s s' c format :
  same_core s s' -> c <> CheckRing -> holds c s' format = holds c s format.
Proof.
  intros Hc Hne.
  destruct (fmt s format) as [fs|] eqn:Hf.
  - destruct (same_core_fmt _ _ _ _ Hc Hf) as (fs' & Hf' & Hcore).
    destruct fs, fs'. unfold fcore in Hcore. simpl in Hcore.
    injection Hcore as -> -> -> -> -> -> -> -> -> -> -> ->.
    destruct c; try done; unfold holds; rewrite Hf, Hf'; simpl; try done.
    + case_decide; [done|].
      destruct (arn s arena) as [x|] eqn:Ha.
      * destruct (same_core_arn _ _ _ _ Hc Ha) as (x' & -> & Hx).
        destruct x, x'. unfold acore in Hx. simpl in Hx. by simplify_eq.
      * by rewrite (same_core_arn_None _ _ _ Hc Ha).
    + destruct (arn s arena) as [x|] eqn:Ha.
      * destruct (same_core_arn _ _ _ _ Hc Ha) as (x' & -> & Hx).
        destruct x, x'. unfold acore in Hx. simpl in Hx. by simplify_eq.
      * by rewrite (same_core_arn_None _ _ _ Hc Ha).
  - pose proof (same_core_fmt_None _ _ _ Hc Hf) as Hf'.
    destruct c; try done; unfold holds; by rewrite Hf, Hf'.
Qed.

Lemma word_store_Done p w s u s' :
  word_store p w s = Done u s' ->
  s' = with_words (<[p := w]> (words s)) s /\ p <> NULL.
Proof.
  unfold word_store. destruct (decide (p = NULL)); [done|].
  destruct (words s !! p); [|done]. by intros [= <-].
Qed.

Lemma word_store_same_frame p w s u s' :
  word_store p w s = Done u s' ->
  (forall f, fmt s' f = fmt s f) /\ (forall a, arn s' a = arn s a) /\
  words s' !! p = Some w /\ streams s' = streams s.
Proof.
  intros [-> _]%word_store_Done. repeat split. simpl. by rewrite lookup_insert_eq.
Qed.

Lemma holds_same_frame s s' c format :
  (forall f, fmt s' f = fmt s f) -> (forall a, arn s' a = arn s a) ->
  holds c s' format = holds c s format.
Proof.
  intros F A.
  assert (N : forall r, node s' r = node s r).
  { intros [|g|b]; simpl; [done| |]; by rewrite ?F, ?A. }
  destruct c; unfold holds, ring_consistent; rewrite ?F, ?N; try done.
  - destruct (fmt s format); simpl; [|done]. by rewrite A.
  - destruct (fmt s format); simpl; [|done]. by rewrite A.
  - case_decide; [done|]. destruct (node s (FormatArenaRing format)) as [r|]; simpl; [|done].
    rewrite !N. done.
Qed.

Lemma created_fmt arena a p rest alignment variety scan skip move isMoved copy pad class s :
  fmt s p <> None ->
  fmt (created arena a p rest alignment variety scan skip move isMoved copy pad class s) p =
  Some (FormatStruct.Build FormatSig (ArenaStruct.formatSerial a) arena
          (RingStruct.Build (FormatArenaRing p) (FormatArenaRing p))
          alignment variety scan skip move isMoved copy pad
          (if decide (class = MethodNULL) then MethodFormatDefaultClass else class)).
Proof.
  intros H. unfold created. rewrite fmt_put_arn, fmt_put_fmt by done.
  by rewrite decide_True.
Qed.

Lemma created_fmt_other arena a p rest alignment variety scan skip move isMoved copy pad class s f :
  fmt s p <> None -> f <> p ->
  fmt (created arena a p rest alignment variety scan skip move isMoved copy pad class s) f =
  fmt s f.
Proof.
  intros H Hne. unfold created. rewrite fmt_put_arn, fmt_put_fmt by done.
  by rewrite decide_False.
Qed.

Lemma created_arn arena a p rest alignment variety scan skip move isMoved copy pad class s :
  arn s arena = Some a ->
  arn (created arena a p rest alignment variety scan skip move isMoved copy pad class s) arena =
  Some (ArenaStruct.set_formatSerial (word_succ (ArenaStruct.formatSerial a))
          (ArenaStruct.set_controlPool rest a)).
Proof.
  intros H. unfold created. rewrite arn_put_arn.
  - by rewrite decide_True.
  - rewrite arn_put_fmt, arn_put_arn by congruence. by rewrite decide_True.
Qed.

Lemma created_arn_other arena a p rest alignment variety scan skip move isMoved copy pad class s b :
  arn s arena = Some a -> b <> arena ->
  arn (created arena a p rest alignment variety scan skip move isMoved copy pad class s) b =
  arn s b.
Proof.
  intros H Hne. unfold created. rewrite arn_put_arn.
  - rewrite decide_False by done. rewrite arn_put_fmt, arn_put_arn by congruence.
    by rewrite decide_False.
  - rewrite arn_put_fmt, arn_put_arn by congruence. by rewrite decide_True.
Qed.

Lemma AVERT_Format_Done format s u s' :
  AVERT_Format format s = Done u s' <->
  FormatCheck format s = Done CheckPass s /\ s' = s.
Proof.
  unfold AVERT_Format. rewrite bind_Done. split.
  - intros (v & s1 & Hc & Ha). apply FormatCheck_pure in Hc as Hs. subst s1.
    apply AVER_Done in Ha as [Hp ->]. destruct v; [done|discriminate].
  - intros [Hc ->]. exists CheckPass, s. split; [done|]. by apply AVER_Done.
Qed.

Lemma FormatCreate_Done_inv formatReturn arena alignment variety
    scan skip move isMoved copy pad class s res s' :
  FormatCreate formatReturn arena alignment variety scan skip move isMoved copy pad class s
    = Done res s' ->
  formatReturn <> NULL /\
  exists a, arn s arena = Some a /\
    ((ArenaStruct.controlPool a = [] /\ res = ResMEMORY /\ s' = s) \/
     (exists p rest s4,
        ArenaStruct.controlPool a = p :: rest /\ fmt s p <> None /\ res = ResOK /\
        (class = MethodNULL -> variety = FormatVarietyA) /\
        FormatCheck p
          (created arena a p rest alignment variety scan skip move isMoved copy pad class s)
        = Done CheckPass
            (created arena a p rest alignment variety scan skip move isMoved copy pad class s) /\
        RingAppend (ArenaFormatRing arena) (FormatArenaRing p)
          (created arena a p rest alignment variety scan skip move isMoved copy pad class s)
        = Done tt s4 /\
        word_store formatReturn p s4 = Done tt s')).
Proof.
  rewrite FormatCreate_eq.
  destruct (decide (formatReturn = NULL)) as [|Hfr]; [done|].
  destruct (arn s arena) as [a|] eqn:Ha; [|done].
  destruct (ArenaStruct.controlPool a) as [|p rest] eqn:Hpool.
  { intros [= <- <-]. split; [done|]. exists a. split; [done|]. by left. }
  destruct (fmt s p) as [junk|] eqn:Hp; [|done].
  destruct (decide (class = MethodNULL /\ variety <> FormatVarietyA)) as [|Hcv]; [done|].
  intros H. inv_bind H. inv_bind H. inv_bind H.
  injection H as <- <-.
  match goal with H : AVERT_Format _ _ = _ |- _ => apply AVERT_Format_Done in H as [Hc ->] end.
  split; [done|]. exists a. split; [done|]. right.
  exists p, rest. eexists. split; [done|]. split; [congruence|]. split; [done|].
  split.
  { intros ->. destruct (decide (variety = FormatVarietyA)); [done|]. by destruct Hcv. }
  split; [done|]. split.
  - match goal with H : RingAppend _ _ _ = Done ?u _ |- _ => destruct u; exact H end.
  - match goal with H : word_store _ _ _ = Done ?u _ |- _ => destruct u; exact H end.
Qed.

(** What a successful construction leaves: the descriptor at the block [p]
    taken from the pool, the stepped counter, and everything else as it was,
    ring links apart. *)
Lemma FormatCreate_ok formatReturn arena alignment variety
    scan skip move isMoved copy pad class s s' :
  FormatCreate formatReturn arena alignment variety scan skip move isMoved copy pad class s
    = Done ResOK s' ->
  exists p a rest fs a',
    formatReturn <> NULL /\
    arn s arena = Some a /\ ArenaStruct.controlPool a = p :: rest /\ fmt s p <> None /\
    words s' !! formatReturn = Some p /\
    fmt s' p = Some fs /\
    fcore fs =
      fcore (FormatStruct.Build FormatSig (ArenaStruct.formatSerial a) arena
               (RingStruct.Build RingNONE RingNONE)
               alignment variety scan skip move isMoved copy pad
               (if decide (class = MethodNULL) then MethodFormatDefaultClass else class)) /\
    arn s' arena = Some a' /\
    acore a' =
      acore (ArenaStruct.set_formatSerial (ArenaStruct.formatSerial a + 1)
               (ArenaStruct.set_controlPool rest a)) /\
    (forall f, f <> p -> fcore <$> fmt s' f = fcore <$> fmt s f) /\
    (forall b, b <> arena -> acore <$> arn s' b = acore <$> arn s b) /\
    streams s' = streams s /\
    (forall w, w <> formatReturn -> words s' !! w = words s !! w) /\
    FormatCheck p s' = Done CheckPass s'.
Proof.
  intros H. apply FormatCreate_Done_inv in H as (Hfr & a & Ha & [(_ & [=] & _)|H]).
  destruct H as (p & rest & s4 & Hpool & Hp & _ & Hcv & Hc & Happ & Hw).
  pose proof (created_fmt arena a p rest alignment variety scan skip move isMoved
                copy pad class s Hp) as Hf3.
  pose proof (created_arn arena a p rest alignment variety scan skip move isMoved
                copy pad class s Ha) as Ha3.
  pose proof (created_fmt_other arena a p rest alignment variety scan skip move isMoved
                copy pad class s) as Hf3o.
  pose proof (created_arn_other arena a p rest alignment variety scan skip move isMoved
                copy pad class s) as Ha3o.
  assert (Hw3 : words (created arena a p rest alignment variety scan skip move isMoved
                         copy pad class s) = words s) by reflexivity.
  assert (Hst3 : streams (created arena a p rest alignment variety scan skip move isMoved
                         copy pad class s) = streams s) by reflexivity.
  set (s3 := created _ _ _ _ _ _ _ _ _ _ _ _ _ _) in *.
  pose proof (RingAppend_same_core _ _ _ _ _ Happ) as Hcore.
  assert (Hring : ring_consistent s4 (FormatArenaRing p) = Some true)
    by (eapply (RingAppend_consistent (ArenaFormatRing arena)); [done|exact Happ]).
  destruct (word_store_same_frame _ _ _ _ _ Hw) as (F & A & Hword & Hst).
  destruct (same_core_fmt _ _ _ _ Hcore Hf3) as (fs & Hfs & Hfc).
  destruct (same_core_arn _ _ _ _ Hcore Ha3) as (a' & Ha' & Hac).
  rewrite FormatCheck_validate_spec in Hc.
  pose proof (proj1 (first_failure_pass _ _ _) Hc) as Hall.
  assert (Hs : holds CheckSerial s3 p = Some true).
  { apply Hall. unfold check_order. set_solver. }
  unfold holds in Hs. rewrite Hf3 in Hs. simpl in Hs. rewrite Ha3 in Hs. simpl in Hs.
  injection Hs as Hs. apply N.ltb_lt, word_succ_no_wrap in Hs.
  destruct Hcore as (Fc & Ac & Wc & Sc).
  exists p, a, rest, fs, a'.
  split; [done|]. split; [done|]. split; [done|]. split; [done|]. split; [done|].
  split; [by rewrite F|]. split; [by rewrite Hfc|].
  split; [by rewrite A|]. split; [by rewrite Hac, Hs|].
  split. { intros f Hne. by rewrite F, Fc, Hf3o. }
  split. { intros b Hne. by rewrite A, Ac, Ha3o. }
  split. { by rewrite Hst, Sc. }
  split. { intros w Hne. apply word_store_Done in Hw as [-> _]. simpl.
           rewrite lookup_insert_ne by done. by rewrite Wc. }
  rewrite FormatCheck_validate_spec. apply first_failure_pass. intros c Hin.
  rewrite (holds_same_frame s4 s') by done.
  destruct (decide (c = CheckRing)) as [->|Hne]; [done|].
  rewrite (holds_same_core s3 s4) by done. by apply Hall.
Qed.

(** *** The constructor appends to the arena's ring *)

Lemma RingAppend_eq ring new s r n :
  node s ring = Some r -> node s new = Some n ->
  is_Some (node s (RingStruct.prev r)) ->
  ring <> new -> RingStruct.prev r <> new ->
  exists s',
    RingAppend ring new s = Done tt s' /\
    (forall z, next_of s' z =
       if decide (z = new) then Some ring
       else if decide (z = RingStruct.prev r) then Some new else next_of s z) /\
    (forall z, prev_of s' z =
       if decide (z = new) then Some (RingStruct.prev r)
       else if decide (z = ring) then Some new else prev_of s z).
Proof.
  intros Hr Hn [q Hq] Hne Hqn. unfold RingAppend, bind.
  rewrite ring_get_eq, Hr. cbv beta iota.
  rewrite ring_store_eq, Hn. cbv beta iota.
  rewrite ring_store_eq, (node_put_same _ _ _ _ Hn). cbv beta iota.
  set (sb := put_node new _ (put_node new _ s)).
  assert (Hnb : node sb new = Some (RingStruct.Build ring (RingStruct.prev r))).
  { unfold sb. erewrite node_put_same; [done|]. by eapply node_put_same. }
  assert (Hob : forall z, z <> new -> node sb z = node s z).
  { intros z Hz. unfold sb. by rewrite !node_put_other. }
  rewrite ring_get_eq, Hob, Hr by done. cbv beta iota.
  rewrite ring_store_eq, Hob, Hq by done. cbv beta iota.
  set (sc := put_node (RingStruct.prev r) _ sb).
  assert (Hrc : exists rc, node sc ring = Some rc /\
                  RingStruct.next rc = (if decide (ring = RingStruct.prev r)
                                        then new else RingStruct.next r)).
  { unfold sc. rewrite node_put_node. case_decide as Hd.
    - rewrite <- Hd, Hob, Hr by done. simpl. eauto.
    - rewrite Hob, Hr by done. eauto. }
  destruct Hrc as (rc & Hrc & Hrcn).
  rewrite ring_store_eq, Hrc.
  eexists. split; [done|]. split.
  - intros z. unfold next_of. rewrite node_put_node.
    destruct (decide (z = ring)) as [->|Hzr].
    + rewrite Hrc. simpl. rewrite decide_False by done. rewrite Hrcn.
      destruct (decide (ring = RingStruct.prev r)); [done|]. by rewrite Hr.
    + unfold sc. rewrite node_put_node.
      destruct (decide (z = new)) as [->|Hzn].
      * rewrite decide_False by done. by rewrite Hnb.
      * destruct (decide (z = RingStruct.prev r)) as [->|Hzq]; [|by rewrite Hob].
        rewrite Hob, Hq by done. done.
  - intros z. unfold prev_of. rewrite node_put_node.
    destruct (decide (z = ring)) as [->|Hzr].
    + rewrite Hrc. simpl. by rewrite decide_False.
    + unfold sc. rewrite node_put_node.
      destruct (decide (z = new)) as [->|Hzn].
      * rewrite decide_False by done. by rewrite Hnb.
      * destruct (decide (z = RingStruct.prev r)) as [->|Hzq]; [|by rewrite Hob].
        rewrite Hob, Hq by done. done.
Qed.

Lemma path_frame s s' l x :
  (forall z, z ∈ x :: l -> node s' z = node s z) ->
  path s x l -> path s' x l.
Proof.
  revert x. induction l as [|y l IH]; intros x Hf Hp; [done|].
  destruct Hp as (Hxy & Hyx & Hp). simpl. unfold next_of, prev_of in *.
  rewrite (Hf x) by (by left). rewrite (Hf y) by (right; by left).
  split; [done|]. split; [done|].
  apply IH; [|done]. intros z Hz. apply Hf. by right.
Qed.

Lemma path_last s head l x :
  path s x (l ++ [head]) -> exists z, z ∈ x :: l /\ prev_of s head = Some z.
Proof.
  revert x. induction l as [|y l IH]; intros x Hp; simpl in Hp.
  - destruct Hp as (_ & Hp & _). exists x. split; [by left|done].
  - destruct Hp as (_ & _ & Hp). destruct (IH y Hp) as (z & Hz & Hpz).
    exists z. split; [by right|done].
Qed.

Lemma path_append s s' head new q :
  (forall z, next_of s' z =
     if decide (z = new) then Some head
     else if decide (z = q) then Some new else next_of s z) ->
  (forall z, prev_of s' z =
     if decide (z = new) then Some q
     else if decide (z = head) then Some new else prev_of s z) ->
  prev_of s head = Some q -> head <> new ->
  forall l x, NoDup (x :: l) -> new ∉ x :: l -> head ∉ l ->
    path s x (l ++ [head]) -> path s' x (l ++ [new; head]).
Proof.
  intros Lnext Lprev Hq Hhn.
  induction l as [|y l IH]; intros x Hnd Hnew Hhead Hp; simpl in *.
  - destruct Hp as (Hxh & Hhx & _). rewrite Hq in Hhx. injection Hhx as ->.
    assert (x <> new) by (intros ->; apply Hnew; by left).
    rewrite !Lnext, !Lprev.
    rewrite (decide_False (P := x = new)), (decide_True (P := x = x)),
      !(decide_True (P := new = new)), (decide_False (P := head = new)),
      (decide_True (P := head = head)) by done.
    by repeat split.
  - destruct Hp as (Hxy & Hyx & Hp).
    apply NoDup_cons in Hnd as [Hx Hnd].
    assert (x <> new) by (intros ->; apply Hnew; by left).
    assert (y <> new) by (intros ->; apply Hnew; right; by left).
    assert (y <> head) by (intros ->; apply Hhead; by left).
    assert (x <> q).
    { intros ->. destruct (path_last _ _ _ _ Hp) as (z & Hz & Hpz).
      rewrite Hq in Hpz. injection Hpz as <-. done. }
    rewrite Lnext, Lprev. rewrite !decide_False by done.
    split; [done|]. split; [done|].
    apply IH; [done| | |done].
    + intros Hin. apply Hnew. by right.
    + intros Hin. apply Hhead. by right.
Qed.

Lemma path_is_Some s l x z : path s x l -> z ∈ l -> is_Some (node s z).
Proof.
  revert x. induction l as [|y l IH]; intros x Hp Hz.
  - by apply elem_of_nil in Hz.
  - destruct Hp as (_ & Hyx & Hp). apply elem_of_cons in Hz as [->|Hz].
    + unfold prev_of in Hyx. by destruct (node s y).
    + by eapply IH.
Qed.

(** A construction in [arena] appends the new descriptor's node to the
    arena's ring: a ring of members [l] becomes the ring of [l] followed by
    the new node. *)
Lemma FormatCreate_appends formatReturn arena alignment variety
    scan skip move isMoved copy pad class s s' p l :
  FormatCreate formatReturn arena alignment variety scan skip move isMoved copy pad class s
    = Done ResOK s' ->
  words s' !! formatReturn = Some p ->
  ring_members s (ArenaFormatRing arena) l ->
  FormatArenaRing p ∉ l ->
  ring_members s' (ArenaFormatRing arena) (l ++ [FormatArenaRing p]).
Proof.
  intros H Hw [Hnd Hpath] Hnew.
  apply FormatCreate_Done_inv in H as (Hfr & a & Ha & [(_ & [=] & _)|H]).
  destruct H as (p' & rest & s4 & Hpool & Hp & _ & Hcv & Hc & Happ & Hws).
  destruct (word_store_same_frame _ _ _ _ _ Hws) as (F & A & Hword & _).
  rewrite Hw in Hword. injection Hword as ->.
  pose proof (created_fmt arena a p' rest alignment variety scan skip move isMoved
                copy pad class s Hp) as Hf3.
  pose proof (created_arn arena a p' rest alignment variety scan skip move isMoved
                copy pad class s Ha) as Ha3.
  pose proof (created_fmt_other arena a p' rest alignment variety scan skip move isMoved
                copy pad class s) as Hf3o.
  pose proof (created_arn_other arena a p' rest alignment variety scan skip move isMoved
                copy pad class s) as Ha3o.
  set (s3 := created _ _ _ _ _ _ _ _ _ _ _ _ _ _) in *.
  set (head := ArenaFormatRing arena) in *. set (new := FormatArenaRing p') in *.
  assert (Hn3 : forall z, z <> new -> node s3 z = node s z).
  { intros [|f|b] Hz; simpl; [done| |].
    - rewrite Hf3o; [done..|]. intros ->. by apply Hz.
    - destruct (decide (b = arena)) as [->|Hb].
      + rewrite Ha3, Ha. done.
      + by rewrite Ha3o. }
  assert (Hpath3 : path s3 head (l ++ [head])).
  { eapply path_frame; [|done]. intros z Hz. apply Hn3.
    apply elem_of_cons in Hz as [->|Hz]; [done|].
    apply elem_of_app in Hz as [Hz|Hz]; [by intros ->|].
    apply list_elem_of_singleton in Hz as ->. done. }
  destruct (path_last _ _ _ _ Hpath3) as (q & Hq & Hpq).
  assert (Hqn : q <> new).
  { intros ->. apply elem_of_cons in Hq as [Hq|Hq]; [done|]. by apply Hnew. }
  assert (Hr3 : node s3 head = Some (ArenaStruct.formatRing a)).
  { simpl. by rewrite Ha3. }
  assert (Hqa : RingStruct.prev (ArenaStruct.formatRing a) = q).
  { unfold prev_of in Hpq. rewrite Hr3 in Hpq. by injection Hpq. }
  destruct (RingAppend_eq head new s3 (ArenaStruct.formatRing a)
              (RingStruct.Build new new)) as (s4' & Happ' & Lnext & Lprev).
  { done. }
  { simpl. by rewrite Hf3. }
  { rewrite Hqa. apply elem_of_cons in Hq as [->|Hq].
    - by rewrite Hr3.
    - eapply path_is_Some; [exact Hpath3|]. apply elem_of_app. by left. }
  { done. }
  { by rewrite Hqa. }
  rewrite Happ in Happ'. injection Happ' as <-.
  rewrite Hqa in Lnext, Lprev.
  assert (Hnode : forall z, node s' z = node s4 z).
  { intros [|f|b]; simpl; by rewrite ?F, ?A. }
  split.
  - apply NoDup_cons in Hnd as [Hh Hnd]. apply NoDup_cons. split.
    + rewrite elem_of_app, list_elem_of_singleton. intros [?|?]; done.
    + apply NoDup_app. split; [done|]. split; [|apply NoDup_singleton].
      intros z Hz ->%list_elem_of_singleton. done.
  - rewrite <- app_assoc. simpl.
    eapply path_frame; [intros z _; apply Hnode|].
    eapply (path_append s3 s4 head new q); try done.
    intros Hin. apply elem_of_cons in Hin as [Hin|Hin]; [done|]. by apply Hnew.
    by apply NoDup_cons in Hnd as [? _].
Qed.

(** C1.  A call of the constructor that returns [ResOK] leaves in
    [*formatReturn] a descriptor that passes [FormatCheck] in the store the
    call returns; its serial is the arena's counter as it was before the
    call, and the counter after the call is that serial plus one. *)
Theorem FormatCreate_success (formatReturn arena : Addr) (alignment : Align)
    (variety : FormatVariety) (scan skip move isMoved copy pad class : Method)
    (s s' : State) :
  FormatCreate formatReturn arena alignment variety scan skip move isMoved copy pad class s
    = Done ResOK s' ->
  exists format fs a a',
    words s' !! formatReturn = Some format /\
    FormatCheck format s' = Done CheckPass s' /\
    arn s arena = Some a /\
    fmt s' format = Some fs /\
    arn s' arena = Some a' /\
    FormatStruct.arena fs = arena /\
    FormatStruct.serial fs = ArenaStruct.formatSerial a /\
    ArenaStruct.formatSerial a' = FormatStruct.serial fs + 1.
Proof.
  intros H. apply FormatCreate_ok in H
    as (p & a & rest & fs & a' & _ & Ha & _ & _ & Hw & Hfs & Hfc & Ha' & Hac & _ & _ & _ & _ & Hc).
  exists p, fs, a, a'. repeat (split; [done|]).
  destruct fs, a'. unfold fcore in Hfc. unfold acore in Hac. simpl in *.
  by simplify_eq.
Qed.

Lemma ArenaAlloc_eq arena s :
  ArenaAlloc arena s =
  match arn s arena with
  | None => Fault
  | Some a =>
      match ArenaStruct.controlPool a with
      | [] => Done (ResMEMORY, NULL) s
      | p :: rest => Done (ResOK, p) (put_arn arena (ArenaStruct.set_controlPool rest a) s)
      end
  end.
Proof.
  unfold ArenaAlloc, bind. rewrite arena_get_eq.
  destruct (arn s arena) as [a|] eqn:Ha; [|done].
  destruct (ArenaStruct.controlPool a); [done|].
  by rewrite arena_store_eq, Ha.
Qed.

(** C2.  When the arena's allocation primitive reports a failure, the
    constructor returns that very result and the store is the one it was
    called in: the format ring, the serial counter and every descriptor are
    untouched. *)
Theorem FormatCreate_alloc_failure (formatReturn arena : Addr) (alignment : Align)
    (variety : FormatVariety) (scan skip move isMoved copy pad class : Method)
    (s s1 : State) (res : Res) (p : Addr) :
  formatReturn <> NULL ->
  ArenaAlloc arena s = Done (res, p) s1 ->
  res <> ResOK ->
  FormatCreate formatReturn arena alignment variety scan skip move isMoved copy pad class s
    = Done res s
  /\ s1 = s.
Proof.
  intros Hfr Halloc Hres. rewrite ArenaAlloc_eq in Halloc. rewrite FormatCreate_eq.
  rewrite decide_False by done.
  destruct (arn s arena) as [a|]; [|done].
  destruct (ArenaStruct.controlPool a); by simplify_eq.
Qed.

(** C4.  With a null class method and variety B the constructor never
    returns [ResOK]: once the arena has supplied the block for the
    descriptor, the assertion [variety == FormatVarietyA] fails; the only
    result it can return is the failure of the allocation, which comes
    before that branch and leaves the store as it was. *)
Theorem FormatCreate_null_class_variety_B (formatReturn arena : Addr) (alignment : Align)
    (scan skip move isMoved copy pad : Method) (s : State) :
  (forall a p rest,
     formatReturn <> NULL ->
     arn s arena = Some a -> ArenaStruct.controlPool a = p :: rest ->
     fmt s p <> None ->
     FormatCreate formatReturn arena alignment FormatVarietyB
       scan skip move isMoved copy pad MethodNULL s
     = AssertFail "variety == FormatVarietyA") /\
  (forall res s',
     FormatCreate formatReturn arena alignment FormatVarietyB
       scan skip move isMoved copy pad MethodNULL s
     = Done res s' ->
     res <> ResOK /\ s' = s /\ ArenaAlloc arena s = Done (res, NULL) s).
Proof.
  split.
  - intros a p rest Hfr Ha Hpool Hp. rewrite FormatCreate_eq.
    rewrite decide_False by done. rewrite Ha, Hpool.
    destruct (fmt s p); [|done]. by rewrite decide_True.
  - intros res s' H.
    apply FormatCreate_Done_inv in H as (Hfr & a & Ha & [(Hpool & -> & ->)|H]).
    + rewrite ArenaAlloc_eq, Ha, Hpool. done.
    + destruct H as (p & rest & s4 & _ & _ & _ & Hcv & _). by specialize (Hcv eq_refl).
Qed.

Lemma node_put_node_is_Some ring x s r :
  is_Some (node s r) -> is_Some (node (put_node ring x s) r).
Proof.
  intros [y Hy]. rewrite node_put_node. case_decide; [subst|by rewrite Hy].
  rewrite Hy. by eexists.
Qed.

Lemma RingAppend_runs ring new s r :
  node s ring = Some r ->
  is_Some (node s new) -> is_Some (node s (RingStruct.prev r)) ->
  ring <> new ->
  exists s', RingAppend ring new s = Done tt s'.
Proof.
  intros Hr [n Hn] Hq Hne. unfold RingAppend, bind.
  rewrite ring_get_eq, Hr. rewrite ring_store_eq, Hn.
  rewrite ring_store_eq, (node_put_same _ _ _ _ Hn).
  rewrite ring_get_eq, !node_put_other, Hr by done.
  set (sb := put_node new _ (put_node new _ s)).
  assert (Hqb : is_Some (node sb (RingStruct.prev r)))
    by (by do 2 apply node_put_node_is_Some).
  destruct Hqb as [q Hqb]. rewrite ring_store_eq, Hqb.
  set (sc := put_node _ _ sb).
  assert (Hrc : is_Some (node sc ring)).
  { do 3 apply node_put_node_is_Some. by rewrite Hr. }
  destruct Hrc as [r' Hrc]. rewrite ring_store_eq, Hrc. by eexists.
Qed.

Lemma created_node arena a p rest alignment variety scan skip move isMoved copy pad class s r :
  fmt s p <> None -> arn s arena = Some a ->
  is_Some (node s r) ->
  is_Some (node (created arena a p rest alignment variety scan skip move isMoved
                   copy pad class s) r).
Proof.
  intros Hp Ha Hr. destruct r as [|f|b]; simpl in *.
  - done.
  - destruct (decide (f = p)) as [->|Hne].
    + rewrite created_fmt by done. by eexists.
    + by rewrite created_fmt_other.
  - destruct (decide (b = arena)) as [->|Hne].
    + rewrite (created_arn _ _ _ _ _ _ _ _ _ _ _ _ _ _ Ha). by eexists.
    + by rewrite (created_arn_other _ _ _ _ _ _ _ _ _ _ _ _ _ _ _ Ha).
Qed.

(** The checks of [AVERT(Format, format)] in [FormatCreate], on its
    arguments and on the arena. *)
Lemma created_FormatCheck arena a p rest alignment variety
    scan skip move isMoved copy pad class s :
  fmt s p <> None -> arn s arena = Some a ->
  ArenaStruct.sig a = ArenaSig ->
  ArenaStruct.formatSerial a + 1 < 2 ^ MPS_WORD_WIDTH ->
  variety = FormatVarietyA \/ variety = FormatVarietyB ->
  AlignCheck alignment = true ->
  scan <> MethodNULL -> skip <> MethodNULL -> move <> MethodNULL ->
  isMoved <> MethodNULL -> copy <> MethodNULL -> pad <> MethodNULL ->
  FormatCheck p (created arena a p rest alignment variety scan skip move isMoved copy pad class s)
  = Done CheckPass
      (created arena a p rest alignment variety scan skip move isMoved copy pad class s).
Proof.
  intros Hp Ha Hsig Hser Hv Hal Hscan Hskip Hmove HisMoved Hcopy Hpad.
  rewrite FormatCheck_validate_spec. apply first_failure_pass.
  pose proof (created_fmt arena a p rest alignment variety scan skip move isMoved
                copy pad class s Hp) as Hf3.
  pose proof (created_arn arena a p rest alignment variety scan skip move isMoved
                copy pad class s Ha) as Ha3.
  set (s3 := created _ _ _ _ _ _ _ _ _ _ _ _ _ _) in *.
  assert (Hpn : p <> NULL).
  { intros ->. by apply Hp. }
  assert (Han : arena <> NULL).
  { intros ->. done. }
  intros c _.
  destruct c; unfold holds;
    rewrite ?(decide_False (P := p = NULL)) by done; rewrite ?Hf3; simpl;
    rewrite ?(decide_False (P := arena = NULL)) by done; rewrite ?Ha3; simpl;
    rewrite ?bool_decide_eq_true_2 by done; try done.
  - f_equal. apply N.ltb_lt. unfold word_succ. rewrite N.mod_small by done. lia.
  - f_equal. destruct Hv as [->| ->]; done.
  - set (single := RingStruct.Build (FormatArenaRing p) (FormatArenaRing p)).
    apply (ring_consistent_intro _ _ single single single);
      simpl; rewrite ?Hf3; done.
  - by rewrite Hal.
  - rewrite bool_decide_eq_true_2; [done|]. by case_decide.
Qed.

Lemma FormatDefaultClass_eq object s :
  FormatDefaultClass object s =
  if decide (object = NULL) then AssertFail "object != NULL"
  else match words s !! object with Some w => Done w s | None => Fault end.
Proof.
  unfold FormatDefaultClass, bind, AVER, word_load.
  destruct (decide (object = NULL)) as [->|Hne].
  - by rewrite bool_decide_eq_false_2 by (intros H; by apply H).
  - by rewrite bool_decide_eq_true_2.
Qed.

(** Conditions under which a construction runs to [ResOK]. *)
Lemma FormatCreate_runs formatReturn arena alignment variety
    scan skip move isMoved copy pad class s a p rest :
  formatReturn <> NULL -> is_Some (words s !! formatReturn) ->
  arn s arena = Some a ->
  ArenaStruct.sig a = ArenaSig ->
  ArenaStruct.formatSerial a + 1 < 2 ^ MPS_WORD_WIDTH ->
  is_Some (node s (RingStruct.prev (ArenaStruct.formatRing a))) ->
  ArenaStruct.controlPool a = p :: rest -> fmt s p <> None ->
  variety = FormatVarietyA \/ variety = FormatVarietyB ->
  (class = MethodNULL -> variety = FormatVarietyA) ->
  AlignCheck alignment = true ->
  scan <> MethodNULL -> skip <> MethodNULL -> move <> MethodNULL ->
  isMoved <> MethodNULL -> copy <> MethodNULL -> pad <> MethodNULL ->
  exists s',
    FormatCreate formatReturn arena alignment variety scan skip move isMoved copy pad class s
    = Done ResOK s'.
Proof.
  intros Hfr [w0 Hw0] Ha Hsig Hser Hq Hpool Hp Hv Hcv Hal Hscan Hskip Hmove HisMoved Hcopy Hpad.
  rewrite FormatCreate_eq. rewrite decide_False by done. rewrite Ha, Hpool.
  destruct (fmt s p) as [junk|] eqn:Hj; [|done].
  rewrite <- Hj in Hp.
  rewrite decide_False by (intros [Hc Hn]; by apply Hn, Hcv).
  pose proof (created_FormatCheck arena a p rest alignment variety scan skip move isMoved
                copy pad class s Hp Ha Hsig Hser Hv Hal Hscan Hskip Hmove HisMoved Hcopy Hpad)
    as Hc.
  pose proof (created_arn arena a p rest alignment variety scan skip move isMoved
                copy pad class s Ha) as Ha3.
  pose proof (created_fmt arena a p rest alignment variety scan skip move isMoved
                copy pad class s Hp) as Hf3.
  pose proof (created_node arena a p rest alignment variety scan skip move isMoved
                copy pad class s _ Hp Ha Hq) as Hq3.
  assert (Hw3 : words (created arena a p rest alignment variety scan skip move isMoved
                         copy pad class s) = words s) by reflexivity.
  set (s3 := created _ _ _ _ _ _ _ _ _ _ _ _ _ _) in *.
  destruct (RingAppend_runs (ArenaFormatRing arena) (FormatArenaRing p) s3
              (ArenaStruct.formatRing a)) as [s4 Happ].
  { simpl. by rewrite Ha3. }
  { simpl. rewrite Hf3. by eexists. }
  { done. }
  { done. }
  pose proof (RingAppend_same_core _ _ _ _ _ Happ) as (_ & _ & Hw4 & _).
  unfold bind at 1. unfold AVERT_Format, bind at 1. rewrite Hc. simpl.
  unfold bind at 1. rewrite Happ.
  unfold bind, word_store. rewrite decide_False by done.
  rewrite Hw4, Hw3, Hw0. by eexists.
Qed.

(** C3.  Called with a null class method and variety A (and arguments and
    an arena that pass validation, with a block left in the pool), the
    constructor returns [ResOK] and the class method of the new descriptor
    is [FormatDefaultClass], which returns the word at offset zero of the
    object it is applied to. *)
Theorem FormatCreate_default_class (formatReturn arena : Addr) (alignment : Align)
    (scan skip move isMoved copy pad : Method) (s : State)
    (a : ArenaStruct.t) (p : Addr) (rest : list Addr) :
  formatReturn <> NULL -> is_Some (words s !! formatReturn) ->
  arn s arena = Some a ->
  ArenaStruct.sig a = ArenaSig ->
  ArenaStruct.formatSerial a + 1 < 2 ^ MPS_WORD_WIDTH ->
  is_Some (node s (RingStruct.prev (ArenaStruct.formatRing a))) ->
  ArenaStruct.controlPool a = p :: rest -> fmt s p <> None ->
  AlignCheck alignment = true ->
  scan <> MethodNULL -> skip <> MethodNULL -> move <> MethodNULL ->
  isMoved <> MethodNULL -> copy <> MethodNULL -> pad <> MethodNULL ->
  exists s' fs,
    FormatCreate formatReturn arena alignment FormatVarietyA
      scan skip move isMoved copy pad MethodNULL s = Done ResOK s' /\
    words s' !! formatReturn = Some p /\
    fmt s' p = Some fs /\
    FormatStruct.class fs = MethodFormatDefaultClass /\
    class_code (FormatStruct.class fs) = Some FormatDefaultClass /\
    forall (st : State) (object w : Addr),
      object <> NULL -> words st !! object = Some w ->
      FormatDefaultClass object st = Done w st.
Proof.
  intros Hfr Hw0 Ha Hsig Hser Hq Hpool Hp Hal Hscan Hskip Hmove HisMoved Hcopy Hpad.
  destruct (FormatCreate_runs formatReturn arena alignment FormatVarietyA
              scan skip move isMoved copy pad MethodNULL s a p rest) as [s' Hrun];
    try done; [by left|].
  exists s'.
  apply FormatCreate_ok in Hrun as Hok.
  destruct Hok as (p' & a0 & rest' & fs & a' & _ & Ha0 & Hpool' & _ & Hw & Hfs & Hfc & _).
  rewrite Ha in Ha0. injection Ha0 as <-.
  rewrite Hpool in Hpool'. injection Hpool' as <- <-.
  exists fs. split; [done|]. split; [done|]. split; [done|].
  assert (Hcls : FormatStruct.class fs = MethodFormatDefaultClass).
  { destruct fs. unfold fcore in Hfc. simpl in Hfc. by simplify_eq. }
  split; [done|]. split; [by rewrite Hcls|].
  intros st object w Hobj Hword. rewrite FormatDefaultClass_eq.
  rewrite decide_False by done. by rewrite Hword.
Qed.

(** ** Destruction *)

Lemma RingRemove_same_core old s u s' :
  RingRemove old s = Done u s' -> same_core s s'.
Proof.
  unfold RingRemove. intros H. inv_ring.
  repeat (eapply same_core_trans; [|apply put_node_same_core]).
  apply same_core_refl.
Qed.

Lemma RingRemove_eq old s r rn rp :
  node s old = Some r ->
  node s (RingStruct.next r) = Some rn -> RingStruct.prev rn = old ->
  node s (RingStruct.prev r) = Some rp -> RingStruct.next rp = old ->
  exists s',
    RingRemove old s = Done tt s' /\
    node s' old = Some (RingStruct.Build old old) /\
    (forall z, z <> old ->
       next_of s' z = if decide (z = RingStruct.prev r) then Some (RingStruct.next r)
                      else next_of s z) /\
    (forall z, z <> old ->
       prev_of s' z = if decide (z = RingStruct.next r) then Some (RingStruct.prev r)
                      else prev_of s z).
Proof.
  intros Hr Hn Hnp Hp Hpn. unfold RingRemove, bind.
  rewrite ring_get_eq, Hr. cbv beta iota.
  rewrite ring_get_eq, Hr. cbv beta iota.
  rewrite ring_store_eq, Hn. cbv beta iota.
  set (sa := put_node (RingStruct.next r) (RingStruct.set_prev (RingStruct.prev r) rn) s).
  assert (Hra : exists r', node sa old = Some r' /\
                  RingStruct.next r' = RingStruct.next r /\
                  RingStruct.prev r' = RingStruct.prev r).
  { unfold sa. rewrite node_put_node. case_decide as Hd.
    - rewrite Hn. simpl. eexists. split; [done|]. simpl. split; [|done].
      rewrite Hd in Hr. rewrite Hr in Hn. by injection Hn as ->.
    - rewrite Hr. eauto. }
  destruct Hra as (r' & Hra & Hrn' & Hrp').
  rewrite ring_get_eq, Hra. cbv beta iota.
  rewrite ring_get_eq, Hra. cbv beta iota. rewrite Hrp', Hrn'.
  assert (Hpa : exists x, node sa (RingStruct.prev r) = Some x /\
                  RingStruct.prev x = (if decide (RingStruct.prev r = RingStruct.next r)
                                       then RingStruct.prev r else RingStruct.prev rp)).
  { unfold sa. rewrite node_put_node. case_decide.
    - rewrite Hn. simpl. eauto.
    - rewrite Hp. eauto. }
  destruct Hpa as (x & Hpa & Hxp).
  rewrite ring_store_eq, Hpa. cbv beta iota.
  set (sb := put_node (RingStruct.prev r) (RingStruct.set_next (RingStruct.next r) x) sa).
  assert (Hrb : is_Some (node sb old)).
  { unfold sb. apply node_put_node_is_Some. by rewrite Hra. }
  destruct Hrb as [rb Hrb]. rewrite ring_store_eq, Hrb. cbv beta iota.
  rewrite ring_store_eq, (node_put_same _ _ _ _ Hrb).
  eexists. split; [done|]. split.
  { by erewrite node_put_same by (by eapply node_put_same). }
  split.
  - intros z Hz. unfold next_of. rewrite !node_put_other by done.
    unfold sb. rewrite node_put_node.
    destruct (decide (z = RingStruct.prev r)) as [->|Hzp].
    + by rewrite Hpa.
    + unfold sa. rewrite node_put_node.
      destruct (decide (z = RingStruct.next r)) as [->|Hzn]; [|done].
      by rewrite Hn.
  - intros z Hz. unfold prev_of. rewrite !node_put_other by done.
    unfold sb. rewrite node_put_node.
    destruct (decide (z = RingStruct.prev r)) as [->|Hzp].
    + rewrite Hpa. simpl. rewrite Hxp.
      destruct (decide (RingStruct.prev r = RingStruct.next r)); [done|]. by rewrite Hp.
    + unfold sa. rewrite node_put_node.
      destruct (decide (z = RingStruct.next r)) as [->|Hzn]; [|done].
      by rewrite Hn.
Qed.

Lemma path_remove s s' old n p :
  (forall z, z <> old ->
     next_of s' z = if decide (z = p) then Some n else next_of s z) ->
  (forall z, z <> old ->
     prev_of s' z = if decide (z = n) then Some p else prev_of s z) ->
  next_of s old = Some n -> prev_of s old = Some p ->
  next_of s p = Some old -> prev_of s n = Some old ->
  forall l x, path s x l ->
    path s' (if decide (x = old) then p else x) (filter (fun r => r <> old) l).
Proof.
  intros Lnext Lprev Hon Hop Hpn Hnp.
  induction l as [|y l' IH]; intros x Hpath; [done|].
  destruct Hpath as (Hxy & Hyx & Hrest).
  specialize (IH y Hrest).
  destruct (decide (y = old)) as [->|Hy].
  - rewrite filter_cons_False by (intros H; by apply H).
    destruct (decide (x = old)) as [->|Hx]; [done|].
    rewrite Hop in Hyx. by injection Hyx as <-.
  - rewrite filter_cons_True by done.
    destruct (decide (x = old)) as [->|Hx].
    + rewrite Hon in Hxy. injection Hxy as ->.
      assert (Hp : p <> old).
      { intros ->. rewrite Hon in Hpn. by injection Hpn. }
      split; [|split; [|done]].
      * rewrite Lnext by done. by rewrite decide_True.
      * rewrite Lprev by done. by rewrite decide_True.
    + split; [|split; [|done]].
      * rewrite Lnext by done. rewrite decide_False; [done|].
        intros ->. rewrite Hpn in Hxy. by injection Hxy.
      * rewrite Lprev by done. rewrite decide_False; [done|].
        intros ->. rewrite Hnp in Hyx. by injection Hyx.
Qed.

Lemma fcore_arenaRing_eq x y :
  fcore x = fcore y -> FormatStruct.arenaRing x = FormatStruct.arenaRing y -> x = y.
Proof. destruct x, y. unfold fcore. simpl. intros [=] ?. by subst. Qed.

(** What a destruction of a valid descriptor does to the store. *)
Lemma FormatDestroy_runs format s :
  FormatCheck format s = Done CheckPass s ->
  exists fs a s1 s',
    fmt s format = Some fs /\ arn s (FormatStruct.arena fs) = Some a /\
    ring_consistent s (FormatArenaRing format) = Some true /\
    RingRemove (FormatArenaRing format) s = Done tt s1 /\
    FormatDestroy format s = Done tt s' /\
    fmt s' format =
      Some (FormatStruct.set_arenaRing (RingStruct.Build RingNONE RingNONE)
              (FormatStruct.set_sig SigInvalid fs)) /\
    (forall f, f <> format -> fmt s' f = fmt s1 f) /\
    (forall b, arn s' b =
       if decide (b = FormatStruct.arena fs)
       then (fun x => ArenaStruct.set_controlPool (format :: ArenaStruct.controlPool x) x)
              <$> arn s1 b
       else arn s1 b) /\
    words s' = words s /\ streams s' = streams s.
Proof.
  intros Hc. pose proof Hc as Hall.
  rewrite FormatCheck_validate_spec in Hall.
  pose proof (proj1 (first_failure_pass _ _ _) Hall) as Hh.
  assert (Hsig := Hh CheckSig ltac:(unfold check_order; set_solver)).
  assert (Har := Hh CheckArena ltac:(unfold check_order; set_solver)).
  assert (Hring := Hh CheckRing ltac:(unfold check_order; set_solver)).
  unfold holds in Hsig, Har, Hring.
  destruct (decide (format = NULL)) as [|Hnn]; [done|].
  destruct (fmt s format) as [fs|] eqn:Hfs; [|done]. simpl in Har.
  destruct (decide (FormatStruct.arena fs = NULL)) as [|Han]; [done|].
  destruct (arn s (FormatStruct.arena fs)) as [a|] eqn:Ha; [|done].
  destruct (ring_consistent_elim _ _ Hring) as (r & rn & rp & Hr & Hn & Hnp & Hp & Hpn).
  destruct (RingRemove_eq _ _ _ _ _ Hr Hn Hnp Hp Hpn) as (s1 & Hrem & Hold1 & _ & _).
  pose proof (RingRemove_same_core _ _ _ _ Hrem) as Hcore.
  destruct (same_core_fmt _ _ _ _ Hcore Hfs) as (fs1 & Hfs1 & Hfc1).
  destruct (same_core_arn _ _ _ _ Hcore Ha) as (a1 & Ha1 & Hac1).
  destruct Hcore as (_ & _ & Hw1 & Hst1).
  assert (Hm1 : fmt s1 format <> None) by congruence.
  exists fs, a, s1. eexists.
  split; [done|]. split; [done|]. split; [done|]. split; [done|].
  split.
  { unfold FormatDestroy. unfold bind at 1.
    rewrite (proj2 (AVERT_Format_Done format s tt s) (conj Hc eq_refl)).
    unfold bind at 1. rewrite Hrem.
    unfold bind at 1. rewrite (format_store_first _ _ _ _ Hfs1).
    unfold RingFinish, ring_store. unfold bind.
    repeat (rewrite format_store_put by assumption; cbv beta iota).
    rewrite format_get_eq, fmt_put_fmt, decide_True by done. cbv beta iota.
    unfold ArenaFree. rewrite arena_store_eq, arn_put_fmt.
    replace (FormatStruct.arena _) with (FormatStruct.arena fs).
    2:{ destruct fs, fs1. unfold fcore in Hfc1. simpl in *. by simplify_eq. }
    rewrite Ha1. reflexivity. }
  split.
  { rewrite fmt_put_arn, fmt_put_fmt, decide_True by done. f_equal.
    apply fcore_arenaRing_eq; [|done].
    destruct fs, fs1. unfold fcore in *. simpl in *. by simplify_eq. }
  split.
  { intros f Hne. by rewrite fmt_put_arn, fmt_put_fmt, decide_False by done. }
  split.
  { intros b. rewrite arn_put_arn by (rewrite arn_put_fmt; congruence).
    rewrite arn_put_fmt. case_decide as Hb; [|done]. subst b. by rewrite Ha1. }
  split; [by rewrite <- Hw1|by rewrite <- Hst1].
Qed.

Lemma path_unique s head :
  forall l1 l2 x,
    path s x (l1 ++ [head]) -> path s x (l2 ++ [head]) ->
    head ∉ l1 -> head ∉ l2 -> l1 = l2.
Proof.
  induction l1 as [|y1 l1 IH]; intros [|y2 l2] x H1 H2 Hn1 Hn2; simpl in *.
  - done.
  - destruct H1 as (H1 & _), H2 as (H2 & _). rewrite H1 in H2. injection H2 as <-.
    exfalso. apply Hn2. by left.
  - destruct H1 as (H1 & _), H2 as (H2 & _). rewrite H1 in H2. injection H2 as ->.
    exfalso. apply Hn1. by left.
  - destruct H1 as (H1 & _ & P1), H2 as (H2 & _ & P2).
    rewrite H1 in H2. injection H2 as <-. f_equal.
    apply (IH l2 y1); [done|done| |].
    + intros Hin. apply Hn1. by right.
    + intros Hin. apply Hn2. by right.
Qed.

(** The members of a ring are determined by the store. *)
Lemma ring_members_unique s head l1 l2 :
  ring_members s head l1 -> ring_members s head l2 -> l1 = l2.
Proof.
  intros [Hnd1 Hp1] [Hnd2 Hp2].
  apply NoDup_cons in Hnd1 as [Hn1 _]. apply NoDup_cons in Hnd2 as [Hn2 _].
  by eapply path_unique.
Qed.

Lemma ring_members_remove s s' old n p head l :
  (forall z, z <> old ->
     next_of s' z = if decide (z = p) then Some n else next_of s z) ->
  (forall z, z <> old ->
     prev_of s' z = if decide (z = n) then Some p else prev_of s z) ->
  next_of s old = Some n -> prev_of s old = Some p ->
  next_of s p = Some old -> prev_of s n = Some old ->
  head <> old ->
  ring_members s head l ->
  ring_members s' head (filter (fun r => r <> old) l).
Proof.
  intros Lnext Lprev Hon Hop Hpn Hnp Hhead [Hnd Hpath]. split.
  - apply NoDup_cons in Hnd as [Hin Hnd]. apply NoDup_cons. split.
    + rewrite list_elem_of_filter. by intros [? ?].
    + by apply NoDup_filter.
  - pose proof (path_remove s s' old n p Lnext Lprev Hon Hop Hpn Hnp _ _ Hpath) as H.
    rewrite decide_False in H by done.
    rewrite filter_app in H.
    by rewrite (filter_cons_True _ head []) in H.
Qed.

Lemma FormatDestroy_Done_valid format s u s' :
  FormatDestroy format s = Done u s' -> FormatCheck format s = Done CheckPass s.
Proof.
  unfold FormatDestroy. intros H. inv_bind H.
  match goal with H : AVERT_Format _ _ = _ |- _ => by apply AVERT_Format_Done in H as [? _] end.
Qed.

(** A destruction writes, in the descriptors, the signature and the ring
    links of the destroyed one and ring links of its neighbours; in the
    arenas, ring links and the pool. *)
Lemma FormatDestroy_frame format s u s' :
  FormatDestroy format s = Done u s' ->
  (forall f, f <> format -> fcore <$> fmt s' f = fcore <$> fmt s f) /\
  (exists fs, fmt s format = Some fs /\
     fcore <$> fmt s' format = Some (fcore (FormatStruct.set_sig SigInvalid fs))) /\
  (forall b, ArenaStruct.formatSerial <$> arn s' b = ArenaStruct.formatSerial <$> arn s b) /\
  words s' = words s /\ streams s' = streams s.
Proof.
  intros H. pose proof (FormatDestroy_Done_valid _ _ _ _ H) as Hc.
  destruct (FormatDestroy_runs format s Hc)
    as (fs & a & s1 & s'' & Hfs & Ha & Hring & Hrem & Hrun & Hfs' & Hfo & Hao & Hw & Hst).
  destruct u. rewrite H in Hrun. injection Hrun as <-.
  pose proof (RingRemove_same_core _ _ _ _ Hrem) as (Fc & Ac & _ & _).
  split.
  { intros f Hne. by rewrite Hfo, Fc. }
  split.
  { exists fs. split; [done|]. by rewrite Hfs'. }
  split; [|done].
  intros b. rewrite Hao. specialize (Ac b).
  assert (Hser : ArenaStruct.formatSerial <$> arn s1 b = ArenaStruct.formatSerial <$> arn s b).
  { destruct (arn s1 b) as [x1|], (arn s b) as [x|]; simpl in *; try done.
    destruct x1, x. unfold acore in Ac. simpl in Ac. by simplify_eq. }
  rewrite <- Hser. case_decide; [|done]. by destruct (arn s1 b).
Qed.

Lemma fcore_arena (x y : option FormatStruct.t) :
  fcore <$> x = fcore <$> y -> FormatStruct.arena <$> x = FormatStruct.arena <$> y.
Proof.
  destruct x as [x|], y as [y|]; simpl; try done.
  destruct x, y. unfold fcore. simpl. intros [=]. by subst.
Qed.

Lemma FormatDestroy_arena_frame format s u s' :
  FormatDestroy format s = Done u s' ->
  forall f, FormatStruct.arena <$> fmt s' f = FormatStruct.arena <$> fmt s f.
Proof.
  intros H f. destruct (FormatDestroy_frame _ _ _ _ H) as (Fo & (fs & Hfs & Hf) & _).
  destruct (decide (f = format)) as [->|Hne].
  - rewrite Hfs. destruct (fmt s' format) as [fs'|]; [|done].
    apply (inj Some) in Hf. simpl. f_equal.
    destruct fs, fs'. unfold fcore in Hf. simpl in Hf. by simplify_eq.
  - apply fcore_arena. by apply Fo.
Qed.

Lemma FormatCreate_arena_frame formatReturn arena alignment variety
    scan skip move isMoved copy pad class s res s' :
  FormatCreate formatReturn arena alignment variety scan skip move isMoved copy pad class s
    = Done res s' ->
  forall f, (res = ResOK -> words s' !! formatReturn <> Some f) ->
    FormatStruct.arena <$> fmt s' f = FormatStruct.arena <$> fmt s f.
Proof.
  intros H f Hf. destruct (decide (res = ResOK)) as [->|Hres].
  - apply FormatCreate_ok in H
      as (p & a & rest & fs & a' & _ & _ & _ & _ & Hw & _ & _ & _ & _ & Fo & _).
    apply fcore_arena, Fo. intros ->. by apply Hf.
  - apply FormatCreate_Done_inv in H as (_ & a & _ & [(_ & _ & ->)|H]); [done|].
    by destruct H as (? & ? & ? & _ & _ & ? & _).
Qed.

Lemma FormatArena_eq format s :
  FormatArena format s =
  match fmt s format with Some fs => Done (FormatStruct.arena fs) s | None => Fault end.
Proof. apply format_get_eq. Qed.

Lemma WriteF_frame stream items s r s' :
  WriteF stream items s = Done r s' ->
  formats s' = formats s /\ arenas s' = arenas s /\ words s' = words s /\
  exists st, streams s !! stream = Some st /\
    r = (WriteF_items items st).1 /\
    streams s' = <[stream := (WriteF_items items st).2]> (streams s).
Proof.
  unfold WriteF. destruct (decide (stream = NULL)); [done|].
  destruct (streams s !! stream) as [st|]; [|done].
  intros [= <- <-]. repeat split. by exists st.
Qed.

Lemma FormatDescribe_frame format stream s r s' :
  FormatDescribe format stream s = Done r s' ->
  formats s' = formats s /\ arenas s' = arenas s /\ words s' = words s.
Proof.
  unfold FormatDescribe. intros H. inv_bind H.
  match goal with H : format_load _ _ = _ |- _ =>
    rewrite format_load_eq in H; destruct (fmt s format); [|done]; injection H as <- <- end.
  inv_bind H.
  match goal with H : arena_get _ _ _ = _ |- _ =>
    rewrite arena_get_eq in H; destruct (arn s _); [|done]; injection H as <- <- end.
  inv_bind H.
  match goal with H : WriteF _ _ _ = _ |- _ =>
    apply WriteF_frame in H as (F & A & W & _) end.
  case_decide; injection H as <- <-; done.
Qed.

(** ** Description *)

Lemma FormatDescribe_eq format stream s :
  FormatDescribe format stream s =
  match fmt s format with
  | None => Fault
  | Some fs =>
      match arn s (FormatStruct.arena fs) with
      | None => Fault
      | Some a =>
          WriteF stream (describe_items format fs (ArenaStruct.serial a)) s
      end
  end.
Proof.
  unfold FormatDescribe, bind. rewrite format_load_eq.
  destruct (fmt s format) as [fs|]; [|done].
  rewrite arena_get_eq. destruct (arn s (FormatStruct.arena fs)) as [a|]; [|done].
  fold (describe_items format fs (ArenaStruct.serial a)).
  destruct (WriteF stream _ s) as [r s'| |]; [|done..].
  case_decide; [done|]. destruct (decide (r = ResOK)) as [->|]; [done|]. by destruct r.
Qed.

Lemma WriteF_items_spec items st :
  (length items <= StreamStruct.room st)%nat /\
    WriteF_items items st =
      (ResOK, StreamStruct.Build (StreamStruct.written st ++ items)
                (StreamStruct.room st - length items)) \/
  (StreamStruct.room st < length items)%nat /\
    WriteF_items items st =
      (ResIO, StreamStruct.Build (StreamStruct.written st ++ take (StreamStruct.room st) items)
                0).
Proof.
  revert st. induction items as [|item items IH]; intros [w r]; simpl.
  - left. split; [lia|]. rewrite app_nil_r. do 2 f_equal. lia.
  - destruct r as [|r]; simpl.
    + right. split; [lia|]. by rewrite app_nil_r.
    + destruct (IH (StreamStruct.Build (w ++ [item]) r)) as [[Hlen ->]|[Hlen ->]]; simpl in *.
      * left. split; [lia|]. by rewrite <- app_assoc.
      * right. split; [lia|]. by rewrite <- app_assoc.
Qed.

(** C10, as the code has it.  [FormatDescribe] hands [WriteF] the
    descriptor's address and serial, its arena's address and serial, the
    alignment and the six methods scan, skip, move, isMoved, copy and pad
    (the class method and the variety are not among the pieces); it stores
    to no descriptor, arena or client word; its result is the writer's, a
    failure exactly when the sink's write fails, and on success the sink
    has received all the pieces in order. *)
Theorem FormatDescribe_renders (format stream : Addr) (s : State)
    (fs : FormatStruct.t) (a : ArenaStruct.t) (st : StreamStruct.t) :
  fmt s format = Some fs ->
  arn s (FormatStruct.arena fs) = Some a ->
  stream <> NULL -> streams s !! stream = Some st ->
  let items :=
    [ ("Format $P ($U) {\n", [WriteFP format; WriteFU (FormatStruct.serial fs)]);
      ("  arena $P ($U)\n", [WriteFP (FormatStruct.arena fs); WriteFU (ArenaStruct.serial a)]);
      ("  alignment $W\n", [WriteFW (FormatStruct.alignment fs)]);
      ("  scan $F\n", [WriteFF (FormatStruct.scan fs)]);
      ("  skip $F\n", [WriteFF (FormatStruct.skip fs)]);
      ("  move $F\n", [WriteFF (FormatStruct.move fs)]);
      ("  isMoved $F\n", [WriteFF (FormatStruct.isMoved fs)]);
      ("  copy $F\n", [WriteFF (FormatStruct.copy fs)]);
      ("  pad $F\n", [WriteFF (FormatStruct.pad fs)]);
      ("} Format $P ($U)\n", [WriteFP format; WriteFU (FormatStruct.serial fs)]) ] in
  exists res st',
    FormatDescribe format stream s
      = Done res (with_streams (<[stream := st']> (streams s)) s) /\
    WriteF stream items s
      = Done res (with_streams (<[stream := st']> (streams s)) s) /\
    (res = ResOK <-> (length items <= StreamStruct.room st)%nat) /\
    (res <> ResOK <-> res = ResIO) /\
    (res = ResOK -> StreamStruct.written st' = StreamStruct.written st ++ items).
Proof.
  intros Hfs Ha Hstream Hst items.
  rewrite FormatDescribe_eq, Hfs, Ha.
  change (describe_items format fs (ArenaStruct.serial a)) with items.
  unfold WriteF. rewrite decide_False by done. rewrite Hst.
  exists (WriteF_items items st).1, (WriteF_items items st).2.
  split; [done|]. split; [done|].
  destruct (WriteF_items_spec items st) as [[Hlen ->]|[Hlen ->]];
    unfold items in *; simpl in *.
  - split; [done|]. split; [|done]. split; done.
  - split; [split; [done|lia]|]. split; [done|]. done.
Qed.

(** One step: counters never decrease, and an issued serial is the counter
    before the step, which the step raises by one. *)
Lemma word_load_eq p s :
  word_load p s =
  if decide (p = NULL) then Fault
  else match words s !! p with Some w => Done w s | None => Fault end.
Proof. reflexivity. Qed.

Lemma client_step_counter op s l s' :
  client_step op s = Done l s' ->
  (forall arena c, counter s arena = Some c ->
     exists c', counter s' arena = Some c' /\ c <= c') /\
  (forall i, i ∈ l ->
     l = [i] /\ counter s (issued_arena i) = Some (issued_serial i) /\
     counter s' (issued_arena i) = Some (issued_serial i + 1)).
Proof.
  destruct op as [formatReturn arena alignment variety scan skip move isMoved copy pad class
                 |format]; simpl; intros H.
  - apply bind_Done in H as (res & s1 & Hcreate & H).
    destruct (decide (res = ResOK)) as [->|Hres].
    + apply bind_Done in H as (format & s2 & Hload & H).
      apply bind_Done in H as (n & s3 & Hget & H).
      injection H as <- <-.
      apply FormatCreate_ok in Hcreate
        as (p & ar & rest & fs & ar' & Hfr & Har & _ & _ & Hw & Hfs & Hfc & Har' & Hac & _ & Ao & _).
      rewrite word_load_eq, decide_False, Hw in Hload by done. injection Hload as <- <-.
      rewrite format_get_eq, Hfs in Hget. injection Hget as <- <-.
      assert (Hser : FormatStruct.serial fs = ArenaStruct.formatSerial ar).
      { destruct fs. unfold fcore in Hfc. simpl in Hfc. by simplify_eq. }
      assert (Hctr : ArenaStruct.formatSerial ar' = ArenaStruct.formatSerial ar + 1).
      { destruct ar'. unfold acore in Hac. simpl in Hac. by simplify_eq. }
      split.
      * intros b c Hc. unfold counter in *.
        destruct (decide (b = arena)) as [->|Hne].
        -- rewrite Har in Hc. rewrite Har'. simpl in *. injection Hc as <-.
           eexists. split; [done|]. lia.
        -- specialize (Ao b Hne).
           destruct (arn s b) as [x|]; [|done].
           destruct (arn s1 b) as [x'|]; [|done]. simpl in *.
           injection Hc as <-. exists (ArenaStruct.formatSerial x'). split; [done|].
           apply (inj Some) in Ao. destruct x, x'. unfold acore in Ao. simpl in *.
           simplify_eq. lia.
      * intros i ->%list_elem_of_singleton. simpl. unfold counter.
        rewrite Har, Har'. simpl. by rewrite Hser, Hctr.
    + injection H as <- <-.
      apply FormatCreate_Done_inv in Hcreate as (_ & ar & _ & [(_ & _ & ->)|Hok]).
      * split; [eauto|]. intros i Hi. by apply elem_of_nil in Hi.
      * by destruct Hok as (? & ? & ? & _ & _ & ? & _).
  - apply bind_Done in H as (u & s1 & Hdestroy & H). injection H as <- <-.
    apply FormatDestroy_frame in Hdestroy as (_ & _ & Hc & _).
    split.
    + intros arena c Hctr. unfold counter in *. rewrite Hc, Hctr. eauto.
    + intros i Hi. by apply elem_of_nil in Hi.
Qed.

Lemma client_run_counter ops s log s' :
  client_run ops s = Done log s' ->
  forall arena c, counter s arena = Some c ->
    exists c', counter s' arena = Some c' /\ c <= c'.
Proof.
  revert s log s'. induction ops as [|op ops IH]; simpl; intros s log s' H arena c Hc.
  - injection H as <- <-. eauto.
  - apply bind_Done in H as (l1 & s1 & Hstep & H).
    apply bind_Done in H as (l2 & s2 & Hrun & H). injection H as <- <-.
    apply client_step_counter in Hstep as [Hmono _].
    destruct (Hmono arena c Hc) as (c1 & Hc1 & Hle1).
    destruct (IH _ _ _ Hrun arena c1 Hc1) as (c' & Hc' & Hle').
    exists c'. split; [done|]. lia.
Qed.

(** Every serial issued in a run is at least the counter at its start and
    below the counter at its end. *)
Lemma client_run_bounds ops s log s' :
  client_run ops s = Done log s' ->
  forall i, i ∈ log ->
    (forall c, counter s (issued_arena i) = Some c -> c <= issued_serial i) /\
    (exists c', counter s' (issued_arena i) = Some c' /\ issued_serial i < c').
Proof.
  revert s log s'. induction ops as [|op ops IH]; simpl; intros s log s' H i Hi.
  - injection H as <- <-. by apply elem_of_nil in Hi.
  - apply bind_Done in H as (l1 & s1 & Hstep & H).
    apply bind_Done in H as (l2 & s2 & Hrun & H). injection H as <- <-.
    pose proof (client_step_counter _ _ _ _ Hstep) as [Hmono Hissue].
    apply elem_of_app in Hi as [Hi|Hi].
    + destruct (Hissue i Hi) as (_ & Hc & Hc1). split.
      * intros c Hc0. rewrite Hc in Hc0. injection Hc0 as <-. lia.
      * destruct (client_run_counter _ _ _ _ Hrun _ _ Hc1) as (c' & Hc' & Hle).
        exists c'. split; [done|]. lia.
    + destruct (IH _ _ _ Hrun i Hi) as [Hlow Hup]. split; [|done].
      intros c Hc. destruct (Hmono _ _ Hc) as (c1 & Hc1 & Hle).
      specialize (Hlow c1 Hc1). lia.
Qed.

Lemma serials_in_app arena l1 l2 :
  serials_in arena (l1 ++ l2) = serials_in arena l1 ++ serials_in arena l2.
Proof. unfold serials_in. by rewrite filter_app, fmap_app. Qed.

Lemma elem_of_serials_in arena log n :
  n ∈ serials_in arena log <->
  exists i, i ∈ log /\ issued_arena i = arena /\ issued_serial i = n.
Proof.
  unfold serials_in. rewrite list_elem_of_fmap. split.
  - intros (i & -> & Hi). apply list_elem_of_filter in Hi as [? ?]. eauto.
  - intros (i & Hi & Ha & <-). exists i. split; [done|]. by apply list_elem_of_filter.
Qed.

Lemma client_run_sorted ops s log s' :
  client_run ops s = Done log s' ->
  forall arena, StronglySorted N.lt (serials_in arena log).
Proof.
  revert s log s'. induction ops as [|op ops IH]; simpl; intros s log s' H arena.
  - injection H as <- <-. constructor.
  - apply bind_Done in H as (l1 & s1 & Hstep & H).
    apply bind_Done in H as (l2 & s2 & Hrun & H). injection H as <- <-.
    rewrite serials_in_app. specialize (IH _ _ _ Hrun arena).
    pose proof (client_step_counter _ _ _ _ Hstep) as [_ Hissue].
    destruct l1 as [|i l1]; [done|].
    destruct (Hissue i ltac:(by left)) as (Hl & Hc & Hc1).
    injection Hl as ->.
    unfold serials_in at 1. destruct (decide (issued_arena i = arena)) as [Ha|Ha].
    + rewrite filter_cons_True by done. simpl. constructor; [done|].
      apply Forall_forall. intros n Hn.
      apply elem_of_serials_in in Hn as (j & Hj & Hja & <-).
      destruct (client_run_bounds _ _ _ _ Hrun j Hj) as [Hlow _].
      rewrite Hja, <- Ha in Hlow. specialize (Hlow _ Hc1). lia.
    + by rewrite filter_cons_False.
Qed.

Lemma StronglySorted_lt_NoDup (l : list N) : StronglySorted N.lt l -> NoDup l.
Proof.
  induction 1 as [|x l Hs IH Hall]; constructor; [|done].
  intros Hin. rewrite Forall_forall in Hall. specialize (Hall x Hin). lia.
Qed.

(** One step leaves a descriptor as it is, ring links apart, unless it
    destroys it or constructs at its block. *)
Lemma client_step_fcore_frame op s l s' f :
  client_step op s = Done l s' ->
  op <> OpDestroy f ->
  (forall i, i ∈ l -> issued_format i <> f) ->
  fcore <$> fmt s' f = fcore <$> fmt s f.
Proof.
  destruct op as [formatReturn arena alignment variety scan skip move isMoved copy pad class
                 |g]; simpl; intros H Hop Hl.
  - apply bind_Done in H as (res & s1 & Hcreate & H).
    destruct (decide (res = ResOK)) as [->|Hres].
    + apply bind_Done in H as (format & s2 & Hload & H).
      apply bind_Done in H as (n & s3 & Hget & H).
      injection H as <- <-.
      apply FormatCreate_ok in Hcreate
        as (p & ar & rest & fs & ar' & Hfr & _ & _ & _ & Hw & Hfs & _ & _ & _ & Fo & _).
      rewrite word_load_eq, decide_False, Hw in Hload by done. injection Hload as <- <-.
      rewrite format_get_eq, Hfs in Hget. injection Hget as <- <-.
      apply Fo. intros ->.
      by apply (Hl (mkIssued arena p (FormatStruct.serial fs))); [left|].
    + injection H as <- <-.
      apply FormatCreate_Done_inv in Hcreate as (_ & ar & _ & [(_ & _ & ->)|Hok]); [done|].
      by destruct Hok as (? & ? & ? & _ & _ & ? & _).
  - apply bind_Done in H as (u & s1 & Hdestroy & H). injection H as <- <-.
    apply FormatDestroy_frame in Hdestroy as (Fo & _).
    apply Fo. intros ->. by apply Hop.
Qed.

(** A descriptor that a run neither destroys nor constructs keeps its
    fields, serial and arena among them. *)
Lemma client_run_fcore_frame ops s log s' f :
  client_run ops s = Done log s' ->
  OpDestroy f ∉ ops ->
  (forall i, i ∈ log -> issued_format i <> f) ->
  fcore <$> fmt s' f = fcore <$> fmt s f.
Proof.
  revert s log s'. induction ops as [|op ops IH]; simpl; intros s log s' H Hops Hlog.
  - by injection H as <- <-.
  - apply bind_Done in H as (l1 & s1 & Hstep & H).
    apply bind_Done in H as (l2 & s2 & Hrun & H). injection H as <- <-.
    rewrite (IH _ _ _ Hrun).
    + eapply client_step_fcore_frame; [done| |].
      * intros ->. apply Hops. by left.
      * intros i Hi. apply Hlog, elem_of_app. by left.
    + intros Hin. apply Hops. by right.
    + intros i Hi. apply Hlog, elem_of_app. by right.
Qed.

(** A destroyed descriptor stays destroyed over any run that does not
    construct at its block: the run cannot destroy it again, and nothing
    else stores to its signature. *)
Lemma client_run_destroyed_stays ops s log s' f fs :
  client_run ops s = Done log s' ->
  (forall i, i ∈ log -> issued_format i <> f) ->
  fmt s f = Some fs -> FormatStruct.sig fs <> FormatSig ->
  FormatCheck f s' = Done (CheckFail CheckSig) s'.
Proof.
  revert s log s' fs. induction ops as [|op ops IH]; simpl; intros s log s' fs H Hlog Hfs Hsig.
  - injection H as <- <-.
    rewrite FormatCheck_validate_spec. unfold validate_spec, check_order, first_failure.
    unfold holds. rewrite decide_False by (intros ->; done). rewrite Hfs. simpl.
    by rewrite bool_decide_eq_false_2.
  - apply bind_Done in H as (l1 & s1 & Hstep & H).
    apply bind_Done in H as (l2 & s2 & Hrun & H). injection H as <- <-.
    assert (Hop : op <> OpDestroy f).
    { intros ->. simpl in Hstep.
      apply bind_Done in Hstep as (u & s0 & Hdestroy & _).
      apply FormatDestroy_Done_valid in Hdestroy.
      rewrite FormatCheck_validate_spec in Hdestroy.
      pose proof (proj1 (first_failure_pass _ _ _) Hdestroy CheckSig
                    ltac:(unfold check_order; set_solver)) as Hs.
      unfold holds in Hs. destruct (decide (f = NULL)); [done|].
      rewrite Hfs in Hs. simpl in Hs. injection Hs as Hs.
      by apply bool_decide_eq_true_1 in Hs. }
    pose proof (client_step_fcore_frame _ _ _ _ f Hstep Hop
                  ltac:(intros i Hi; apply Hlog, elem_of_app; by left)) as Hfr.
    rewrite Hfs in Hfr. destruct (fmt s1 f) as [fs1|] eqn:Hfs1; [|done].
    apply (inj Some) in Hfr.
    eapply (IH _ _ _ fs1 Hrun); [|done|].
    + intros i Hi. apply Hlog, elem_of_app. by right.
    + destruct fs, fs1. unfold fcore in Hfr. simpl in *. by simplify_eq.
Qed.

(** C9.  Over any sequence of constructions and destructions that runs to
    its end, from any store: the serials issued in one arena are strictly
    increasing in the order of construction, so no two are equal; every
    serial issued is below the current counter of its arena; a descriptor
    that passes validation has its serial below the counter of its arena;
    and a descriptor that the run neither destroys nor constructs (a live
    one) keeps the serial and the arena it has. *)
Theorem serials_strictly_increasing (ops : list Op) (s s' : State) (log : list Issued) :
  client_run ops s = Done log s' ->
  (forall arena, StronglySorted N.lt (serials_in arena log)) /\
  (forall arena, NoDup (serials_in arena log)) /\
  (forall i, i ∈ log ->
     exists c, counter s' (issued_arena i) = Some c /\ issued_serial i < c) /\
  (forall format, FormatCheck format s' = Done CheckPass s' ->
     exists fs c, fmt s' format = Some fs /\
       counter s' (FormatStruct.arena fs) = Some c /\ FormatStruct.serial fs < c) /\
  (forall format,
     OpDestroy format ∉ ops -> (forall i, i ∈ log -> issued_format i <> format) ->
     FormatStruct.serial <$> fmt s' format = FormatStruct.serial <$> fmt s format /\
     FormatStruct.arena <$> fmt s' format = FormatStruct.arena <$> fmt s format).
Proof.
  intros H.
  split; [by eapply client_run_sorted|].
  split; [intros arena; eapply StronglySorted_lt_NoDup; by eapply client_run_sorted|].
  split; [intros i Hi; by destruct (client_run_bounds _ _ _ _ H i Hi)|].
  split; cycle 1.
  { intros format Hops Hlog.
    pose proof (client_run_fcore_frame _ _ _ _ format H Hops Hlog) as Hfr.
    destruct (fmt s' format) as [x|], (fmt s format) as [y|]; simpl in *; try done.
    apply (inj Some) in Hfr. destruct x, y. unfold fcore in Hfr. simpl in *.
    by simplify_eq. }
  intros format Hc. rewrite FormatCheck_validate_spec in Hc.
  pose proof (proj1 (first_failure_pass _ _ _) Hc CheckSerial
                ltac:(unfold check_order; set_solver)) as Hs.
  unfold holds in Hs.
  destruct (fmt s' format) as [fs|]; [|done]. simpl in Hs.
  unfold counter.
  destruct (arn s' (FormatStruct.arena fs)) as [a|] eqn:Ha; [|done]. simpl in Hs.
  injection Hs as Hs. apply N.ltb_lt in Hs.
  exists fs, (ArenaStruct.formatSerial a). by rewrite Ha.
Qed.

(** C7.  A descriptor that passes [FormatCheck] can be destroyed, and in
    the store the destruction leaves: validation of the handle fails at the
    signature check (the signature is [SigInvalid]), and goes on failing
    over any later run of constructions and destructions that does not
    construct at the same block; every arena's ring of formats is still a
    ring and the descriptor's node is not among its members; the block is
    back at the front of its arena's pool; client memory and the sinks are
    untouched (no method of the descriptor is called: destruction only
    stores to the descriptor, its ring neighbours and the pool). *)
Theorem FormatDestroy_retires (format : Addr) (s : State) :
  FormatCheck format s = Done CheckPass s ->
  exists s' fs fs' a a',
    FormatDestroy format s = Done tt s' /\
    FormatCheck format s' = Done (CheckFail CheckSig) s' /\
    fmt s format = Some fs /\ fmt s' format = Some fs' /\
    FormatStruct.sig fs' = SigInvalid /\ SigInvalid <> FormatSig /\
    arn s (FormatStruct.arena fs) = Some a /\
    arn s' (FormatStruct.arena fs) = Some a' /\
    ArenaStruct.controlPool a' = format :: ArenaStruct.controlPool a /\
    (forall b l,
       ring_members s (ArenaFormatRing b) l ->
       ring_members s' (ArenaFormatRing b)
         (filter (fun r => r <> FormatArenaRing format) l) /\
       forall l', ring_members s' (ArenaFormatRing b) l' ->
                  FormatArenaRing format ∉ l') /\
    words s' = words s /\ streams s' = streams s /\
    (forall ops log s'',
       client_run ops s' = Done log s'' ->
       (forall i, i ∈ log -> issued_format i <> format) ->
       FormatCheck format s'' = Done (CheckFail CheckSig) s'').
Proof.
  intros Hc.
  destruct (FormatDestroy_runs format s Hc)
    as (fs & a & s1 & s' & Hfs & Ha & Hring & Hrem & Hrun & Hfs' & Hfo & Hao & Hw & Hst).
  destruct (ring_consistent_elim _ _ Hring) as (r & rn & rp & Hr & Hn & Hnp & Hp & Hpn).
  destruct (RingRemove_eq _ _ _ _ _ Hr Hn Hnp Hp Hpn) as (s1' & Hrem' & Hold1 & Lnext & Lprev).
  rewrite Hrem in Hrem'. injection Hrem' as <-.
  pose proof (RingRemove_same_core _ _ _ _ Hrem) as Hcore.
  destruct (same_core_arn _ _ _ _ Hcore Ha) as (a1 & Ha1 & Hac1).
  assert (Hnn : format <> NULL).
  { intros ->. done. }
  assert (Hnode : forall z, z <> FormatArenaRing format -> node s' z = node s1 z).
  { intros [|f|b] Hz; simpl; [done| |].
    - rewrite Hfo; [done|]. intros ->. by apply Hz.
    - rewrite Hao. case_decide; [|done]. by destruct (arn s1 b). }
  exists s'. eexists fs, _, a, _.
  split; [done|]. split.
  { rewrite FormatCheck_validate_spec. unfold validate_spec, check_order, first_failure.
    unfold holds. rewrite decide_False by done. rewrite Hfs'. done. }
  split; [done|]. split; [done|]. split; [done|]. split; [done|].
  split; [done|]. split.
  { rewrite Hao, decide_True by done. rewrite Ha1. done. }
  split.
  { simpl. destruct a, a1. unfold acore in Hac1. simpl in *. by simplify_eq. }
  split; cycle 1.
  { split; [done|]. split; [done|].
    intros ops log s'' Hlater Hlog.
    eapply client_run_destroyed_stays; [exact Hlater|exact Hlog|exact Hfs'|].
    simpl. done. }
  intros b l Hl.
  assert (Hl' : ring_members s' (ArenaFormatRing b)
                  (filter (fun r => r <> FormatArenaRing format) l)).
  { eapply (ring_members_remove s s' (FormatArenaRing format)
              (RingStruct.next r) (RingStruct.prev r)); try done.
    - intros z Hz. unfold next_of. rewrite Hnode by done. by apply Lnext.
    - intros z Hz. unfold prev_of. rewrite Hnode by done. by apply Lprev.
    - unfold next_of. by rewrite Hr.
    - unfold prev_of. by rewrite Hr.
    - unfold next_of. rewrite Hp. simpl. by rewrite Hpn.
    - unfold prev_of. rewrite Hn. simpl. by rewrite Hnp. }
  split; [done|].
  intros l' Hl2. rewrite (ring_members_unique _ _ _ _ Hl2 Hl').
  rewrite list_elem_of_filter. by intros [? ?].
Qed.

(** Over a run of the client, the arena field of a descriptor changes only
    when a construction of the run returns its block. *)
Lemma client_run_arena_frame ops s log s' format :
  client_run ops s = Done log s' ->
  (forall i, i ∈ log -> issued_format i <> format) ->
  FormatStruct.arena <$> fmt s' format = FormatStruct.arena <$> fmt s format.
Proof.
  revert s log s'. induction ops as [|op ops IH]; simpl; intros s log s' H Hlog.
  - by injection H as <- <-.
  - apply bind_Done in H as (l1 & s1 & Hstep & H).
    apply bind_Done in H as (l2 & s2 & Hrun & H). injection H as <- <-.
    rewrite (IH _ _ _ Hrun) by (intros i Hi; apply Hlog, elem_of_app; by right).
    destruct op as [formatReturn arena alignment variety scan skip move isMoved copy pad class
                   |g]; simpl in Hstep.
    + apply bind_Done in Hstep as (res & s0 & Hcreate & Hstep).
      pose proof (FormatCreate_arena_frame _ _ _ _ _ _ _ _ _ _ _ _ _ _ Hcreate format) as Hfr.
      destruct (decide (res = ResOK)) as [->|Hres].
      * apply bind_Done in Hstep as (f & s3 & Hload & Hstep).
        apply bind_Done in Hstep as (n & s4 & Hget & Hstep).
        injection Hstep as <- <-.
        rewrite word_load_eq in Hload.
        destruct (decide (formatReturn = NULL)); [done|].
        destruct (words s0 !! formatReturn) as [w|] eqn:Hw; [|done].
        injection Hload as <- <-.
        rewrite format_get_eq in Hget. destruct (fmt s0 w) as [fsw|]; [|done].
        injection Hget as <- <-.
        apply Hfr. intros _ [= ->].
        by apply (Hlog (mkIssued arena format (FormatStruct.serial fsw)));
          [apply elem_of_app; left; left|].
      * injection Hstep as <- <-. by apply Hfr.
    + apply bind_Done in Hstep as (u & s0 & Hdestroy & Hstep). injection Hstep as <- <-.
      by eapply FormatDestroy_arena_frame.
Qed.

(** C8.  [FormatArena] is a load of the arena field and nothing else: no
    check is made, so it answers for a destroyed descriptor too.  The field
    is stored by the constructor, for the descriptor it constructs; a
    destruction, a validation and a description store to no arena field, so
    over any run of constructions and destructions the field of a descriptor
    keeps its value unless a construction hands out its block again.  Hence
    after construct-then-destroy [FormatArena] returns the arena given to
    the constructor while [FormatCheck] fails on the same handle. *)
Theorem FormatArena_reads_write_once_field :
  (forall format s,
     FormatArena format s =
     match fmt s format with
     | Some fs => Done (FormatStruct.arena fs) s
     | None => Fault
     end) /\
  (forall format s s',
     FormatDestroy format s = Done tt s' ->
     forall f, FormatStruct.arena <$> fmt s' f = FormatStruct.arena <$> fmt s f) /\
  (forall format s v s',
     FormatCheck format s = Done v s' -> forall f, fmt s' f = fmt s f) /\
  (forall format stream s r s',
     FormatDescribe format stream s = Done r s' -> forall f, fmt s' f = fmt s f) /\
  (forall formatReturn arena alignment variety scan skip move isMoved copy pad class
          s res s',
     FormatCreate formatReturn arena alignment variety
       scan skip move isMoved copy pad class s = Done res s' ->
     forall f, (res = ResOK -> words s' !! formatReturn <> Some f) ->
       FormatStruct.arena <$> fmt s' f = FormatStruct.arena <$> fmt s f) /\
  (forall ops s log s' format,
     client_run ops s = Done log s' ->
     (forall i, i ∈ log -> issued_format i <> format) ->
     FormatStruct.arena <$> fmt s' format = FormatStruct.arena <$> fmt s format) /\
  (forall formatReturn arena alignment variety scan skip move isMoved copy pad class
          s s1 s2 format,
     FormatCreate formatReturn arena alignment variety
       scan skip move isMoved copy pad class s = Done ResOK s1 ->
     words s1 !! formatReturn = Some format ->
     FormatDestroy format s1 = Done tt s2 ->
     FormatArena format s1 = Done arena s1 /\
     FormatArena format s2 = Done arena s2 /\
     FormatCheck format s2 = Done (CheckFail CheckSig) s2).
Proof.
  split; [apply FormatArena_eq|].
  split; [intros; by eapply FormatDestroy_arena_frame|].
  split; [by intros format s v s' ->%FormatCheck_pure|].
  split.
  { intros format stream s r s' (F & _)%FormatDescribe_frame f. unfold fmt. by rewrite F. }
  split; [intros; by eapply FormatCreate_arena_frame|].
  split; [intros; by eapply client_run_arena_frame|].
  intros formatReturn arena alignment variety scan skip move isMoved copy pad class
    s s1 s2 format Hcreate Hw Hdestroy.
  apply FormatCreate_ok in Hcreate
    as (p & a & rest & fs & a' & _ & _ & _ & _ & Hw' & Hfs & Hfc & _).
  rewrite Hw in Hw'. injection Hw' as <-.
  assert (Har : FormatStruct.arena fs = arena).
  { destruct fs. unfold fcore in Hfc. simpl in Hfc. by simplify_eq. }
  pose proof (FormatDestroy_arena_frame _ _ _ _ Hdestroy format) as Hfr.
  rewrite Hfs in Hfr. simpl in Hfr.
  pose proof (FormatDestroy_Done_valid _ _ _ _ Hdestroy) as Hc.
  destruct (FormatDestroy_runs format s1 Hc)
    as (fs0 & a0 & s1' & s'' & Hfs0 & _ & _ & _ & Hrun & Hfs2 & _).
  rewrite Hdestroy in Hrun. injection Hrun as <-.
  split; [by rewrite FormatArena_eq, Hfs, Har|].
  split.
  { rewrite FormatArena_eq. destruct (fmt s2 format) as [fs2|]; [|done].
    simpl in Hfr. injection Hfr as ->. by rewrite Har. }
  rewrite FormatCheck_validate_spec. unfold validate_spec, check_order, first_failure.
  unfold holds. rewrite decide_False by (intros ->; done). by rewrite Hfs2.
Qed.

(** ** Validation, field by field *)

Lemma fmt_Some_not_NULL s f fs : fmt s f = Some fs -> f <> NULL.
Proof. unfold fmt. by destruct (decide (f = NULL)). Qed.

Lemma arn_Some_not_NULL s b a : arn s b = Some a -> b <> NULL.
Proof. unfold arn. by destruct (decide (b = NULL)). Qed.

(** [FormatCheck] passes exactly on a descriptor with valid fields, in an
    arena that is there, and with a node whose links agree. *)
Lemma FormatCheck_pass_fields format s :
  FormatCheck format s = Done CheckPass s <->
  exists fs a,
    fmt s format = Some fs /\ arn s (FormatStruct.arena fs) = Some a /\
    fields_valid fs a /\
    ring_consistent s (FormatArenaRing format) = Some true.
Proof.
  rewrite FormatCheck_validate_spec. unfold validate_spec. rewrite first_failure_pass.
  split.
  - intros H.
    assert (Hh : forall c, holds c s format = Some true).
    { intros c. apply H. unfold check_order. destruct c; set_solver. }
    pose proof (Hh CheckSig) as Hsig. unfold holds in Hsig.
    destruct (decide (format = NULL)) as [|Hnn]; [done|].
    destruct (fmt s format) as [fs|] eqn:Hfs; [|done]. simpl in Hsig.
    pose proof (Hh CheckArena) as Har. unfold holds in Har. rewrite Hfs in Har. simpl in Har.
    destruct (decide (FormatStruct.arena fs = NULL)) as [|Han]; [done|].
    destruct (arn s (FormatStruct.arena fs)) as [a|] eqn:Ha; [|done]. simpl in Har.
    exists fs, a. split; [done|]. split; [done|].
    split; [|exact (Hh CheckRing)].
    pose proof (Hh CheckSerial) as Hser. pose proof (Hh CheckVariety) as Hvar.
    pose proof (Hh CheckAlign) as Hal. pose proof (Hh CheckScan) as Hscan.
    pose proof (Hh CheckSkip) as Hskip. pose proof (Hh CheckMove) as Hmove.
    pose proof (Hh CheckIsMoved) as HisMoved. pose proof (Hh CheckCopy) as Hcopy.
    pose proof (Hh CheckPad) as Hpad. pose proof (Hh CheckClass) as Hclass.
    unfold holds in Hser, Hvar, Hal, Hscan, Hskip, Hmove, HisMoved, Hcopy, Hpad, Hclass.
    rewrite Hfs in Hser, Hvar, Hal, Hscan, Hskip, Hmove, HisMoved, Hcopy, Hpad, Hclass.
    simpl in Hser, Hvar, Hal, Hscan, Hskip, Hmove, HisMoved, Hcopy, Hpad, Hclass.
    rewrite Ha in Hser. simpl in Hser.
    apply (inj Some) in Hsig, Har, Hser, Hvar, Hal, Hscan, Hskip, Hmove, HisMoved,
      Hcopy, Hpad, Hclass.
    apply bool_decide_eq_true_1 in Hsig, Har, Hscan, Hskip, Hmove, HisMoved, Hcopy, Hpad, Hclass.
    apply N.ltb_lt in Hser.
    apply orb_true_iff in Hvar.
    repeat split; try done.
    destruct Hvar as [Hv|Hv]; apply bool_decide_eq_true_1 in Hv; [by left|by right].
  - intros (fs & a & Hfs & Ha & Hv & Hring) c _.
    destruct Hv as (Hsig & Hasig & Hser & Hvar & Hal & Hscan & Hskip & Hmove & HisMoved
                    & Hcopy & Hpad & Hclass).
    pose proof (fmt_Some_not_NULL _ _ _ Hfs) as Hnn.
    pose proof (arn_Some_not_NULL _ _ _ Ha) as Han.
    destruct c; unfold holds;
      rewrite ?(decide_False (P := format = NULL)) by done; rewrite ?Hfs; simpl;
      rewrite ?(decide_False (P := FormatStruct.arena fs = NULL)) by done; rewrite ?Ha; simpl;
      rewrite ?bool_decide_eq_true_2 by done; try done.
    + f_equal. by apply N.ltb_lt.
    + f_equal. destruct Hvar as [->| ->]; done.
    + by rewrite Hal.
Qed.

Lemma fields_valid_fcore fs fs' a a' :
  fcore fs' = fcore fs -> ArenaStruct.sig a' = ArenaStruct.sig a ->
  ArenaStruct.formatSerial a <= ArenaStruct.formatSerial a' ->
  fields_valid fs a -> fields_valid fs' a'.
Proof.
  destruct fs, fs'. unfold fcore, fields_valid. simpl. intros [=] Hs Hle. subst.
  rewrite Hs. intros (? & ? & ? & ? & ? & ? & ? & ? & ? & ? & ? & ?).
  repeat split; try done. lia.
Qed.

(** ** Ring links *)

Lemma ring_consistent_links s z :
  ring_consistent s z = Some true <->
  exists n p, next_of s z = Some n /\ prev_of s n = Some z /\
              prev_of s z = Some p /\ next_of s p = Some z.
Proof.
  unfold next_of, prev_of. split.
  - intros (r & rn & rp & Hr & Hn & Hnp & Hp & Hpn)%ring_consistent_elim.
    exists (RingStruct.next r), (RingStruct.prev r).
    rewrite Hr, Hn, Hp. simpl. by rewrite Hnp, Hpn.
  - intros (n & p & Hn & Hnp & Hp & Hpn).
    destruct (node s z) as [r|] eqn:Hr; [|done]. simpl in Hn, Hp.
    injection Hn as <-. injection Hp as <-.
    destruct (node s (RingStruct.next r)) as [rn|] eqn:Hrn; [|done].
    destruct (node s (RingStruct.prev r)) as [rp|] eqn:Hrp; [|done].
    simpl in Hnp, Hpn. injection Hnp as Hnp. injection Hpn as Hpn.
    by eapply ring_consistent_intro.
Qed.

Lemma node_eq_links s1 s2 z :
  next_of s1 z = next_of s2 z -> prev_of s1 z = prev_of s2 z -> node s1 z = node s2 z.
Proof.
  unfold next_of, prev_of.
  destruct (node s1 z) as [[n1 p1]|], (node s2 z) as [[n2 p2]|]; simpl; try done.
  by intros [= ->] [= ->].
Qed.

(** A node other than the one taken out of a ring keeps links that agree. *)
Lemma consistent_after_remove s s' old on op g :
  next_of s old = Some on -> prev_of s on = Some old ->
  prev_of s old = Some op -> next_of s op = Some old ->
  (forall z, z <> old -> next_of s' z = if decide (z = op) then Some on else next_of s z) ->
  (forall z, z <> old -> prev_of s' z = if decide (z = on) then Some op else prev_of s z) ->
  g <> old ->
  ring_consistent s g = Some true -> ring_consistent s' g = Some true.
Proof.
  intros Hon Honp Hop Hopn Lnext Lprev Hg.
  rewrite !ring_consistent_links. intros (n & p & Hn & Hnp & Hp & Hpn).
  assert (Hon_old : on = old -> op = old).
  { intros ->. rewrite Hop in Honp. by injection Honp. }
  assert (Hop_old : op = old -> on = old).
  { intros ->. rewrite Hon in Hopn. by injection Hopn. }
  exists (if decide (g = op) then on else n), (if decide (g = on) then op else p).
  rewrite (Lnext g), (Lprev g) by done.
  split; [by destruct (decide (g = op))|].
  split; [|split; [by destruct (decide (g = on))|]].
  - destruct (decide (g = op)) as [->|Hgp].
    + assert (on <> old) by (intros H; by apply Hg, Hon_old).
      rewrite Lprev by done. by rewrite decide_True.
    + assert (n <> old).
      { intros ->. rewrite Hop in Hnp. injection Hnp as ->. done. }
      rewrite Lprev by done. rewrite decide_False; [done|].
      intros ->. rewrite Honp in Hnp. injection Hnp as ->. done.
  - destruct (decide (g = on)) as [->|Hgn].
    + assert (op <> old) by (intros H; by apply Hg, Hop_old).
      rewrite Lnext by done. by rewrite decide_True.
    + assert (p <> old).
      { intros ->. rewrite Hon in Hpn. injection Hpn as ->. done. }
      rewrite Lnext by done. rewrite decide_False; [done|].
      intros ->. rewrite Hopn in Hpn. injection Hpn as ->. done.
Qed.

(** A node keeps links that agree when a node it is not linked to is put
    last in a ring whose head has links that agree. *)
Lemma consistent_after_append s s' head new q g :
  (forall z, next_of s' z =
     if decide (z = new) then Some head
     else if decide (z = q) then Some new else next_of s z) ->
  (forall z, prev_of s' z =
     if decide (z = new) then Some q
     else if decide (z = head) then Some new else prev_of s z) ->
  prev_of s head = Some q -> next_of s q = Some head ->
  g <> new -> g <> head ->
  next_of s g <> Some new -> prev_of s g <> Some new ->
  ring_consistent s g = Some true -> ring_consistent s' g = Some true.
Proof.
  intros Lnext Lprev Hq Hqn Hgn Hgh Hnew1 Hnew2.
  rewrite !ring_consistent_links. intros (n & p & Hn & Hnp & Hp & Hpn).
  exists (if decide (g = q) then new else n), p.
  rewrite (Lnext g), (Lprev g). rewrite !(decide_False (P := g = new)) by done.
  rewrite (decide_False (P := g = head)) by done.
  split; [by destruct (decide (g = q))|].
  split; [|split; [done|]].
  - destruct (decide (g = q)) as [->|Hgq].
    + rewrite Lprev. by rewrite decide_True.
    + assert (n <> new) by (intros ->; by apply Hnew1).
      assert (n <> head).
      { intros ->. rewrite Hq in Hnp. injection Hnp as ->. done. }
      rewrite Lprev. by rewrite !decide_False.
  - assert (p <> new) by (intros ->; by apply Hnew2).
    assert (p <> q).
    { intros ->. rewrite Hqn in Hpn. injection Hpn as ->. done. }
    rewrite Lnext. by rewrite !decide_False.
Qed.

Lemma RingAppend_Done_prev ring new s u s' r :
  node s ring = Some r -> ring <> new -> RingStruct.prev r <> new ->
  RingAppend ring new s = Done u s' ->
  is_Some (node s (RingStruct.prev r)).
Proof.
  intros Hr Hne Hq. unfold RingAppend, bind.
  rewrite ring_get_eq, Hr. cbv beta iota.
  rewrite ring_store_eq. destruct (node s new) as [n|] eqn:Hn; [|done]. cbv beta iota.
  rewrite ring_store_eq, (node_put_same _ _ _ _ Hn). cbv beta iota.
  rewrite ring_get_eq, !node_put_other, Hr by done. cbv beta iota.
  rewrite ring_store_eq, !node_put_other by done.
  destruct (node s (RingStruct.prev r)); [eauto|done].
Qed.

(** The links after a construction: the new node stands between the node
    that was last in the arena's ring and the head. *)
Lemma FormatCreate_links formatReturn arena alignment variety
    scan skip move isMoved copy pad class s s' :
  FormatCreate formatReturn arena alignment variety scan skip move isMoved copy pad class s
    = Done ResOK s' ->
  exists p a,
    words s' !! formatReturn = Some p /\ arn s arena = Some a /\
    (RingStruct.prev (ArenaStruct.formatRing a) <> FormatArenaRing p ->
     (forall z, next_of s' z =
        if decide (z = FormatArenaRing p) then Some (ArenaFormatRing arena)
        else if decide (z = RingStruct.prev (ArenaStruct.formatRing a))
             then Some (FormatArenaRing p) else next_of s z) /\
     (forall z, prev_of s' z =
        if decide (z = FormatArenaRing p)
        then Some (RingStruct.prev (ArenaStruct.formatRing a))
        else if decide (z = ArenaFormatRing arena)
             then Some (FormatArenaRing p) else prev_of s z)).
Proof.
  intros H.
  apply FormatCreate_Done_inv in H as (Hfr & a & Ha & [(_ & [=] & _)|H]).
  destruct H as (p & rest & s4 & Hpool & Hp & _ & Hcv & Hc & Happ & Hws).
  destruct (word_store_same_frame _ _ _ _ _ Hws) as (F & A & Hword & _).
  exists p, a. split; [done|]. split; [done|]. intros Hq.
  pose proof (created_fmt arena a p rest alignment variety scan skip move isMoved
                copy pad class s Hp) as Hf3.
  pose proof (created_arn arena a p rest alignment variety scan skip move isMoved
                copy pad class s Ha) as Ha3.
  pose proof (created_fmt_other arena a p rest alignment variety scan skip move isMoved
                copy pad class s) as Hf3o.
  pose proof (created_arn_other arena a p rest alignment variety scan skip move isMoved
                copy pad class s) as Ha3o.
  set (s3 := created _ _ _ _ _ _ _ _ _ _ _ _ _ _) in *.
  set (head := ArenaFormatRing arena) in *. set (new := FormatArenaRing p) in *.
  assert (Hn3 : forall z, z <> new -> node s3 z = node s z).
  { intros [|f|b] Hz; simpl; [done| |].
    - rewrite Hf3o; [done..|]. intros ->. by apply Hz.
    - destruct (decide (b = arena)) as [->|Hb].
      + rewrite Ha3, Ha. done.
      + by rewrite Ha3o. }
  assert (Hr3 : node s3 head = Some (ArenaStruct.formatRing a)).
  { simpl. by rewrite Ha3. }
  destruct (RingAppend_eq head new s3 (ArenaStruct.formatRing a)
              (RingStruct.Build new new)) as (s4' & Happ' & Lnext & Lprev).
  { done. }
  { simpl. by rewrite Hf3. }
  { by eapply (RingAppend_Done_prev head new s3). }
  { done. }
  { done. }
  rewrite Happ in Happ'. injection Happ' as <-.
  assert (Hnode : forall z, node s' z = node s4 z).
  { intros [|f|b]; simpl; by rewrite ?F, ?A. }
  split; intros z.
  - unfold next_of at 1. rewrite Hnode. fold (next_of s4 z). rewrite Lnext.
    destruct (decide (z = new)); [done|].
    destruct (decide (z = RingStruct.prev (ArenaStruct.formatRing a))); [done|].
    unfold next_of. by rewrite Hn3.
  - unfold prev_of at 1. rewrite Hnode. fold (prev_of s4 z). rewrite Lprev.
    destruct (decide (z = new)); [done|].
    destruct (decide (z = head)); [done|].
    unfold prev_of. by rewrite Hn3.
Qed.

(** The links after a destruction: the neighbours of the destroyed node are
    joined, and the node itself is finished. *)
Lemma FormatDestroy_links format s u s' :
  FormatDestroy format s = Done u s' ->
  exists n p,
    next_of s (FormatArenaRing format) = Some n /\
    prev_of s n = Some (FormatArenaRing format) /\
    prev_of s (FormatArenaRing format) = Some p /\
    next_of s p = Some (FormatArenaRing format) /\
    (forall z, z <> FormatArenaRing format ->
       next_of s' z = if decide (z = p) then Some n else next_of s z) /\
    (forall z, z <> FormatArenaRing format ->
       prev_of s' z = if decide (z = n) then Some p else prev_of s z) /\
    node s' (FormatArenaRing format) = Some (RingStruct.Build RingNONE RingNONE).
Proof.
  intros H. pose proof (FormatDestroy_Done_valid _ _ _ _ H) as Hc.
  destruct (FormatDestroy_runs format s Hc)
    as (fs & a & s1 & s'' & Hfs & Ha & Hring & Hrem & Hrun & Hfs' & Hfo & Hao & Hw & Hst).
  destruct u. rewrite H in Hrun. injection Hrun as <-.
  destruct (ring_consistent_elim _ _ Hring) as (r & rn & rp & Hr & Hn & Hnp & Hp & Hpn).
  destruct (RingRemove_eq _ _ _ _ _ Hr Hn Hnp Hp Hpn) as (s1' & Hrem' & Hold1 & Lnext & Lprev).
  rewrite Hrem in Hrem'. injection Hrem' as <-.
  assert (Hnode : forall z, z <> FormatArenaRing format -> node s' z = node s1 z).
  { intros [|f|b] Hz; simpl; [done| |].
    - rewrite Hfo; [done|]. intros ->. by apply Hz.
    - rewrite Hao. case_decide; [|done]. by destruct (arn s1 b). }
  exists (RingStruct.next r), (RingStruct.prev r).
  split; [unfold next_of; by rewrite Hr|].
  split; [unfold prev_of; rewrite Hn; simpl; by rewrite Hnp|].
  split; [unfold prev_of; by rewrite Hr|].
  split; [unfold next_of; rewrite Hp; simpl; by rewrite Hpn|].
  split.
  { intros z Hz. unfold next_of at 1. rewrite Hnode by done. by apply Lnext. }
  split.
  { intros z Hz. unfold prev_of at 1. rewrite Hnode by done. by apply Lprev. }
  simpl. by rewrite Hfs'.
Qed.

(** The arenas after a destruction: the block of the descriptor is first in
    the pool of its arena, and nothing else of an arena has changed, ring
    links apart. *)
Lemma FormatDestroy_arenas format s u s' :
  FormatDestroy format s = Done u s' ->
  exists fs, fmt s format = Some fs /\
    forall b,
      match arn s b, arn s' b with
      | Some x, Some x' =>
          ArenaStruct.sig x' = ArenaStruct.sig x /\
          ArenaStruct.serial x' = ArenaStruct.serial x /\
          ArenaStruct.formatSerial x' = ArenaStruct.formatSerial x /\
          ArenaStruct.controlPool x' =
            if decide (b = FormatStruct.arena fs) then format :: ArenaStruct.controlPool x
            else ArenaStruct.controlPool x
      | None, None => True
      | _, _ => False
      end.
Proof.
  intros H. pose proof (FormatDestroy_Done_valid _ _ _ _ H) as Hc.
  destruct (FormatDestroy_runs format s Hc)
    as (fs & a & s1 & s'' & Hfs & Ha & Hring & Hrem & Hrun & Hfs' & Hfo & Hao & Hw & Hst).
  destruct u. rewrite H in Hrun. injection Hrun as <-.
  pose proof (RingRemove_same_core _ _ _ _ Hrem) as (_ & Ac & _ & _).
  exists fs. split; [done|]. intros b. rewrite Hao. specialize (Ac b).
  destruct (arn s b) as [x|], (arn s1 b) as [x1|]; simpl in Ac; try done.
  - apply (inj Some) in Ac. destruct x, x1. unfold acore in Ac. simpl in Ac.
    injection Ac as -> -> -> ->.
    by destruct (decide (b = FormatStruct.arena fs)).
  - by destruct (decide (b = FormatStruct.arena fs)).
Qed.

(** ** The assertions of the constructor *)

Lemma word_succ_lt n : n < word_succ n -> n + 1 < 2 ^ MPS_WORD_WIDTH.
Proof.
  unfold word_succ. intros H.
  assert (Hnz : 2 ^ MPS_WORD_WIDTH <> 0) by (by apply N.pow_nonzero).
  pose proof (N.mod_upper_bound (n + 1) _ Hnz). lia.
Qed.

Lemma first_failure_total s format cs :
  (forall c, c ∈ cs -> is_Some (holds c s format)) ->
  exists v, first_failure s format cs = Done v s.
Proof.
  induction cs as [|c cs IH]; simpl; intros H; [by eexists|].
  destruct (H c ltac:(by left)) as [[|] ->].
  - apply IH. intros c' Hc'. apply H. by right.
  - by eexists.
Qed.

Lemma FormatCheck_sig_invalid format s fs :
  fmt s format = Some fs -> FormatStruct.sig fs <> FormatSig ->
  FormatCheck format s = Done (CheckFail CheckSig) s.
Proof.
  intros Hfs Hsig. rewrite FormatCheck_validate_spec.
  unfold validate_spec, check_order, first_failure. unfold holds.
  rewrite decide_False by (by eapply fmt_Some_not_NULL). rewrite Hfs. simpl.
  by rewrite bool_decide_eq_false_2.
Qed.

(** The [AVERT] of [FormatCreate] always comes to a verdict, and passes
    exactly when the arena is valid, its counter can be stepped, and the
    arguments are valid. *)
Lemma created_FormatCheck_verdict arena a p rest alignment variety
    scan skip move isMoved copy pad class s :
  fmt s p <> None -> arn s arena = Some a ->
  (exists v,
     FormatCheck p (created arena a p rest alignment variety scan skip move isMoved copy pad class s)
     = Done v (created arena a p rest alignment variety scan skip move isMoved copy pad class s)) /\
  (FormatCheck p (created arena a p rest alignment variety scan skip move isMoved copy pad class s)
   = Done CheckPass
       (created arena a p rest alignment variety scan skip move isMoved copy pad class s) ->
   ArenaStruct.sig a = ArenaSig /\
   ArenaStruct.formatSerial a + 1 < 2 ^ MPS_WORD_WIDTH /\
   (variety = FormatVarietyA \/ variety = FormatVarietyB) /\
   AlignCheck alignment = true /\
   scan <> MethodNULL /\ skip <> MethodNULL /\ move <> MethodNULL /\
   isMoved <> MethodNULL /\ copy <> MethodNULL /\ pad <> MethodNULL).
Proof.
  intros Hp Ha.
  pose proof (created_fmt arena a p rest alignment variety scan skip move isMoved
                copy pad class s Hp) as Hf3.
  pose proof (created_arn arena a p rest alignment variety scan skip move isMoved
                copy pad class s Ha) as Ha3.
  set (s3 := created _ _ _ _ _ _ _ _ _ _ _ _ _ _) in *.
  assert (Hpn : p <> NULL) by (intros ->; by apply Hp).
  pose proof (arn_Some_not_NULL _ _ _ Ha) as Han.
  split.
  - rewrite FormatCheck_validate_spec. apply first_failure_total. intros c _.
    destruct c; unfold holds;
      rewrite ?(decide_False (P := p = NULL)) by done; rewrite ?Hf3; simpl;
      rewrite ?(decide_False (P := arena = NULL)) by done; rewrite ?Ha3; simpl;
      try done.
    set (single := RingStruct.Build (FormatArenaRing p) (FormatArenaRing p)).
    rewrite (ring_consistent_intro s3 _ single single single);
      simpl; rewrite ?Hf3; done.
  - intros (fs & a' & Hfs & Ha' & Hv & _)%FormatCheck_pass_fields.
    rewrite Hf3 in Hfs. injection Hfs as <-. simpl in Ha'.
    rewrite Ha3 in Ha'. injection Ha' as <-.
    destruct Hv as (_ & Hasig & Hser & Hvar & Hal & Hscan & Hskip & Hmove & HisMoved
                    & Hcopy & Hpad & _).
    simpl in *. apply word_succ_lt in Hser. done.
Qed.




(** X2.  Invalid arguments, an invalid arena or a counter at its maximum are not
    reported in the result: once the block has been allocated, each of
    them stops the constructor at an assertion. *)
Theorem FormatCreate_invalid_asserts (formatReturn arena : Addr) (alignment : Align)
    (variety : FormatVariety) (scan skip move isMoved copy pad class : Method)
    (s : State) (a : ArenaStruct.t) (p : Addr) (rest : list Addr) :
  formatReturn <> NULL ->
  arn s arena = Some a -> ArenaStruct.controlPool a = p :: rest -> fmt s p <> None ->
  ~ (ArenaStruct.sig a = ArenaSig /\
     ArenaStruct.formatSerial a + 1 < 2 ^ MPS_WORD_WIDTH /\
     arguments_valid alignment variety scan skip move isMoved copy pad class) ->
  FormatCreate formatReturn arena alignment variety scan skip move isMoved copy pad class s
  = AssertFail (if decide (class = MethodNULL /\ variety <> FormatVarietyA)
                then "variety == FormatVarietyA" else "FormatCheck(format)").
Proof.
  intros Hfr Ha Hpool Hp Hinv. rewrite FormatCreate_eq.
  rewrite decide_False by done. rewrite Ha, Hpool.
  destruct (fmt s p) as [junk|] eqn:Hj; [|done]. rewrite <- Hj in Hp.
  destruct (decide (class = MethodNULL /\ variety <> FormatVarietyA)) as [|Hcv]; [done|].
  destruct (created_FormatCheck_verdict arena a p rest alignment variety scan skip move
              isMoved copy pad class s Hp Ha) as [[v Hv] Hvalid].
  unfold bind at 1. unfold AVERT_Format, bind at 1. rewrite Hv.
  destruct v as [|c]; [|done].
  exfalso. apply Hinv.
  destruct (Hvalid Hv) as (Hasig & Hser & Hvar & Hal & Hscan & Hskip & Hmove & HisMoved
                           & Hcopy & Hpad).
  split; [done|]. split; [done|]. unfold arguments_valid.
  repeat (split; [done|]). split; [|done].
  intros ->. destruct (decide (variety = FormatVarietyA)); [done|]. by destruct Hcv.
Qed.

(** ** What a construction stores, and what it leaves alone *)

(** X3.  The descriptor a successful construction returns holds the arguments
    as given (a null class method replaced by [FormatDefaultClass]);
    [FormatArena] on it returns the arena argument, and [FormatDescribe]
    renders the arguments to a sink with room for the ten pieces. *)
Theorem FormatCreate_stores_arguments (formatReturn arena : Addr) (alignment : Align)
    (variety : FormatVariety) (scan skip move isMoved copy pad class : Method)
    (s s' : State) :
  FormatCreate formatReturn arena alignment variety scan skip move isMoved copy pad class s
    = Done ResOK s' ->
  exists p fs a',
    words s' !! formatReturn = Some p /\ fmt s' p = Some fs /\ arn s' arena = Some a' /\
    FormatStruct.sig fs = FormatSig /\ FormatStruct.arena fs = arena /\
    FormatStruct.alignment fs = alignment /\ FormatStruct.variety fs = variety /\
    FormatStruct.scan fs = scan /\ FormatStruct.skip fs = skip /\
    FormatStruct.move fs = move /\ FormatStruct.isMoved fs = isMoved /\
    FormatStruct.copy fs = copy /\ FormatStruct.pad fs = pad /\
    FormatStruct.class fs = class_or_default class /\
    FormatArena p s' = Done arena s' /\
    (forall stream st,
       stream <> NULL -> streams s' !! stream = Some st ->
       (10 <= StreamStruct.room st)%nat ->
       exists s'',
         FormatDescribe p stream s' = Done ResOK s'' /\
         StreamStruct.written <$> (streams s'' !! stream) =
         Some (StreamStruct.written st ++
           [ ("Format $P ($U) {\n", [WriteFP p; WriteFU (FormatStruct.serial fs)]);
             ("  arena $P ($U)\n", [WriteFP arena; WriteFU (ArenaStruct.serial a')]);
             ("  alignment $W\n", [WriteFW alignment]);
             ("  scan $F\n", [WriteFF scan]);
             ("  skip $F\n", [WriteFF skip]);
             ("  move $F\n", [WriteFF move]);
             ("  isMoved $F\n", [WriteFF isMoved]);
             ("  copy $F\n", [WriteFF copy]);
             ("  pad $F\n", [WriteFF pad]);
             ("} Format $P ($U)\n", [WriteFP p; WriteFU (FormatStruct.serial fs)]) ])).
Proof.
  intros H. apply FormatCreate_ok in H
    as (p & a & rest & fs & a' & _ & Ha & _ & _ & Hw & Hfs & Hfc & Ha' & Hac & _).
  exists p, fs, a'. split; [done|]. split; [done|]. split; [done|].
  destruct fs as [sg ser ar ring al va sc sk mo im co pa cl].
  unfold fcore in Hfc. simpl in Hfc.
  injection Hfc as -> -> -> -> -> -> -> -> -> -> -> ->. simpl.
  repeat (split; [done|]).
  split; [by rewrite FormatArena_eq, Hfs|].
  intros stream st Hstream Hst Hroom.
  rewrite FormatDescribe_eq, Hfs. cbn [FormatStruct.arena]. rewrite Ha'.
  unfold WriteF. rewrite decide_False by done. rewrite Hst. cbv zeta.
  set (items := describe_items _ _ _).
  destruct (WriteF_items_spec items st) as [[_ Heq]|[Hlt _]].
  2:{ unfold items in Hlt. simpl in Hlt. lia. }
  rewrite Heq. eexists. split; [reflexivity|].
  simpl. rewrite lookup_insert_eq. reflexivity.
Qed.

(** X4.  A construction stores to the block it takes, to its arena and to
    [*formatReturn]: the sinks, the other client words, the other arenas and
    the other descriptors are as they were, ring links apart; the arena
    keeps its signature and serial; and a construction that fails changes
    nothing at all. *)
Theorem FormatCreate_leaves_rest (formatReturn arena : Addr) (alignment : Align)
    (variety : FormatVariety) (scan skip move isMoved copy pad class : Method)
    (s s' : State) (res : Res) :
  FormatCreate formatReturn arena alignment variety scan skip move isMoved copy pad class s
    = Done res s' ->
  streams s' = streams s /\
  (forall w, w <> formatReturn -> words s' !! w = words s !! w) /\
  (forall b, b <> arena -> acore <$> arn s' b = acore <$> arn s b) /\
  ArenaStruct.sig <$> arn s' arena = ArenaStruct.sig <$> arn s arena /\
  ArenaStruct.serial <$> arn s' arena = ArenaStruct.serial <$> arn s arena /\
  (forall f, (res = ResOK -> words s' !! formatReturn <> Some f) ->
     fcore <$> fmt s' f = fcore <$> fmt s f) /\
  (res <> ResOK -> s' = s).
Proof.
  intros H. destruct (decide (res = ResOK)) as [->|Hres].
  - apply FormatCreate_ok in H
      as (p & a & rest & fs & a' & _ & Ha & _ & _ & Hw & _ & _ & Ha' & Hac & Fo & Ao & Hst & Wo & _).
    split; [done|]. split; [done|]. split; [done|].
    rewrite Ha, Ha'. destruct a, a'. unfold acore in Hac. simpl in *.
    injection Hac as -> -> -> ->.
    split; [done|]. split; [done|]. split; [|done].
    intros f Hf. apply Fo. intros ->. by apply Hf.
  - apply FormatCreate_Done_inv in H as (_ & a & _ & [(_ & _ & ->)|H]).
    + done.
    + by destruct H as (? & ? & ? & _ & _ & ? & _).
Qed.

(** X5.  A construction puts the new descriptor last in the ring of its arena,
    behind the descriptors that were there, whose order it keeps. *)
Theorem FormatCreate_appends_last (formatReturn arena : Addr) (alignment : Align)
    (variety : FormatVariety) (scan skip move isMoved copy pad class : Method)
    (s s' : State) (p : Addr) (l : list Ring) :
  FormatCreate formatReturn arena alignment variety scan skip move isMoved copy pad class s
    = Done ResOK s' ->
  words s' !! formatReturn = Some p ->
  ring_members s (ArenaFormatRing arena) l ->
  FormatArenaRing p ∉ l ->
  ring_members s' (ArenaFormatRing arena) (l ++ [FormatArenaRing p]) /\
  last (l ++ [FormatArenaRing p]) = Some (FormatArenaRing p) /\
  forall l', ring_members s' (ArenaFormatRing arena) l' -> l' = l ++ [FormatArenaRing p].
Proof.
  intros H Hw Hl Hp.
  pose proof (FormatCreate_appends _ _ _ _ _ _ _ _ _ _ _ _ _ _ _ H Hw Hl Hp) as Hl'.
  split; [done|]. split; [by rewrite last_snoc|].
  intros l' Hl2. by eapply ring_members_unique.
Qed.

(** X6.  A construction keeps the other descriptors valid: one that passes
    [FormatCheck] before still passes after, when the head of the arena's
    ring has links that agree and neither it nor the descriptor is linked
    to the block the construction takes. *)
Theorem FormatCreate_keeps_valid (formatReturn arena : Addr) (alignment : Align)
    (variety : FormatVariety) (scan skip move isMoved copy pad class : Method)
    (s s' : State) (p g : Addr) :
  FormatCreate formatReturn arena alignment variety scan skip move isMoved copy pad class s
    = Done ResOK s' ->
  words s' !! formatReturn = Some p ->
  ring_consistent s (ArenaFormatRing arena) = Some true ->
  prev_of s (ArenaFormatRing arena) <> Some (FormatArenaRing p) ->
  g <> p ->
  next_of s (FormatArenaRing g) <> Some (FormatArenaRing p) ->
  prev_of s (FormatArenaRing g) <> Some (FormatArenaRing p) ->
  FormatCheck g s = Done CheckPass s ->
  FormatCheck g s' = Done CheckPass s'.
Proof.
  intros H Hw Hhead Hq Hgp Hg1 Hg2 Hc.
  apply FormatCheck_pass_fields in Hc as (gs & ga & Hgs & Hga & Hv & Hring).
  apply FormatCheck_pass_fields.
  destruct (FormatCreate_links _ _ _ _ _ _ _ _ _ _ _ _ _ H) as (p' & a & Hw' & Ha & Hlinks).
  rewrite Hw in Hw'. injection Hw' as <-.
  apply FormatCreate_ok in H
    as (p' & a0 & rest & fs & a' & _ & Ha0 & _ & _ & Hw' & _ & _ & Ha' & Hac & Fo & Ao & _).
  rewrite Hw in Hw'. injection Hw' as <-.
  rewrite Ha in Ha0. injection Ha0 as <-.
  assert (Hprev : prev_of s (ArenaFormatRing arena)
                  = Some (RingStruct.prev (ArenaStruct.formatRing a))).
  { unfold prev_of. simpl. by rewrite Ha. }
  assert (Hqp : RingStruct.prev (ArenaStruct.formatRing a) <> FormatArenaRing p).
  { intros Heq. apply Hq. by rewrite Hprev, Heq. }
  destruct (Hlinks Hqp) as [Lnext Lprev].
  apply ring_consistent_links in Hhead as (hn & hp & _ & _ & Hhp & Hhpn).
  rewrite Hprev in Hhp. injection Hhp as <-.
  specialize (Fo g Hgp). rewrite Hgs in Fo.
  destruct (fmt s' g) as [gs'|] eqn:Hgs'; [|done]. apply (inj Some) in Fo.
  assert (Hga' : exists ga', arn s' (FormatStruct.arena gs) = Some ga' /\
                   ArenaStruct.sig ga' = ArenaStruct.sig ga /\
                   ArenaStruct.formatSerial ga <= ArenaStruct.formatSerial ga').
  { destruct (decide (FormatStruct.arena gs = arena)) as [Heq|Hne].
    - rewrite Heq in *. rewrite Ha in Hga. injection Hga as <-.
      exists a'. split; [done|].
      destruct a, a'. unfold acore in Hac. simpl in *. injection Hac as -> -> -> ->.
      split; [done|]. lia.
    - specialize (Ao _ Hne). rewrite Hga in Ao.
      destruct (arn s' (FormatStruct.arena gs)) as [ga'|]; [|done].
      apply (inj Some) in Ao. exists ga'. split; [done|].
      destruct ga, ga'. unfold acore in Ao. simpl in *. injection Ao as -> -> -> ->.
      split; [done|]. lia. }
  destruct Hga' as (ga' & Hga' & Hsig' & Hle').
  exists gs', ga'. split; [done|]. split.
  { replace (FormatStruct.arena gs') with (FormatStruct.arena gs); [done|].
    destruct gs, gs'. unfold fcore in Fo. simpl in *. by injection Fo. }
  split; [by eapply fields_valid_fcore|].
  eapply (consistent_after_append s s' (ArenaFormatRing arena) (FormatArenaRing p));
    try done.
  intros [= ->]. done.
Qed.

(** ** What a destruction keeps *)

(** X7.  A destruction keeps the other descriptors valid: it joins the
    neighbours of the node it removes, so the links of every other node
    still agree. *)
Theorem FormatDestroy_keeps_valid (format g : Addr) (s s' : State) :
  FormatDestroy format s = Done tt s' ->
  g <> format ->
  FormatCheck g s = Done CheckPass s ->
  FormatCheck g s' = Done CheckPass s'.
Proof.
  intros Hd Hne Hc.
  apply FormatCheck_pass_fields in Hc as (gs & ga & Hgs & Hga & Hv & Hring).
  apply FormatCheck_pass_fields.
  destruct (FormatDestroy_frame _ _ _ _ Hd) as (Fo & _).
  destruct (FormatDestroy_arenas _ _ _ _ Hd) as (fs & Hfs & Hao).
  destruct (FormatDestroy_links _ _ _ _ Hd) as (n & p & Hn & Hnp & Hp & Hpn & Lnext & Lprev & _).
  specialize (Fo g Hne). rewrite Hgs in Fo.
  destruct (fmt s' g) as [gs'|] eqn:Hgs'; [|done]. apply (inj Some) in Fo.
  specialize (Hao (FormatStruct.arena gs)). rewrite Hga in Hao.
  destruct (arn s' (FormatStruct.arena gs)) as [ga'|] eqn:Hga'; [|done].
  destruct Hao as (Hsig & _ & Hser & _).
  exists gs', ga'. split; [done|]. split.
  { replace (FormatStruct.arena gs') with (FormatStruct.arena gs); [done|].
    destruct gs, gs'. unfold fcore in Fo. simpl in *. by injection Fo. }
  split.
  { eapply fields_valid_fcore; [done|done| |done]. rewrite Hser. lia. }
  eapply (consistent_after_remove s s' (FormatArenaRing format)); try done.
  intros [= ->]. done.
Qed.

(** X8.  A destruction stores the invalid signature and finished links in the
    descriptor and keeps its other fields; it changes no field of another
    descriptor, ring links apart, and in the arenas nothing but ring links
    and the pool that takes the block back: no counter goes down, so no
    serial is issued twice. *)
Theorem FormatDestroy_keeps_fields (format : Addr) (s s' : State) :
  FormatDestroy format s = Done tt s' ->
  exists fs,
    fmt s format = Some fs /\
    fmt s' format =
      Some (FormatStruct.Build SigInvalid (FormatStruct.serial fs) (FormatStruct.arena fs)
              (RingStruct.Build RingNONE RingNONE)
              (FormatStruct.alignment fs) (FormatStruct.variety fs)
              (FormatStruct.scan fs) (FormatStruct.skip fs) (FormatStruct.move fs)
              (FormatStruct.isMoved fs) (FormatStruct.copy fs) (FormatStruct.pad fs)
              (FormatStruct.class fs)) /\
    (forall f, f <> format -> fcore <$> fmt s' f = fcore <$> fmt s f) /\
    (forall b, ArenaStruct.sig <$> arn s' b = ArenaStruct.sig <$> arn s b /\
               ArenaStruct.serial <$> arn s' b = ArenaStruct.serial <$> arn s b /\
               ArenaStruct.formatSerial <$> arn s' b = ArenaStruct.formatSerial <$> arn s b /\
               (b <> FormatStruct.arena fs ->
                ArenaStruct.controlPool <$> arn s' b = ArenaStruct.controlPool <$> arn s b)).
Proof.
  intros Hd.
  pose proof (FormatDestroy_Done_valid _ _ _ _ Hd) as Hc.
  destruct (FormatDestroy_runs format s Hc)
    as (fs & a & s1 & s'' & Hfs & Ha & Hring & Hrem & Hrun & Hfs' & _).
  rewrite Hd in Hrun. injection Hrun as <-.
  destruct (FormatDestroy_frame _ _ _ _ Hd) as (Fo & _).
  destruct (FormatDestroy_arenas _ _ _ _ Hd) as (fs0 & Hfs0 & Hao).
  rewrite Hfs in Hfs0. injection Hfs0 as <-.
  exists fs. split; [done|]. split; [by rewrite Hfs'|]. split; [done|].
  intros b. specialize (Hao b).
  destruct (arn s b) as [x|], (arn s' b) as [x'|]; simpl; try done.
  destruct Hao as (-> & -> & -> & Hpool). repeat split.
  intros Hb. by rewrite Hpool, decide_False.
Qed.

(** X9.  A destruction runs to its end exactly on a descriptor that passes
    [FormatCheck]; on one that fails a check it stops at its [AVERT], and so
    does a second destruction of the same descriptor. *)
Theorem FormatDestroy_guard (format : Addr) (s : State) :
  ((exists s', FormatDestroy format s = Done tt s') <->
   FormatCheck format s = Done CheckPass s) /\
  (forall c, FormatCheck format s = Done (CheckFail c) s ->
     FormatDestroy format s = AssertFail "FormatCheck(format)") /\
  (forall s', FormatDestroy format s = Done tt s' ->
     FormatDestroy format s' = AssertFail "FormatCheck(format)").
Proof.
  assert (Hfail : forall c st, FormatCheck format st = Done (CheckFail c) st ->
                    FormatDestroy format st = AssertFail "FormatCheck(format)").
  { intros c st H. unfold FormatDestroy. unfold bind at 1.
    unfold AVERT_Format, bind. by rewrite H. }
  split; [split|split].
  - intros [s' H]. by eapply FormatDestroy_Done_valid.
  - intros Hc. destruct (FormatDestroy_runs format s Hc)
      as (fs & a & s1 & s' & _ & _ & _ & _ & Hrun & _). eauto.
  - intros c. apply Hfail.
  - intros s' Hd. apply (Hfail CheckSig).
    pose proof (FormatDestroy_Done_valid _ _ _ _ Hd) as Hc.
    destruct (FormatDestroy_runs format s Hc)
      as (fs & a & s1 & s'' & _ & _ & _ & _ & Hrun & Hfs' & _).
    rewrite Hd in Hrun. injection Hrun as <-.
    by eapply FormatCheck_sig_invalid.
Qed.

(** X10.  [FormatDescribe] does not validate: on a destroyed descriptor it
    returns what it returned before the destruction and writes the same
    pieces. *)
Theorem FormatDescribe_after_destroy (format stream : Addr) (s s' t : State) (r : Res) :
  FormatDestroy format s = Done tt s' ->
  FormatDescribe format stream s = Done r t ->
  exists t',
    FormatDescribe format stream s' = Done r t' /\ streams t' = streams t.
Proof.
  intros Hd. rewrite !FormatDescribe_eq.
  pose proof (FormatDestroy_Done_valid _ _ _ _ Hd) as Hc.
  destruct (FormatDestroy_runs format s Hc)
    as (fs & a & s1 & s'' & Hfs & Ha & _ & _ & Hrun & Hfs' & _ & _ & _ & Hst).
  rewrite Hd in Hrun. injection Hrun as <-.
  destruct (FormatDestroy_arenas _ _ _ _ Hd) as (fs0 & Hfs0 & Hao).
  rewrite Hfs, Hfs'. simpl. rewrite Ha.
  specialize (Hao (FormatStruct.arena fs)). rewrite Ha in Hao.
  destruct (arn s' (FormatStruct.arena fs)) as [a'|]; [|done].
  destruct Hao as (_ & Hser & _). rewrite Hser.
  unfold describe_items. simpl. unfold WriteF. rewrite Hst.
  destruct (decide (stream = NULL)); [done|].
  destruct (streams s !! stream) as [st|]; [|done].
  intros [= <- <-]. eexists. split; [reflexivity|]. reflexivity.
Qed.

(** ** What validity is good for *)

(** X11.  On a descriptor that passes [FormatCheck] no operation faults or fails
    an assertion: [FormatArena] returns its arena, which is valid and whose
    counter is above the descriptor's serial; [FormatDescribe] returns the
    result of the writer, for any sink that is there; and [FormatDestroy]
    runs to its end. *)
Theorem valid_descriptor_runs (format : Addr) (s : State) :
  FormatCheck format s = Done CheckPass s ->
  (exists fs a,
     fmt s format = Some fs /\
     FormatArena format s = Done (FormatStruct.arena fs) s /\
     arn s (FormatStruct.arena fs) = Some a /\ ArenaStruct.sig a = ArenaSig /\
     FormatStruct.serial fs < ArenaStruct.formatSerial a) /\
  (forall stream, stream <> NULL -> is_Some (streams s !! stream) ->
     exists res s',
       FormatDescribe format stream s = Done res s' /\ (res = ResOK \/ res = ResIO)) /\
  (exists s', FormatDestroy format s = Done tt s').
Proof.
  intros Hc. pose proof Hc as (fs & a & Hfs & Ha & Hv & _)%FormatCheck_pass_fields.
  destruct Hv as (_ & Hasig & Hser & _).
  split; [|split].
  - exists fs, a. split; [done|]. split; [by rewrite FormatArena_eq, Hfs|]. done.
  - intros stream Hstream [st Hst]. rewrite FormatDescribe_eq, Hfs, Ha.
    unfold WriteF. rewrite decide_False by done. rewrite Hst. cbv zeta.
    eexists _, _. split; [reflexivity|].
    destruct (WriteF_items_spec
                (describe_items format fs (ArenaStruct.serial a)) st) as [[_ ->]|[_ ->]];
      [by left|by right].
  - destruct (FormatDestroy_runs format s Hc)
      as (? & ? & ? & s' & _ & _ & _ & _ & Hrun & _). eauto.
Qed.

(** ** Construction followed by destruction *)

Lemma fmt_eq_core_ring (x y : option FormatStruct.t) :
  fcore <$> x = fcore <$> y ->
  FormatStruct.arenaRing <$> x = FormatStruct.arenaRing <$> y -> x = y.
Proof.
  destruct x as [x|], y as [y|]; simpl; try done.
  intros Hc Hr. apply (inj Some) in Hc. apply (inj Some) in Hr.
  f_equal. by apply fcore_arenaRing_eq.
Qed.

(** X12.  Destroying the descriptor a construction has just returned undoes the
    construction but for the serial: the ring and the pool of the arena and
    every other descriptor and arena are as they were before the
    construction, and the counter stays stepped. *)
Theorem FormatCreate_FormatDestroy (formatReturn arena : Addr) (alignment : Align)
    (variety : FormatVariety) (scan skip move isMoved copy pad class : Method)
    (s s1 : State) (p : Addr) :
  FormatCreate formatReturn arena alignment variety scan skip move isMoved copy pad class s
    = Done ResOK s1 ->
  words s1 !! formatReturn = Some p ->
  ring_consistent s (ArenaFormatRing arena) = Some true ->
  prev_of s (ArenaFormatRing arena) <> Some (FormatArenaRing p) ->
  exists s2 a,
    FormatDestroy p s1 = Done tt s2 /\
    arn s arena = Some a /\
    arn s2 arena =
      Some (ArenaStruct.set_formatSerial (ArenaStruct.formatSerial a + 1) a) /\
    (forall b, b <> arena -> arn s2 b = arn s b) /\
    (forall f, f <> p -> fmt s2 f = fmt s f) /\
    FormatStruct.sig <$> fmt s2 p = Some SigInvalid /\
    streams s2 = streams s /\
    (forall w, w <> formatReturn -> words s2 !! w = words s !! w).
Proof.
  intros H Hw Hhead Hq.
  destruct (FormatCreate_links _ _ _ _ _ _ _ _ _ _ _ _ _ H) as (p' & a & Hw' & Ha & Hlinks).
  rewrite Hw in Hw'. injection Hw' as <-.
  apply FormatCreate_ok in H
    as (p' & a0 & rest & fs & a' & _ & Ha0 & Hpool & _ & Hw' & Hfs & Hfc & Ha' & Hac
        & Fo & Ao & Hst & Wo & Hc).
  rewrite Hw in Hw'. injection Hw' as <-.
  rewrite Ha in Ha0. injection Ha0 as <-.
  assert (Hprev : prev_of s (ArenaFormatRing arena)
                  = Some (RingStruct.prev (ArenaStruct.formatRing a))).
  { unfold prev_of. simpl. by rewrite Ha. }
  assert (Hqp : RingStruct.prev (ArenaStruct.formatRing a) <> FormatArenaRing p).
  { intros Heq. apply Hq. by rewrite Hprev, Heq. }
  destruct (Hlinks Hqp) as [Lnext Lprev].
  apply ring_consistent_links in Hhead as (hn & hp & _ & _ & Hhp & Hhpn).
  rewrite Hprev in Hhp. injection Hhp as <-.
  set (q := RingStruct.prev (ArenaStruct.formatRing a)) in *.
  set (new := FormatArenaRing p) in *. set (head := ArenaFormatRing arena) in *.
  destruct (FormatDestroy_runs p s1 Hc)
    as (fs1 & a1 & s1' & s2 & Hfs1 & Ha1 & _ & _ & Hrun & Hfs2 & _ & _ & Hw2 & Hst2).
  rewrite Hfs in Hfs1. injection Hfs1 as <-.
  assert (Har : FormatStruct.arena fs = arena).
  { destruct fs. unfold fcore in Hfc. simpl in Hfc. by injection Hfc. }
  destruct (FormatDestroy_frame _ _ _ _ Hrun) as (Fo2 & _).
  destruct (FormatDestroy_arenas _ _ _ _ Hrun) as (fs0 & Hfs0 & Hao).
  rewrite Hfs in Hfs0. injection Hfs0 as <-. rewrite Har in Hao.
  destruct (FormatDestroy_links _ _ _ _ Hrun)
    as (dn & dp & Hdn & _ & Hdp & _ & Dnext & Dprev & _).
  fold new in Hdn, Hdp, Dnext, Dprev.
  rewrite Lnext, decide_True in Hdn by done. injection Hdn as <-.
  rewrite Lprev, decide_True in Hdp by done. injection Hdp as <-.
  assert (Hnode : forall z, z <> new -> node s2 z = node s z).
  { intros z Hz. apply node_eq_links.
    - rewrite Dnext, Lnext by done. rewrite (decide_False (P := z = new)) by done.
      destruct (decide (z = q)) as [->|]; done.
    - rewrite Dprev, Lprev by done. rewrite (decide_False (P := z = new)) by done.
      destruct (decide (z = head)) as [->|]; [by rewrite Hprev|done]. }
  exists s2, a. split; [done|]. split; [done|].
  split.
  { specialize (Hao arena). rewrite Ha' in Hao.
    destruct (arn s2 arena) as [a2|] eqn:Ha2; [|done].
    destruct Hao as (Hsig & Hser & Hctr & Hp2). rewrite decide_True in Hp2 by done.
    pose proof (Hnode head ltac:(done)) as Hh. simpl in Hh. rewrite Ha2, Ha in Hh.
    injection Hh as Hh.
    destruct a as [asig aser actr aring apool], a' as [asig' aser' actr' aring' apool'],
      a2 as [asig2 aser2 actr2 aring2 apool2].
    unfold acore in Hac. simpl in *. injection Hac as -> -> -> ->.
    by subst. }
  split.
  { intros b Hb. specialize (Hao b). specialize (Ao b Hb).
    pose proof (Hnode (ArenaFormatRing b) ltac:(done)) as Hh. simpl in Hh.
    destruct (arn s b) as [x|], (arn s1 b) as [x1|], (arn s2 b) as [x2|];
      simpl in *; try done.
    destruct Hao as (Hsig & Hser & Hctr & Hp2). rewrite decide_False in Hp2 by done.
    apply (inj Some) in Ao. injection Hh as Hh.
    destruct x, x1, x2. unfold acore in Ao. simpl in *. injection Ao as -> -> -> ->.
    by subst. }
  split.
  { intros f Hf. apply fmt_eq_core_ring.
    - by rewrite Fo2, Fo.
    - apply (Hnode (FormatArenaRing f)). intros [= ->]. done. }
  split; [by rewrite Hfs2|].
  split; [by rewrite Hst2|].
  intros w Hne. rewrite Hw2. by apply Wo.
Qed.

(** ** Serials in a run *)

(** One step either issues no serial in [arena] and leaves its counter, or
    issues the counter and steps it, without wrapping. *)
Lemma client_step_counter_exact op s l s' arena c :
  client_step op s = Done l s' -> counter s arena = Some c ->
  (serials_in arena l = [] /\ counter s' arena = Some c) \/
  (serials_in arena l = [c] /\ counter s' arena = Some (c + 1) /\
   c + 1 < 2 ^ MPS_WORD_WIDTH).
Proof.
  destruct op as [formatReturn arena0 alignment variety scan skip move isMoved copy pad class
                 |format]; simpl; intros H Hctr.
  - apply bind_Done in H as (res & s1 & Hcreate & H).
    destruct (decide (res = ResOK)) as [->|Hres].
    + apply bind_Done in H as (format & s2 & Hload & H).
      apply bind_Done in H as (n & s3 & Hget & H).
      injection H as <- <-.
      pose proof Hcreate as Hinv.
      apply FormatCreate_Done_inv in Hinv as (_ & a0 & Ha0 & [(_ & [=] & _)|Hinv]).
      destruct Hinv as (p0 & rest0 & s4 & _ & Hp0 & _ & _ & Hc & _).
      destruct (created_FormatCheck_verdict arena0 a0 p0 rest0 alignment variety scan skip
                  move isMoved copy pad class s Hp0 Ha0) as [_ Hvalid].
      destruct (Hvalid Hc) as (_ & Hbound & _).
      apply FormatCreate_ok in Hcreate
        as (p & ar & rest & fs & ar' & Hfr & Har & _ & _ & Hw & Hfs & Hfc & Har' & Hac & _ & Ao & _).
      rewrite Ha0 in Har. injection Har as <-.
      rewrite word_load_eq, decide_False, Hw in Hload by done. injection Hload as <- <-.
      rewrite format_get_eq, Hfs in Hget. injection Hget as <- <-.
      assert (Hser : FormatStruct.serial fs = ArenaStruct.formatSerial a0).
      { destruct fs. unfold fcore in Hfc. simpl in Hfc. by simplify_eq. }
      assert (Hnext : ArenaStruct.formatSerial ar' = ArenaStruct.formatSerial a0 + 1).
      { destruct ar'. unfold acore in Hac. simpl in Hac. by simplify_eq. }
      unfold serials_in, counter in *.
      destruct (decide (arena0 = arena)) as [->|Hne].
      * right. rewrite filter_cons_True by done. simpl.
        rewrite Ha0 in Hctr. injection Hctr as <-.
        rewrite Har'. simpl. by rewrite Hser, Hnext.
      * left. rewrite filter_cons_False by done. split; [done|].
        specialize (Ao arena ltac:(done)).
        destruct (arn s arena) as [x|]; [|done].
        destruct (arn s1 arena) as [x'|]; [|done].
        apply (inj Some) in Ao. destruct x, x'. unfold acore in Ao. simpl in *.
        by simplify_eq.
    + injection H as <- <-. left. split; [done|].
      apply FormatCreate_Done_inv in Hcreate as (_ & ar & _ & [(_ & _ & ->)|Hok]); [done|].
      by destruct Hok as (? & ? & ? & _ & _ & ? & _).
  - apply bind_Done in H as (u & s1 & Hdestroy & H). injection H as <- <-.
    left. split; [done|].
    apply FormatDestroy_frame in Hdestroy as (_ & _ & Hc & _).
    unfold counter in *. by rewrite Hc.
Qed.

Lemma client_run_counter_exact ops s log s' arena c :
  client_run ops s = Done log s' -> counter s arena = Some c ->
  exists n,
    serials_in arena log = (fun k => c + N.of_nat k) <$> seq 0 n /\
    counter s' arena = Some (c + N.of_nat n) /\
    (n <> 0%nat -> c + N.of_nat n < 2 ^ MPS_WORD_WIDTH).
Proof.
  revert s log s' c. induction ops as [|op ops IH]; simpl; intros s log s' c H Hctr.
  - injection H as <- <-. exists 0%nat. split; [done|]. split; [|done].
    by rewrite N.add_0_r.
  - apply bind_Done in H as (l1 & s1 & Hstep & H).
    apply bind_Done in H as (l2 & s2 & Hrun & H). injection H as <- <-.
    rewrite serials_in_app.
    destruct (client_step_counter_exact _ _ _ _ _ _ Hstep Hctr)
      as [[-> Hc1]|(-> & Hc1 & Hb1)].
    + destruct (IH _ _ _ _ Hrun Hc1) as (n & Hn & Hc' & Hb). by exists n.
    + destruct (IH _ _ _ _ Hrun Hc1) as (n & Hn & Hc' & Hb).
      exists (S n). split; [|split].
      * rewrite Hn. simpl. rewrite N.add_0_r. f_equal.
        rewrite <- fmap_S_seq, <- list_fmap_compose.
        apply list_fmap_ext. intros i k _. simpl. lia.
      * rewrite Hc'. f_equal. lia.
      * intros _. destruct n as [|n]; [simpl; lia|].
        specialize (Hb ltac:(done)). lia.
Qed.

(** X13.  The serials issued in an arena over a run are consecutive, from the
    counter at the start of the run; the counter at the end is the counter
    at the start plus the number of constructions that succeeded, whatever
    was destroyed in between; and it has not wrapped. *)
Theorem serials_consecutive (ops : list Op) (s s' : State) (log : list Issued)
    (arena : Addr) (c : Serial) :
  client_run ops s = Done log s' ->
  counter s arena = Some c ->
  serials_in arena log =
    (fun k => c + N.of_nat k) <$> seq 0 (length (serials_in arena log)) /\
  counter s' arena = Some (c + N.of_nat (length (serials_in arena log))) /\
  (serials_in arena log <> [] ->
   c + N.of_nat (length (serials_in arena log)) < 2 ^ MPS_WORD_WIDTH).
Proof.
  intros H Hctr.
  destruct (client_run_counter_exact _ _ _ _ _ _ H Hctr) as (n & Hn & Hc' & Hb).
  assert (Hlen : length (serials_in arena log) = n).
  { by rewrite Hn, length_fmap, length_seq. }
  rewrite Hlen. split; [done|]. split; [done|].
  intros Hne. apply Hb. intros ->. by rewrite Hn in Hne.
Qed.

(** ** An arena and its formats, over a run *)

Lemma path_middle s x l1 z y l3 :
  path s x (l1 ++ z :: y :: l3) ->
  (exists p, prev_of s z = Some p /\ next_of s p = Some z) /\
  next_of s z = Some y /\ prev_of s y = Some z.
Proof.
  revert x. induction l1 as [|w l1 IH]; intros x; simpl.
  - intros (Hxz & Hzx & Hzy & Hyz & _). eauto.
  - intros (_ & _ & Hp). by apply (IH w).
Qed.

(** The links of every member of a ring agree. *)
Lemma ring_members_consistent s head l z :
  ring_members s head l -> z ∈ l -> ring_consistent s z = Some true.
Proof.
  intros [_ Hpath] Hz. apply list_elem_of_split in Hz as (l1 & l2 & ->).
  rewrite <- app_assoc in Hpath. simpl in Hpath.
  apply ring_consistent_links.
  destruct l2 as [|y l2]; simpl in Hpath;
    apply path_middle in Hpath as ((p & Hp & Hpn) & Hn & Hnp);
    eexists _, p; by repeat split.
Qed.

Lemma filter_FormatArenaRing format (l : list Addr) :
  filter (fun r => r <> FormatArenaRing format) (FormatArenaRing <$> l) =
  FormatArenaRing <$> filter (fun f => f <> format) l.
Proof.
  induction l as [|f l IH]; [done|]. rewrite fmap_cons.
  destruct (decide (f = format)) as [->|Hne].
  - rewrite (filter_cons_False (fun r => r <> FormatArenaRing format))
      by (intros H; by apply H).
    by rewrite (filter_cons_False (fun f => f <> format)) by (intros H; by apply H).
  - rewrite (filter_cons_True (fun r => r <> FormatArenaRing format))
      by (intros [= ?]; done).
    rewrite (filter_cons_True (fun f => f <> format)) by done.
    rewrite fmap_cons. by rewrite IH.
Qed.

Lemma StronglySorted_impl_elem {A} (R R' : relation A) l :
  (forall x y, x ∈ l -> y ∈ l -> R x y -> R' x y) ->
  StronglySorted R l -> StronglySorted R' l.
Proof.
  intros HR Hs. induction Hs as [|x l Hs IH Hall]; constructor.
  - apply IH. intros y z Hy Hz. apply HR; by right.
  - rewrite Forall_forall in *. intros y Hy. apply HR; [by left|by right|by apply Hall].
Qed.

Lemma StronglySorted_filter {A} (R : relation A) (P : A -> Prop)
    `{forall x, Decision (P x)} l :
  StronglySorted R l -> StronglySorted R (filter P l).
Proof.
  induction 1 as [|x l Hs IH Hall]; [constructor|].
  destruct (decide (P x)).
  - rewrite filter_cons_True by done. constructor; [done|].
    rewrite Forall_forall in *. intros y [_ Hy]%list_elem_of_filter. by apply Hall.
  - by rewrite filter_cons_False.
Qed.

Lemma serial_before_fcore s s' f g :
  fcore <$> fmt s' f = fcore <$> fmt s f ->
  fcore <$> fmt s' g = fcore <$> fmt s g ->
  serial_before s f g -> serial_before s' f g.
Proof.
  intros Hf Hg (fs & gs & Hfs & Hgs & Hlt). rewrite Hfs in Hf. rewrite Hgs in Hg.
  destruct (fmt s' f) as [fs'|] eqn:Hfs'; [|done].
  destruct (fmt s' g) as [gs'|] eqn:Hgs'; [|done].
  apply (inj Some) in Hf. apply (inj Some) in Hg.
  exists fs', gs'. split; [done|]. split; [done|].
  destruct fs, fs', gs, gs'. unfold fcore in *. simpl in *. by simplify_eq.
Qed.

Lemma filter_ne_notin (f : Addr) (l : list Addr) :
  f ∉ l -> filter (fun x => x <> f) l = l.
Proof.
  induction l as [|x l IH]; [done|]. intros Hn.
  rewrite filter_cons_True by (intros ->; apply Hn; by left).
  f_equal. apply IH. intros Hin. apply Hn. by right.
Qed.

Lemma filter_ne_Permutation (f : Addr) (l : list Addr) :
  NoDup l -> f ∈ l -> f :: filter (fun x => x <> f) l ≡ₚ l.
Proof.
  induction l as [|x l IH]; intros Hnd Hin; [by apply elem_of_nil in Hin|].
  apply NoDup_cons in Hnd as [Hx Hnd].
  destruct (decide (x = f)) as [->|Hne].
  - rewrite filter_cons_False by (intros H; by apply H).
    by rewrite filter_ne_notin.
  - rewrite filter_cons_True by done.
    apply elem_of_cons in Hin as [->|Hin]; [done|].
    rewrite Permutation_swap. by rewrite IH.
Qed.

(** In a store that agrees with a view, the descriptors that pass
    [FormatCheck] are the live ones. *)
Lemma heap_ok_FormatCheck s arena v format :
  heap_ok s arena v ->
  FormatCheck format s = Done CheckPass s <-> format ∈ view_live v.
Proof.
  intros (a & Ha & Hasig & Hpool & Hctr & Hring & Hnd & Hsorted & Hstore & Hclosed & Hlive). split.
  - intros (fs & a' & Hfs & _ & Hv & _)%FormatCheck_pass_fields.
    eapply Hclosed; [done|]. by destruct Hv.
  - intros Hin. destruct (Hlive _ Hin) as (fs & Hfs & Har & Hv).
    apply FormatCheck_pass_fields. exists fs, a.
    split; [done|]. split; [by rewrite Har|]. split; [done|].
    eapply ring_members_consistent; [done|]. by apply list_elem_of_fmap_2.
Qed.

Lemma fcore_is_Some (x y : option FormatStruct.t) :
  fcore <$> x = fcore <$> y -> is_Some y -> is_Some x.
Proof. destruct x, y; simpl; done. Qed.

(** A construction in a store that agrees with a view: the store it
    returns agrees with the view after the construction, and its result is
    the one the view gives. *)
Lemma heap_ok_create formatReturn arena alignment variety
    scan skip move isMoved copy pad class s res s' v :
  heap_ok s arena v ->
  FormatCreate formatReturn arena alignment variety scan skip move isMoved copy pad class s
    = Done res s' ->
  heap_ok s' arena
    (view_step v (OpCreate formatReturn arena alignment variety
                    scan skip move isMoved copy pad class)) /\
  match view_free v with
  | [] => res = ResMEMORY
  | p :: _ =>
      res = ResOK /\ words s' !! formatReturn = Some p /\
      FormatStruct.serial <$> fmt s' p = Some (view_next v)
  end.
Proof.
  intros (a & Ha & Hasig & Hpool & Hctr & Hring & Hnd & Hsorted & Hstore & Hclosed & Hlive) H.
  pose proof H as Hinv.
  apply FormatCreate_Done_inv in Hinv as (_ & a0 & Ha0 & Hinv).
  rewrite Ha in Ha0. injection Ha0 as <-. simpl.
  destruct Hinv as [(Hnil & -> & ->)|(p & rest & s4 & Hcons & _ & -> & _)].
  { assert (Hfree : view_free v = []) by (by rewrite <- Hpool).
    rewrite Hfree. split; [|done]. by exists a. }
  rewrite <- Hpool, Hcons. rewrite Hcons in Hpool.
  pose proof H as Hok.
  apply FormatCreate_ok in Hok
    as (p' & a0 & rest' & fs & a' & _ & Ha0 & Hpool' & _ & Hw & Hfs & Hfc & Ha' & Hac
        & Fo & _ & _ & _ & Hc).
  rewrite Ha in Ha0. injection Ha0 as <-.
  rewrite Hcons in Hpool'. injection Hpool' as <- <-.
  assert (Hpl : p ∉ view_live v).
  { intros Hin. rewrite <- Hpool in Hnd. apply NoDup_app in Hnd as (_ & Hdis & _).
    apply (Hdis p Hin). by left. }
  assert (Hpr : p ∉ rest).
  { rewrite <- Hpool in Hnd. apply NoDup_app in Hnd as (_ & _ & Hnd).
    by apply NoDup_cons in Hnd as [? _]. }
  assert (Ha'f : ArenaStruct.sig a' = ArenaSig /\ ArenaStruct.controlPool a' = rest /\
                 ArenaStruct.formatSerial a' = ArenaStruct.formatSerial a + 1).
  { destruct a, a'. unfold acore in Hac. simpl in *. by simplify_eq. }
  destruct Ha'f as (Hasig' & Hpool' & Hctr').
  assert (Hfsf : FormatStruct.arena fs = arena /\
                 FormatStruct.serial fs = ArenaStruct.formatSerial a).
  { destruct fs. unfold fcore in Hfc. simpl in Hfc. by simplify_eq. }
  destruct Hfsf as (Har & Hser).
  split; [|by rewrite Hfs; simpl; rewrite Hser, Hctr].
  exists a'. split; [done|]. split; [done|]. split; [done|].
  split; [simpl; by rewrite Hctr', Hctr|].
  split.
  { simpl. rewrite fmap_app. simpl.
    eapply FormatCreate_appends; [exact H|done|done|].
    intros Hin%list_elem_of_fmap_inj_2; [done|]. by intros ?? [=]. }
  split.
  { simpl. rewrite <- app_assoc. simpl. by rewrite Hpool. }
  split.
  { simpl. apply StronglySorted_app_2.
    - intros f g Hf Hg%list_elem_of_singleton. subst g.
      destruct (Hlive _ Hf) as (fs0 & Hfs0 & _ & Hv).
      assert (Hne : f <> p) by (by intros ->).
      pose proof (Fo f Hne) as Hfr. rewrite Hfs0 in Hfr.
      destruct (fmt s' f) as [fs'|] eqn:Hfs'; [|done]. apply (inj Some) in Hfr.
      exists fs', fs. split; [done|]. split; [done|].
      rewrite Hser. destruct Hv as (_ & _ & Hlt & _).
      destruct fs0, fs'. unfold fcore in Hfr. simpl in *. by simplify_eq.
    - eapply StronglySorted_impl_elem; [|exact Hsorted].
      intros f g Hf Hg. apply serial_before_fcore; apply Fo; by intros ->.
    - repeat constructor. }
  split.
  { simpl. intros q Hq. eapply fcore_is_Some.
    - apply Fo. by intros ->.
    - apply Hstore. rewrite <- Hpool. by right. }
  split.
  { simpl. intros f fs' Hfs' Hsig. apply elem_of_app.
    destruct (decide (f = p)) as [->|Hne]; [right; by left|left].
    specialize (Fo f Hne). rewrite Hfs' in Fo.
    destruct (fmt s f) as [fs0|] eqn:Hfs0; [|done]. apply (inj Some) in Fo.
    eapply Hclosed; [done|].
    destruct fs0, fs'. unfold fcore in Fo. simpl in *. by simplify_eq. }
  simpl. intros f [Hin|Hin%list_elem_of_singleton]%elem_of_app.
  - destruct (Hlive _ Hin) as (fs0 & Hfs0 & Har0 & Hv).
    assert (Hne : f <> p) by (by intros ->).
    specialize (Fo f Hne). rewrite Hfs0 in Fo.
    destruct (fmt s' f) as [fs'|] eqn:Hfs'; [|done]. apply (inj Some) in Fo.
    exists fs'. split; [done|]. split.
    + destruct fs0, fs'. unfold fcore in Fo. simpl in *. by simplify_eq.
    + eapply fields_valid_fcore; [done| | |done].
      * by rewrite Hasig, Hasig'.
      * lia.
  - subst f.
    apply FormatCheck_pass_fields in Hc as (fs1 & a1 & Hfs1 & Ha1 & Hv & _).
    rewrite Hfs in Hfs1. injection Hfs1 as <-.
    rewrite Har, Ha' in Ha1. injection Ha1 as <-.
    by exists fs.
Qed.

(** A destruction in a store that agrees with a view: the descriptor was
    live, and the store it returns agrees with the view after the
    destruction. *)
Lemma heap_ok_destroy format arena s s' v :
  heap_ok s arena v ->
  FormatDestroy format s = Done tt s' ->
  heap_ok s' arena (view_step v (OpDestroy format)).
Proof.
  intros Hok Hd.
  pose proof (FormatDestroy_Done_valid _ _ _ _ Hd) as Hc.
  pose proof (proj1 (heap_ok_FormatCheck _ _ _ format Hok) Hc) as Hin.
  destruct Hok as (a & Ha & Hasig & Hpool & Hctr & Hring & Hnd & Hsorted & Hstore & Hclosed & Hlive).
  destruct (Hlive _ Hin) as (fs & Hfs & Har & Hv).
  destruct (FormatDestroy_frame _ _ _ _ Hd) as (Fo & (fs0 & Hfs0 & Hdead) & _).
  rewrite Hfs in Hfs0. injection Hfs0 as <-.
  destruct (FormatDestroy_arenas _ _ _ _ Hd) as (fs0 & Hfs0 & Hao).
  rewrite Hfs in Hfs0. injection Hfs0 as <-.
  destruct (FormatDestroy_links _ _ _ _ Hd)
    as (n & p & Hn & Hnp & Hp & Hpn & Lnext & Lprev & _).
  specialize (Hao arena). rewrite Ha, Har in Hao.
  destruct (arn s' arena) as [a'|] eqn:Ha'; [|done].
  destruct Hao as (Hasig' & _ & Hctr' & Hpool'). rewrite decide_True in Hpool' by done.
  apply NoDup_app in Hnd as (Hnd1 & Hdis & Hnd2).
  exists a'. split; [done|]. split; [by rewrite Hasig'|].
  split; [simpl; by rewrite Hpool', Hpool|].
  split; [simpl; by rewrite Hctr'|].
  split.
  { simpl. rewrite <- filter_FormatArenaRing.
    by eapply (ring_members_remove s s' (FormatArenaRing format) n p). }
  split.
  { simpl. apply NoDup_app. split; [by apply NoDup_filter|]. split.
    - intros x [Hx Hxl]%list_elem_of_filter [->|Hxp]%elem_of_cons; [done|].
      by apply (Hdis x).
    - apply NoDup_cons. split; [by apply Hdis|done]. }
  split.
  { simpl. eapply StronglySorted_impl_elem; [|by apply StronglySorted_filter].
    intros f g [Hf _]%list_elem_of_filter [Hg _]%list_elem_of_filter.
    apply serial_before_fcore; by apply Fo. }
  split.
  { simpl. intros q [->|Hq]%elem_of_cons.
    - destruct (fmt s' format); [by eexists|done].
    - eapply fcore_is_Some; [|by apply Hstore].
      apply Fo. intros ->. by apply (Hdis format). }
  split.
  { simpl. intros f fs' Hfs' Hsig. apply list_elem_of_filter.
    assert (Hne : f <> format).
    { intros ->. rewrite Hfs' in Hdead. apply (inj Some) in Hdead.
      destruct fs, fs'. unfold fcore in Hdead. simpl in *. by simplify_eq. }
    split; [done|].
    specialize (Fo f Hne). rewrite Hfs' in Fo.
    destruct (fmt s f) as [fs1|] eqn:Hfs1; [|done]. apply (inj Some) in Fo.
    eapply Hclosed; [done|].
    destruct fs1, fs'. unfold fcore in Fo. simpl in *. by simplify_eq. }
  simpl. intros f [Hne Hf]%list_elem_of_filter.
  destruct (Hlive _ Hf) as (fs1 & Hfs1 & Har1 & Hv1).
  specialize (Fo f Hne). rewrite Hfs1 in Fo.
  destruct (fmt s' f) as [fs'|] eqn:Hfs'; [|done]. apply (inj Some) in Fo.
  exists fs'. split; [done|]. split.
  - destruct fs1, fs'. unfold fcore in Fo. simpl in *. by simplify_eq.
  - eapply fields_valid_fcore; [done|done| |done]. rewrite Hctr'. lia.
Qed.

Lemma heap_ok_step op arena s l s' v :
  heap_ok s arena v -> creates_in arena op ->
  client_step op s = Done l s' ->
  heap_ok s' arena (view_step v op) /\ l = view_issue arena v op /\
  view_live (view_step v op) ++ view_free (view_step v op) ≡ₚ view_live v ++ view_free v.
Proof.
  intros Hok Hin H.
  destruct op as [formatReturn arena0 alignment variety scan skip move isMoved copy pad class
                 |format]; simpl in Hin, H.
  - subst arena0.
    apply bind_Done in H as (res & s1 & Hcreate & H).
    destruct (heap_ok_create _ _ _ _ _ _ _ _ _ _ _ _ _ _ _ Hok Hcreate) as [Hok1 Hres].
    unfold view_issue. simpl in Hok1 |- *.
    destruct (view_free v) as [|p rest] eqn:Hfree.
    + subst res. rewrite decide_False in H by done. injection H as <- <-.
      split; [done|]. split; [done|]. by rewrite Hfree.
    + destruct Hres as (-> & Hw & Hser). rewrite decide_True in H by done.
      apply bind_Done in H as (format & s2 & Hload & H).
      apply bind_Done in H as (n & s3 & Hget & H).
      injection H as <- <-.
      rewrite word_load_eq in Hload. destruct (decide (formatReturn = NULL)); [done|].
      rewrite Hw in Hload. injection Hload as <- <-.
      rewrite format_get_eq in Hget. destruct (fmt s1 p) as [fs|]; [|done].
      injection Hget as <- <-. simpl in Hser. injection Hser as ->.
      split; [done|]. split; [done|]. simpl. by rewrite <- app_assoc.
  - apply bind_Done in H as (u & s1 & Hdestroy & H). injection H as <- <-.
    destruct u. split; [by eapply heap_ok_destroy|]. split; [done|]. simpl.
    pose proof (FormatDestroy_Done_valid _ _ _ _ Hdestroy) as Hc.
    apply (heap_ok_FormatCheck _ _ _ format Hok) in Hc.
    destruct Hok as (a & _ & _ & _ & _ & _ & Hnd & _).
    apply NoDup_app in Hnd as (Hnd & _ & _).
    rewrite <- Permutation_middle, app_comm_cons.
    by rewrite filter_ne_Permutation.
Qed.

(** X14.  Over a run of constructions in [arena] and destructions that comes to
    its end, the store follows the view: the client has received the blocks
    and serials the view gives, the descriptors that pass [FormatCheck] are
    the ones constructed and not destroyed so far, the ring of the arena
    lists them in the order of their construction, with increasing
    serials, the pool is a stack of the blocks freed, the counter counts the
    constructions, and every block is still either live or free. *)
Theorem client_run_view (ops : list Op) (s s' : State) (log : list Issued)
    (arena : Addr) (v : ArenaView) :
  heap_ok s arena v ->
  Forall (creates_in arena) ops ->
  client_run ops s = Done log s' ->
  log = view_log arena v ops /\
  heap_ok s' arena (view_run v ops) /\
  (forall format,
     FormatCheck format s' = Done CheckPass s' <-> format ∈ view_live (view_run v ops)) /\
  ring_members s' (ArenaFormatRing arena) (FormatArenaRing <$> view_live (view_run v ops)) /\
  StronglySorted (serial_before s') (view_live (view_run v ops)) /\
  ArenaStruct.controlPool <$> arn s' arena = Some (view_free (view_run v ops)) /\
  counter s' arena = Some (view_next (view_run v ops)) /\
  view_live (view_run v ops) ++ view_free (view_run v ops) ≡ₚ view_live v ++ view_free v.
Proof.
  intros Hok Hops H.
  assert (Hok' : log = view_log arena v ops /\ heap_ok s' arena (view_run v ops) /\
                 view_live (view_run v ops) ++ view_free (view_run v ops)
                 ≡ₚ view_live v ++ view_free v).
  { revert s log s' v Hok Hops H.
    induction ops as [|op ops IH]; simpl; intros s log s' v Hok Hops H.
    - by injection H as <- <-.
    - apply bind_Done in H as (l1 & s1 & Hstep & H).
      apply bind_Done in H as (l2 & s2 & Hrun & H). injection H as <- <-.
      apply Forall_cons in Hops as [Hop Hops].
      destruct (heap_ok_step _ _ _ _ _ _ Hok Hop Hstep) as (Hok1 & -> & Hperm1).
      destruct (IH _ _ _ _ Hok1 Hops Hrun) as (-> & Hok2 & Hperm2).
      split; [done|]. split; [done|]. by rewrite Hperm2. }
  destruct Hok' as (Hlog & Hok' & Hperm).
  split; [done|]. split; [done|].
  split; [intros format; exact (heap_ok_FormatCheck s' arena _ format Hok')|].
  destruct Hok' as (a & Ha & Hasig & Hpool & Hctr & Hring & _ & Hsorted & _).
  split; [done|]. split; [done|].
  unfold counter. rewrite Ha. simpl. by rewrite Hpool, Hctr.
Qed.

(** ** Runs that come to their end *)

Lemma heap_ok_prev_Some s arena v a :
  heap_ok s arena v -> arn s arena = Some a ->
  is_Some (node s (RingStruct.prev (ArenaStruct.formatRing a))).
Proof.
  intros (a0 & Ha0 & _ & _ & _ & [_ Hpath] & _) Ha.
  rewrite Ha in Ha0. injection Ha0 as <-.
  destruct (path_last _ _ _ _ Hpath) as (z & Hz & Hpz).
  unfold prev_of in Hpz. simpl in Hpz. rewrite Ha in Hpz. injection Hpz as ->.
  apply elem_of_cons in Hz as [Hz|Hz].
  - rewrite Hz. simpl. rewrite Ha. by eexists.
  - eapply path_is_Some; [exact Hpath|]. apply elem_of_app. by left.
Qed.

Lemma client_step_words op s l s' w :
  client_step op s = Done l s' -> is_Some (words s !! w) -> is_Some (words s' !! w).
Proof.
  destruct op as [formatReturn arena0 alignment variety scan skip move isMoved copy pad class
                 |format]; simpl; intros H Hw.
  - apply bind_Done in H as (res & s1 & Hcreate & H).
    assert (s' = s1) as ->.
    { destruct (decide (res = ResOK)).
      - apply bind_Done in H as (format & s2 & Hload & H).
        apply bind_Done in H as (n & s3 & Hget & H).
        injection H as <- <-.
        rewrite word_load_eq in Hload. destruct (decide (formatReturn = NULL)); [done|].
        destruct (words s1 !! formatReturn); [|done]. injection Hload as <- <-.
        rewrite format_get_eq in Hget. destruct (fmt s1 _); [|done].
        by injection Hget as <- <-.
      - by injection H as <- <-. }
    destruct (decide (res = ResOK)) as [->|Hres].
    + apply FormatCreate_ok in Hcreate
        as (p & a & rest & fs & a' & _ & _ & _ & _ & Hp & _ & _ & _ & _ & _ & _ & _ & Wo & _).
      destruct (decide (w = formatReturn)) as [->|Hne]; [by eexists|].
      by rewrite Wo.
    + apply FormatCreate_Done_inv in Hcreate as (_ & a & _ & [(_ & _ & ->)|Hok]); [done|].
      by destruct Hok as (? & ? & ? & _ & _ & ? & _).
  - apply bind_Done in H as (u & s1 & Hdestroy & H). injection H as <- <-.
    apply FormatDestroy_frame in Hdestroy as (_ & _ & _ & -> & _). done.
Qed.

Lemma ops_ok_words arena s s' v ops :
  (forall w, is_Some (words s !! w) -> is_Some (words s' !! w)) ->
  ops_ok arena s v ops -> ops_ok arena s' v ops.
Proof.
  intros Hw. revert v. induction ops as [|op ops IH]; simpl; intros v; [done|].
  intros [Hop Hops]. split; [|by apply IH].
  destruct op; simpl in *; [|done].
  destruct Hop as (? & ? & ? & ?). auto.
Qed.

(** An operation the view allows runs to its end. *)
Lemma heap_ok_step_runs op arena s v :
  heap_ok s arena v -> op_ok arena s v op ->
  exists l s', client_step op s = Done l s'.
Proof.
  intros Hok Hop.
  destruct op as [formatReturn arena0 alignment variety scan skip move isMoved copy pad class
                 |format]; simpl in *.
  - destruct Hop as (-> & Hfr & Hw & Hargs).
    pose proof Hok as (a & Ha & Hasig & Hpool & Hctr & Hring & Hnd & Hsorted & Hstore & Hclosed & Hlive).
    destruct (view_free v) as [|p rest] eqn:Hfree.
    + unfold bind at 1. rewrite FormatCreate_eq, decide_False, Ha, Hpool by done.
      rewrite decide_False by done. by eexists _, _.
    + destruct (Hargs ltac:(done)) as (Hbound & Hvar & Hcv & Hal & Hscan & Hskip & Hmove
                                       & HisMoved & Hcopy & Hpad).
      destruct (FormatCreate_runs formatReturn arena alignment variety scan skip move
                  isMoved copy pad class s a p rest) as [s1 Hrun]; try done.
      { by rewrite Hctr. }
      { by eapply heap_ok_prev_Some. }
      { destruct (Hstore p ltac:(by left)) as [x Hx]. by rewrite Hx. }
      unfold bind at 1. rewrite Hrun. rewrite decide_True by done.
      apply FormatCreate_ok in Hrun
        as (p' & a0 & rest' & fs & a' & _ & _ & _ & _ & Hp & Hfs & _).
      unfold bind at 1. rewrite word_load_eq, decide_False, Hp by done.
      unfold bind at 1. rewrite format_get_eq, Hfs. by eexists _, _.
  - apply (heap_ok_FormatCheck _ _ _ format Hok) in Hop.
    destruct (FormatDestroy_runs format s Hop)
      as (fs & a & s1 & s' & _ & _ & _ & _ & Hrun & _).
    unfold bind. rewrite Hrun. by eexists _, _.
Qed.

(** X15.  A run of operations the view allows comes to its end, with no failed
    assertion and no fault: it returns the blocks and serials the view
    gives, in a store that agrees with the view after the run. *)
Theorem client_run_total (ops : list Op) (s : State) (arena : Addr) (v : ArenaView) :
  heap_ok s arena v ->
  ops_ok arena s v ops ->
  exists s',
    client_run ops s = Done (view_log arena v ops) s' /\
    heap_ok s' arena (view_run v ops).
Proof.
  revert s v. induction ops as [|op ops IH]; simpl; intros s v Hok Hops.
  - by exists s.
  - destruct Hops as [Hop Hops].
    destruct (heap_ok_step_runs _ _ _ _ Hok Hop) as (l & s1 & Hstep).
    assert (Hin : creates_in arena op).
    { destruct op; simpl in *; [by destruct Hop|done]. }
    destruct (heap_ok_step _ _ _ _ _ _ Hok Hin Hstep) as (Hok1 & -> & _).
    destruct (IH s1 (view_step v op) Hok1) as (s' & Hrun & Hok').
    { eapply ops_ok_words; [|done]. intros w. by eapply client_step_words. }
    exists s'. split; [|done].
    unfold bind at 1. rewrite Hstep. unfold bind. by rewrite Hrun.
Qed.

End Format.

(** ** A concrete store *)

(** The alignment predicate of the concrete runs below: a positive power of
    two. *)
Definition AlignCheck_pow2 (alignment : Align) : bool :=
  (0 <? alignment) && (N.land alignment (alignment - 1) =? 0).

(** An arena at [0x1000] with an empty ring of formats, counter 0 and two
    free blocks; a cell at [0x10] for [formatReturn]; a client object at
    [0x5000]; a sink at [0x7000]. *)
Definition junk : FormatStruct.t :=
  FormatStruct.Build 0 0 0 (RingStruct.Build RingNONE RingNONE) 0 (FormatVarietyOther 7)
    MethodNULL MethodNULL MethodNULL MethodNULL MethodNULL MethodNULL MethodNULL.

Definition arena0 : ArenaStruct.t :=
  ArenaStruct.Build ArenaSig 0 0
    (RingStruct.Build (ArenaFormatRing 0x1000) (ArenaFormatRing 0x1000))
    [0x2000; 0x3000].

Definition store0 : State :=
  mkState (<[0x2000 := junk]> (<[0x3000 := junk]> ∅))
          (<[0x1000 := arena0]> ∅)
          (<[0x10 := 0]> (<[0x5000 := 0xC1A55]> ∅))
          (<[0x7000 := StreamStruct.Build [] 20%nat]> ∅).

(** The same with nothing left in the pool. *)
Definition store_exhausted : State :=
  with_arenas (<[0x1000 := ArenaStruct.set_controlPool [] arena0]> ∅) store0.

Definition create_A : M Res :=
  FormatCreate AlignCheck_pow2 64 0x10 0x1000 8 FormatVarietyA
    (MethodClient 0xA1) (MethodClient 0xA2) (MethodClient 0xA3)
    (MethodClient 0xA4) (MethodClient 0xA5) (MethodClient 0xA6) MethodNULL.

Definition create_B : M Res :=
  FormatCreate AlignCheck_pow2 64 0x10 0x1000 16 FormatVarietyB
    (MethodClient 0xB1) (MethodClient 0xB2) (MethodClient 0xB3)
    (MethodClient 0xB4) (MethodClient 0xB5) (MethodClient 0xB6) (MethodClient 0xB7).

Definition state_of {A} (o : Outcome A) : State :=
  match o with Done _ s => s | _ => store0 end.

(** One descriptor constructed (at [0x2000]), then a second (at [0x3000]). *)
Definition store1 : State := Eval vm_compute in state_of (create_A store0).
Definition store2 : State := Eval vm_compute in state_of (create_B store1).

Example create_A_store0 : create_A store0 = Done ResOK store1.
Proof. vm_compute. reflexivity. Qed.

Example create_B_store1 : create_B store1 = Done ResOK store2.
Proof. vm_compute. reflexivity. Qed.

Example store1_ring :
  ring_members store1 (ArenaFormatRing 0x1000) [FormatArenaRing 0x2000].
Proof.
  split.
  - refine (bool_decide_unpack _ _). by vm_compute.
  - repeat split.
Qed.

(** The second construction appends its node to the ring of the first. *)
Example store2_ring :
  ring_members store2 (ArenaFormatRing 0x1000)
    [FormatArenaRing 0x2000; FormatArenaRing 0x3000].
Proof.
  apply (FormatCreate_appends AlignCheck_pow2 64 0x10 0x1000 16 FormatVarietyB
           (MethodClient 0xB1) (MethodClient 0xB2) (MethodClient 0xB3)
           (MethodClient 0xB4) (MethodClient 0xB5) (MethodClient 0xB6) (MethodClient 0xB7)
           store1 store2 0x3000 [FormatArenaRing 0x2000]).
  - vm_compute. reflexivity.
  - vm_compute. reflexivity.
  - exact store1_ring.
  - intros Hin. apply list_elem_of_singleton in Hin. discriminate.
Qed.

(** ** The theorems at the concrete store *)

Lemma FormatCreate_success_witness :
  create_A store0 = Done ResOK store1 /\
  exists format fs a a',
    words store1 !! 0x10 = Some format /\
    FormatCheck AlignCheck_pow2 format store1 = Done CheckPass store1 /\
    arn store0 0x1000 = Some a /\
    fmt store1 format = Some fs /\
    arn store1 0x1000 = Some a' /\
    FormatStruct.arena fs = 0x1000 /\
    FormatStruct.serial fs = ArenaStruct.formatSerial a /\
    ArenaStruct.formatSerial a' = FormatStruct.serial fs + 1.
Proof.
  split; [vm_compute; reflexivity|].
  apply (FormatCreate_success AlignCheck_pow2 64 0x10 0x1000 8 FormatVarietyA
           (MethodClient 0xA1) (MethodClient 0xA2) (MethodClient 0xA3)
           (MethodClient 0xA4) (MethodClient 0xA5) (MethodClient 0xA6) MethodNULL
           store0 store1).
  vm_compute. reflexivity.
Defined.

Lemma FormatCreate_alloc_failure_witness :
  FormatCreate AlignCheck_pow2 64 0x10 0x1000 8 FormatVarietyA
    (MethodClient 0xA1) (MethodClient 0xA2) (MethodClient 0xA3)
    (MethodClient 0xA4) (MethodClient 0xA5) (MethodClient 0xA6) MethodNULL
    store_exhausted
  = Done ResMEMORY store_exhausted
  /\ store_exhausted = store_exhausted.
Proof.
  apply (FormatCreate_alloc_failure AlignCheck_pow2 64 0x10 0x1000 8 FormatVarietyA
           (MethodClient 0xA1) (MethodClient 0xA2) (MethodClient 0xA3)
           (MethodClient 0xA4) (MethodClient 0xA5) (MethodClient 0xA6) MethodNULL
           store_exhausted store_exhausted ResMEMORY NULL).
  - vm_compute. discriminate.
  - vm_compute. reflexivity.
  - discriminate.
Defined.

Lemma FormatCreate_default_class_witness :
  exists s' fs,
    create_A store0 = Done ResOK s' /\
    words s' !! 0x10 = Some 0x2000 /\
    fmt s' 0x2000 = Some fs /\
    FormatStruct.class fs = MethodFormatDefaultClass /\
    class_code (FormatStruct.class fs) = Some FormatDefaultClass /\
    forall (st : State) (object w : Addr),
      object <> NULL -> words st !! object = Some w ->
      FormatDefaultClass object st = Done w st.
Proof.
  apply (FormatCreate_default_class AlignCheck_pow2 64 0x10 0x1000 8
           (MethodClient 0xA1) (MethodClient 0xA2) (MethodClient 0xA3)
           (MethodClient 0xA4) (MethodClient 0xA5) (MethodClient 0xA6)
           store0 arena0 0x2000 [0x3000]).
  - vm_compute. discriminate.
  - exists 0. vm_compute. reflexivity.
  - vm_compute. reflexivity.
  - reflexivity.
  - vm_compute. reflexivity.
  - eexists. vm_compute. reflexivity.
  - reflexivity.
  - vm_compute. discriminate.
  - vm_compute. reflexivity.
  - discriminate.
  - discriminate.
  - discriminate.
  - discriminate.
  - discriminate.
  - discriminate.
Defined.

(** The default class method on the client object at [0x5000]. *)
Example FormatDefaultClass_store1 :
  FormatDefaultClass 0x5000 store1 = Done 0xC1A55 store1.
Proof. vm_compute. reflexivity. Qed.

Lemma FormatCreate_null_class_variety_B_witness :
  FormatCreate AlignCheck_pow2 64 0x10 0x1000 8 FormatVarietyB
    (MethodClient 0xA1) (MethodClient 0xA2) (MethodClient 0xA3)
    (MethodClient 0xA4) (MethodClient 0xA5) (MethodClient 0xA6) MethodNULL store0
  = AssertFail "variety == FormatVarietyA".
Proof.
  apply (proj1 (FormatCreate_null_class_variety_B AlignCheck_pow2 64 0x10 0x1000 8
                  (MethodClient 0xA1) (MethodClient 0xA2) (MethodClient 0xA3)
                  (MethodClient 0xA4) (MethodClient 0xA5) (MethodClient 0xA6) store0)
           arena0 0x2000 [0x3000]).
  - vm_compute. discriminate.
  - vm_compute. reflexivity.
  - reflexivity.
  - vm_compute. discriminate.
Defined.

(** With the pool exhausted the same call returns the allocation failure,
    before the assertion on the variety is reached. *)
Example create_null_class_B_exhausted :
  FormatCreate AlignCheck_pow2 64 0x10 0x1000 8 FormatVarietyB
    (MethodClient 0xA1) (MethodClient 0xA2) (MethodClient 0xA3)
    (MethodClient 0xA4) (MethodClient 0xA5) (MethodClient 0xA6) MethodNULL
    store_exhausted
  = Done ResMEMORY store_exhausted.
Proof. vm_compute. reflexivity. Qed.

(** The validator on the two descriptors of [store2], on a block that holds
    no descriptor, and on the null handle. *)
Example FormatCheck_store2 :
  FormatCheck AlignCheck_pow2 0x2000 store2 = Done CheckPass store2 /\
  FormatCheck AlignCheck_pow2 0x3000 store2 = Done CheckPass store2 /\
  FormatCheck AlignCheck_pow2 0x3000 store1 = Done (CheckFail CheckSig) store1 /\
  FormatCheck AlignCheck_pow2 NULL store2 = Done (CheckFail CheckSig) store2 /\
  FormatCheck AlignCheck_pow2 0x4000 store2 = Fault.
Proof. repeat split; vm_compute; reflexivity. Qed.

(** A descriptor with two defects, an unknown variety and a null scan
    method: the validator reports the variety, the earlier check. *)
Definition store2_corrupt : State :=
  put_fmt 0x3000
    (FormatStruct.Build FormatSig 1 0x1000
       (RingStruct.Build (ArenaFormatRing 0x1000) (FormatArenaRing 0x2000))
       16 (FormatVarietyOther 9)
       MethodNULL (MethodClient 0xB2) (MethodClient 0xB3)
       (MethodClient 0xB4) (MethodClient 0xB5) (MethodClient 0xB6) (MethodClient 0xB7))
    store2.

Example FormatCheck_first_failure :
  FormatCheck AlignCheck_pow2 0x3000 store2_corrupt
    = Done (CheckFail CheckVariety) store2_corrupt /\
  holds AlignCheck_pow2 CheckScan store2_corrupt 0x3000 = Some false.
Proof. split; vm_compute; reflexivity. Qed.

Definition store3 : State :=
  Eval vm_compute in state_of (FormatDestroy AlignCheck_pow2 0x2000 store2).

Lemma FormatDestroy_retires_witness :
  FormatCheck AlignCheck_pow2 0x2000 store2 = Done CheckPass store2 /\
  exists s',
    FormatDestroy AlignCheck_pow2 0x2000 store2 = Done tt s' /\
    FormatCheck AlignCheck_pow2 0x2000 s' = Done (CheckFail CheckSig) s' /\
    ring_members s' (ArenaFormatRing 0x1000) [FormatArenaRing 0x3000] /\
    words s' = words store2 /\ streams s' = streams store2.
Proof.
  split; [vm_compute; reflexivity|].
  destruct (FormatDestroy_retires AlignCheck_pow2 64 0x2000 store2)
    as (s' & fs & fs' & a & a' & Hrun & Hc & _ & _ & _ & _ & _ & _ & _ & Hring & Hw & Hst & _).
  { vm_compute. reflexivity. }
  exists s'. split; [exact Hrun|]. split; [exact Hc|].
  split; [exact (proj1 (Hring 0x1000 _ store2_ring))|].
  split; [exact Hw|exact Hst].
Defined.

Example store3_destroyed :
  FormatDestroy AlignCheck_pow2 0x2000 store2 = Done tt store3 /\
  ring_members store3 (ArenaFormatRing 0x1000) [FormatArenaRing 0x3000] /\
  FormatArena 0x2000 store3 = Done 0x1000 store3 /\
  FormatCheck AlignCheck_pow2 0x2000 store3 = Done (CheckFail CheckSig) store3.
Proof.
  split; [vm_compute; reflexivity|]. split.
  - split; [refine (bool_decide_unpack _ _); by vm_compute|repeat split].
  - split; vm_compute; reflexivity.
Qed.

Definition store1_destroyed : State :=
  Eval vm_compute in state_of (FormatDestroy AlignCheck_pow2 0x2000 store1).

Lemma FormatArena_after_destroy_witness :
  FormatArena 0x2000 store1 = Done 0x1000 store1 /\
  FormatArena 0x2000 store1_destroyed = Done 0x1000 store1_destroyed /\
  FormatCheck AlignCheck_pow2 0x2000 store1_destroyed
    = Done (CheckFail CheckSig) store1_destroyed.
Proof.
  apply (proj2 (proj2 (proj2 (proj2 (proj2 (proj2
           (FormatArena_reads_write_once_field AlignCheck_pow2 64))))))
           0x10 0x1000 8 FormatVarietyA
           (MethodClient 0xA1) (MethodClient 0xA2) (MethodClient 0xA3)
           (MethodClient 0xA4) (MethodClient 0xA5) (MethodClient 0xA6) MethodNULL
           store0 store1 store1_destroyed 0x2000).
  - vm_compute. reflexivity.
  - vm_compute. reflexivity.
  - vm_compute. reflexivity.
Defined.

(** Two constructions, the destruction of the first descriptor, and a third
    construction, which takes the block just freed. *)
Definition client_ops : list Op :=
  [ OpCreate 0x10 0x1000 8 FormatVarietyA
      (MethodClient 0xA1) (MethodClient 0xA2) (MethodClient 0xA3)
      (MethodClient 0xA4) (MethodClient 0xA5) (MethodClient 0xA6) MethodNULL;
    OpCreate 0x10 0x1000 16 FormatVarietyB
      (MethodClient 0xB1) (MethodClient 0xB2) (MethodClient 0xB3)
      (MethodClient 0xB4) (MethodClient 0xB5) (MethodClient 0xB6) (MethodClient 0xB7);
    OpDestroy 0x2000;
    OpCreate 0x10 0x1000 8 FormatVarietyA
      (MethodClient 0xA1) (MethodClient 0xA2) (MethodClient 0xA3)
      (MethodClient 0xA4) (MethodClient 0xA5) (MethodClient 0xA6) MethodNULL ].

Definition client_log : list Issued :=
  [ mkIssued 0x1000 0x2000 0; mkIssued 0x1000 0x3000 1; mkIssued 0x1000 0x2000 2 ].

Definition store4 : State :=
  Eval vm_compute in state_of (client_run AlignCheck_pow2 64 client_ops store0).

Example client_run_store0 :
  client_run AlignCheck_pow2 64 client_ops store0 = Done client_log store4.
Proof. vm_compute. reflexivity. Qed.

Lemma serials_strictly_increasing_witness :
  client_run AlignCheck_pow2 64 client_ops store0 = Done client_log store4 /\
  (forall arena, StronglySorted N.lt (serials_in arena client_log)) /\
  (forall arena, NoDup (serials_in arena client_log)) /\
  (forall i, i ∈ client_log ->
     exists c, counter store4 (issued_arena i) = Some c /\ issued_serial i < c).
Proof.
  split; [vm_compute; reflexivity|].
  destruct (serials_strictly_increasing AlignCheck_pow2 64 client_ops store0 store4 client_log)
    as (Hsorted & Hnodup & Hbelow & _).
  { vm_compute. reflexivity. }
  split; [exact Hsorted|]. split; [exact Hnodup|exact Hbelow].
Defined.

Example serials_in_client_log : serials_in 0x1000 client_log = [0; 1; 2].
Proof. reflexivity. Qed.

Lemma FormatDescribe_renders_witness :
  exists res st',
    FormatDescribe 0x3000 0x7000 store2
      = Done res (with_streams (<[0x7000 := st']> (streams store2)) store2) /\
    WriteF 0x7000
      [ ("Format $P ($U) {\n", [WriteFP 0x3000; WriteFU 1]);
        ("  arena $P ($U)\n", [WriteFP 0x1000; WriteFU 0]);
        ("  alignment $W\n", [WriteFW 16]);
        ("  scan $F\n", [WriteFF (MethodClient 0xB1)]);
        ("  skip $F\n", [WriteFF (MethodClient 0xB2)]);
        ("  move $F\n", [WriteFF (MethodClient 0xB3)]);
        ("  isMoved $F\n", [WriteFF (MethodClient 0xB4)]);
        ("  copy $F\n", [WriteFF (MethodClient 0xB5)]);
        ("  pad $F\n", [WriteFF (MethodClient 0xB6)]);
        ("} Format $P ($U)\n", [WriteFP 0x3000; WriteFU 1]) ] store2
      = Done res (with_streams (<[0x7000 := st']> (streams store2)) store2) /\
    (res = ResOK <-> (10 <= 20)%nat) /\
    (res <> ResOK <-> res = ResIO) /\
    (res = ResOK ->
     StreamStruct.written st' =
       [ ("Format $P ($U) {\n", [WriteFP 0x3000; WriteFU 1]);
         ("  arena $P ($U)\n", [WriteFP 0x1000; WriteFU 0]);
         ("  alignment $W\n", [WriteFW 16]);
         ("  scan $F\n", [WriteFF (MethodClient 0xB1)]);
         ("  skip $F\n", [WriteFF (MethodClient 0xB2)]);
         ("  move $F\n", [WriteFF (MethodClient 0xB3)]);
         ("  isMoved $F\n", [WriteFF (MethodClient 0xB4)]);
         ("  copy $F\n", [WriteFF (MethodClient 0xB5)]);
         ("  pad $F\n", [WriteFF (MethodClient 0xB6)]);
         ("} Format $P ($U)\n", [WriteFP 0x3000; WriteFU 1]) ]).
Proof.
  apply (FormatDescribe_renders 0x3000 0x7000 store2
           (FormatStruct.Build FormatSig 1 0x1000
              (RingStruct.Build (ArenaFormatRing 0x1000) (FormatArenaRing 0x2000))
              16 FormatVarietyB
              (MethodClient 0xB1) (MethodClient 0xB2) (MethodClient 0xB3)
              (MethodClient 0xB4) (MethodClient 0xB5) (MethodClient 0xB6)
              (MethodClient 0xB7))
           (ArenaStruct.Build ArenaSig 0 2
              (RingStruct.Build (FormatArenaRing 0x2000) (FormatArenaRing 0x3000)) [])
           (StreamStruct.Build [] 20%nat)).
  - vm_compute. reflexivity.
  - vm_compute. reflexivity.
  - vm_compute. discriminate.
  - vm_compute. reflexivity.
Defined.

(** The spec's sentence on the describer, read as a property of a store: a
    successful description renders each of the seven methods of the
    descriptor, the class method among them. *)
Definition describes_all_seven_methods (s : State) (format stream : Addr) : Prop :=
  forall fs s' st',
    fmt s format = Some fs ->
    FormatDescribe format stream s = Done ResOK s' ->
    streams s' !! stream = Some st' ->
    forall m,
      m ∈ [FormatStruct.scan fs; FormatStruct.skip fs; FormatStruct.move fs;
           FormatStruct.isMoved fs; FormatStruct.copy fs; FormatStruct.pad fs;
           FormatStruct.class fs] ->
      exists item, item ∈ StreamStruct.written st' /\ WriteFF m ∈ item.2.

Definition store2_described : State :=
  Eval vm_compute in state_of (FormatDescribe 0x3000 0x7000 store2).

(** C10 fails as worded: the descriptor at [0x3000] has the class method
    [MethodClient 0xB7]; its description succeeds and no piece written
    carries that method. *)
Lemma FormatDescribe_omits_class :
  ~ describes_all_seven_methods store2 0x3000 0x7000.
Proof.
  intros H.
  assert (Hfs : exists fs, fmt store2 0x3000 = Some fs /\
                  FormatStruct.class fs = MethodClient 0xB7).
  { eexists. split; [vm_compute; reflexivity|reflexivity]. }
  destruct Hfs as (fs & Hfs & Hcls).
  assert (Hrun : FormatDescribe 0x3000 0x7000 store2 = Done ResOK store2_described)
    by (vm_compute; reflexivity).
  assert (Hst : exists st', streams store2_described !! 0x7000 = Some st' /\
                  Forall (fun item => WriteFF (MethodClient 0xB7) ∉ item.2)
                    (StreamStruct.written st')).
  { eexists. split; [vm_compute; reflexivity|].
    repeat constructor; simpl; intros Hin;
      repeat (apply elem_of_cons in Hin as [Hin|Hin]; [discriminate|]);
      by apply elem_of_nil in Hin. }
  destruct Hst as (st' & Hst & Hnone).
  destruct (H fs store2_described st' Hfs Hrun Hst (MethodClient 0xB7))
    as (item & Hitem & Hin).
  { rewrite <- Hcls. set_solver. }
  rewrite Forall_forall in Hnone. by apply (Hnone item Hitem).
Qed.

(** ** Construction and destruction at the concrete store *)

(** The view of the arena of [store0]: nothing live, two free blocks,
    serial 0 next. *)
Definition view0 : ArenaView := mkArenaView [] [0x2000; 0x3000] 0.

Lemma store0_heap_ok : heap_ok AlignCheck_pow2 store0 0x1000 view0.
Proof.
  exists arena0.
  split; [vm_compute; reflexivity|]. split; [reflexivity|].
  split; [reflexivity|]. split; [reflexivity|].
  split.
  { split; [apply NoDup_singleton|]. repeat split. }
  split.
  { refine (bool_decide_unpack _ _). by vm_compute. }
  split; [constructor|].
  split.
  { intros p Hp. simpl in Hp.
    repeat (apply elem_of_cons in Hp as [->|Hp]; [eexists; vm_compute; reflexivity|]).
    by apply elem_of_nil in Hp. }
  split.
  { intros f fs Hfs Hsig. exfalso. unfold fmt in Hfs.
    destruct (decide (f = NULL)); [done|]. simpl in Hfs.
    apply lookup_insert_Some in Hfs as [[_ <-]|[_ Hfs]]; [discriminate|].
    apply lookup_insert_Some in Hfs as [[_ <-]|[_ Hfs]]; [discriminate|].
    by rewrite lookup_empty in Hfs. }
  intros f Hf. by apply elem_of_nil in Hf.
Qed.


(** An alignment that is no power of two stops the constructor at its
    [AVERT]. *)
Lemma FormatCreate_invalid_asserts_witness :
  FormatCreate AlignCheck_pow2 64 0x10 0x1000 3 FormatVarietyA
    (MethodClient 0xA1) (MethodClient 0xA2) (MethodClient 0xA3)
    (MethodClient 0xA4) (MethodClient 0xA5) (MethodClient 0xA6) MethodNULL store0
  = AssertFail "FormatCheck(format)".
Proof.
  apply (FormatCreate_invalid_asserts AlignCheck_pow2 64 0x10 0x1000 3 FormatVarietyA
           (MethodClient 0xA1) (MethodClient 0xA2) (MethodClient 0xA3)
           (MethodClient 0xA4) (MethodClient 0xA5) (MethodClient 0xA6) MethodNULL
           store0 arena0 0x2000 [0x3000]).
  - discriminate.
  - vm_compute. reflexivity.
  - reflexivity.
  - vm_compute. discriminate.
  - intros (_ & _ & _ & _ & Hal & _). vm_compute in Hal. discriminate.
Defined.

(** The same arena with its counter at the last value of a 64-bit word:
    the construction would wrap the counter, and stops at its [AVERT]. *)
Definition store_last_serial : State :=
  with_arenas (<[0x1000 := ArenaStruct.set_formatSerial (2 ^ 64 - 1) arena0]> ∅) store0.

Example create_A_last_serial :
  create_A store_last_serial = AssertFail "FormatCheck(format)".
Proof. vm_compute. reflexivity. Qed.

Lemma FormatCreate_stores_arguments_witness :
  create_B store1 = Done ResOK store2 /\
  exists fs,
    fmt store2 0x3000 = Some fs /\
    FormatStruct.alignment fs = 16 /\ FormatStruct.variety fs = FormatVarietyB /\
    FormatStruct.scan fs = MethodClient 0xB1 /\ FormatStruct.class fs = MethodClient 0xB7 /\
    FormatArena 0x3000 store2 = Done 0x1000 store2.
Proof.
  split; [vm_compute; reflexivity|].
  destruct (FormatCreate_stores_arguments AlignCheck_pow2 64 0x10 0x1000 16 FormatVarietyB
              (MethodClient 0xB1) (MethodClient 0xB2) (MethodClient 0xB3)
              (MethodClient 0xB4) (MethodClient 0xB5) (MethodClient 0xB6) (MethodClient 0xB7)
              store1 store2)
    as (p & fs & a' & Hw & Hfs & _ & _ & _ & Hal & Hva & Hscan & _ & _ & _ & _ & _ & Hcls
        & Harena & _).
  { vm_compute. reflexivity. }
  vm_compute in Hw. injection Hw as <-.
  exists fs. split; [exact Hfs|]. split; [exact Hal|]. split; [exact Hva|].
  split; [exact Hscan|]. split; [exact Hcls|exact Harena].
Defined.

Lemma FormatCreate_leaves_rest_witness :
  create_A store0 = Done ResOK store1 /\
  streams store1 = streams store0 /\
  (forall w, w <> 0x10 -> words store1 !! w = words store0 !! w) /\
  (forall f, words store1 !! 0x10 <> Some f -> fcore <$> fmt store1 f = fcore <$> fmt store0 f).
Proof.
  split; [vm_compute; reflexivity|].
  destruct (FormatCreate_leaves_rest AlignCheck_pow2 64 0x10 0x1000 8 FormatVarietyA
              (MethodClient 0xA1) (MethodClient 0xA2) (MethodClient 0xA3)
              (MethodClient 0xA4) (MethodClient 0xA5) (MethodClient 0xA6) MethodNULL
              store0 store1 ResOK)
    as (Hst & Hw & _ & _ & _ & Hf & _).
  { vm_compute. reflexivity. }
  split; [exact Hst|]. split; [exact Hw|].
  intros f Hne. apply Hf. intros _. exact Hne.
Defined.

Lemma FormatCreate_appends_last_witness :
  ring_members store1 (ArenaFormatRing 0x1000) [FormatArenaRing 0x2000] /\
  ring_members store2 (ArenaFormatRing 0x1000)
    [FormatArenaRing 0x2000; FormatArenaRing 0x3000].
Proof.
  split; [exact store1_ring|].
  apply (FormatCreate_appends_last AlignCheck_pow2 64 0x10 0x1000 16 FormatVarietyB
           (MethodClient 0xB1) (MethodClient 0xB2) (MethodClient 0xB3)
           (MethodClient 0xB4) (MethodClient 0xB5) (MethodClient 0xB6) (MethodClient 0xB7)
           store1 store2 0x3000 [FormatArenaRing 0x2000]).
  - vm_compute. reflexivity.
  - vm_compute. reflexivity.
  - exact store1_ring.
  - intros Hin. apply list_elem_of_singleton in Hin. discriminate.
Defined.

Lemma FormatCreate_keeps_valid_witness :
  FormatCheck AlignCheck_pow2 0x2000 store1 = Done CheckPass store1 /\
  create_B store1 = Done ResOK store2 /\
  FormatCheck AlignCheck_pow2 0x2000 store2 = Done CheckPass store2.
Proof.
  split; [vm_compute; reflexivity|]. split; [vm_compute; reflexivity|].
  apply (FormatCreate_keeps_valid AlignCheck_pow2 64 0x10 0x1000 16 FormatVarietyB
           (MethodClient 0xB1) (MethodClient 0xB2) (MethodClient 0xB3)
           (MethodClient 0xB4) (MethodClient 0xB5) (MethodClient 0xB6) (MethodClient 0xB7)
           store1 store2 0x3000 0x2000).
  - vm_compute. reflexivity.
  - vm_compute. reflexivity.
  - vm_compute. reflexivity.
  - vm_compute. discriminate.
  - discriminate.
  - vm_compute. discriminate.
  - vm_compute. discriminate.
  - vm_compute. reflexivity.
Defined.

Lemma FormatDestroy_keeps_valid_witness :
  FormatDestroy AlignCheck_pow2 0x2000 store2 = Done tt store3 /\
  FormatCheck AlignCheck_pow2 0x3000 store2 = Done CheckPass store2 /\
  FormatCheck AlignCheck_pow2 0x3000 store3 = Done CheckPass store3.
Proof.
  split; [vm_compute; reflexivity|]. split; [vm_compute; reflexivity|].
  apply (FormatDestroy_keeps_valid AlignCheck_pow2 0x2000 0x3000 store2 store3).
  - vm_compute. reflexivity.
  - discriminate.
  - vm_compute. reflexivity.
Defined.

Lemma FormatDestroy_keeps_fields_witness :
  FormatDestroy AlignCheck_pow2 0x2000 store2 = Done tt store3 /\
  exists fs,
    fmt store2 0x2000 = Some fs /\
    FormatStruct.sig <$> fmt store3 0x2000 = Some SigInvalid /\
    FormatStruct.serial <$> fmt store3 0x2000 = Some (FormatStruct.serial fs) /\
    FormatStruct.scan <$> fmt store3 0x2000 = Some (FormatStruct.scan fs) /\
    counter store3 0x1000 = counter store2 0x1000.
Proof.
  split; [vm_compute; reflexivity|].
  destruct (FormatDestroy_keeps_fields AlignCheck_pow2 0x2000 store2 store3)
    as (fs & Hfs & Hfs' & _ & Hao).
  { vm_compute. reflexivity. }
  exists fs. split; [exact Hfs|]. rewrite Hfs'.
  split; [reflexivity|]. split; [reflexivity|]. split; [reflexivity|].
  exact (proj1 (proj2 (proj2 (Hao 0x1000)))).
Defined.

(** A second destruction of the descriptor at [0x2000]. *)
Lemma FormatDestroy_guard_witness :
  FormatDestroy AlignCheck_pow2 0x2000 store2 = Done tt store3 /\
  FormatDestroy AlignCheck_pow2 0x2000 store3 = AssertFail "FormatCheck(format)".
Proof.
  split; [vm_compute; reflexivity|].
  apply (proj2 (proj2 (FormatDestroy_guard AlignCheck_pow2 0x2000 store2)) store3).
  vm_compute. reflexivity.
Defined.

Definition store2_destroyed : State :=
  Eval vm_compute in state_of (FormatDestroy AlignCheck_pow2 0x3000 store2).

Lemma FormatDescribe_after_destroy_witness :
  FormatDestroy AlignCheck_pow2 0x3000 store2 = Done tt store2_destroyed /\
  FormatDescribe 0x3000 0x7000 store2 = Done ResOK store2_described /\
  exists t',
    FormatDescribe 0x3000 0x7000 store2_destroyed = Done ResOK t' /\
    streams t' = streams store2_described.
Proof.
  split; [vm_compute; reflexivity|]. split; [vm_compute; reflexivity|].
  apply (FormatDescribe_after_destroy AlignCheck_pow2 0x3000 0x7000
           store2 store2_destroyed store2_described ResOK).
  - vm_compute. reflexivity.
  - vm_compute. reflexivity.
Defined.

Lemma FormatCreate_FormatDestroy_witness :
  create_A store0 = Done ResOK store1 /\
  exists s2,
    FormatDestroy AlignCheck_pow2 0x2000 store1 = Done tt s2 /\
    arn s2 0x1000 = Some (ArenaStruct.set_formatSerial 1 arena0) /\
    (forall f, f <> 0x2000 -> fmt s2 f = fmt store0 f) /\
    FormatStruct.sig <$> fmt s2 0x2000 = Some SigInvalid.
Proof.
  split; [vm_compute; reflexivity|].
  destruct (FormatCreate_FormatDestroy AlignCheck_pow2 64 0x10 0x1000 8 FormatVarietyA
              (MethodClient 0xA1) (MethodClient 0xA2) (MethodClient 0xA3)
              (MethodClient 0xA4) (MethodClient 0xA5) (MethodClient 0xA6) MethodNULL
              store0 store1 0x2000)
    as (s2 & a & Hrun & Ha & Ha2 & _ & Hf & Hsig & _).
  { vm_compute. reflexivity. }
  { vm_compute. reflexivity. }
  { vm_compute. reflexivity. }
  { vm_compute. discriminate. }
  vm_compute in Ha. injection Ha as <-.
  exists s2. split; [exact Hrun|]. split; [exact Ha2|]. split; [exact Hf|exact Hsig].
Defined.

Lemma serials_consecutive_witness :
  client_run AlignCheck_pow2 64 client_ops store0 = Done client_log store4 /\
  serials_in 0x1000 client_log = [0; 1; 2] /\
  counter store4 0x1000 = Some 3.
Proof.
  split; [vm_compute; reflexivity|].
  destruct (serials_consecutive AlignCheck_pow2 64 client_ops store0 store4 client_log
              0x1000 0)
    as (Hs & Hc & _).
  { vm_compute. reflexivity. }
  { vm_compute. reflexivity. }
  split; [exact Hs|exact Hc].
Defined.

(** The run of [client_ops] from [store0], by the view: the third
    construction takes the block the destruction has freed, so the ring
    ends as the descriptor at [0x3000] followed by the one at [0x2000]. *)
Example view_run_client_ops :
  view_run view0 client_ops = mkArenaView [0x3000; 0x2000] [] 3 /\
  view_log 0x1000 view0 client_ops = client_log.
Proof. split; reflexivity. Qed.

Lemma client_run_view_witness :
  client_run AlignCheck_pow2 64 client_ops store0 = Done client_log store4 /\
  client_log = view_log 0x1000 view0 client_ops /\
  (forall format,
     FormatCheck AlignCheck_pow2 format store4 = Done CheckPass store4 <->
     format ∈ [0x3000; 0x2000]) /\
  ring_members store4 (ArenaFormatRing 0x1000) [FormatArenaRing 0x3000; FormatArenaRing 0x2000] /\
  counter store4 0x1000 = Some 3.
Proof.
  split; [vm_compute; reflexivity|].
  destruct (client_run_view AlignCheck_pow2 64 client_ops store0 store4 client_log
              0x1000 view0)
    as (Hlog & _ & Hvalid & Hring & _ & _ & Hctr & _).
  { exact store0_heap_ok. }
  { repeat constructor. }
  { vm_compute. reflexivity. }
  split; [exact Hlog|]. split; [exact Hvalid|]. split; [exact Hring|exact Hctr].
Defined.

Lemma client_run_total_witness :
  exists s', client_run AlignCheck_pow2 64 client_ops store0 = Done client_log s'.
Proof.
  destruct (client_run_total AlignCheck_pow2 64 client_ops store0 0x1000 view0)
    as (s' & Hrun & _).
  { exact store0_heap_ok. }
  { assert (Hargs : forall al va m1 m2 m3 m4 m5 m6 cl,
              (va = FormatVarietyA \/ va = FormatVarietyB) ->
              (cl = MethodNULL -> va = FormatVarietyA) ->
              AlignCheck_pow2 al = true ->
              arguments_valid AlignCheck_pow2 al va
                (MethodClient m1) (MethodClient m2) (MethodClient m3)
                (MethodClient m4) (MethodClient m5) (MethodClient m6) cl).
    { intros. unfold arguments_valid. repeat (split; [done|]). done. }
    assert (Hw : is_Some (words store0 !! 0x10)) by (eexists; vm_compute; reflexivity).
    simpl. split; [|split; [|split; [|split; [|exact I]]]].
    - split; [reflexivity|]. split; [discriminate|]. split; [exact Hw|].
      intros _. split; [vm_compute; reflexivity|].
      apply Hargs; [by left|done|reflexivity].
    - split; [reflexivity|]. split; [discriminate|]. split; [exact Hw|].
      intros _. split; [vm_compute; reflexivity|].
      apply Hargs; [by right|discriminate|reflexivity].
    - apply elem_of_cons. by left.
    - split; [reflexivity|]. split; [discriminate|]. split; [exact Hw|].
      intros _. split; [vm_compute; reflexivity|].
      apply Hargs; [by left|done|reflexivity]. }
  exists s'. exact Hrun.
Defined.

Lemma valid_descriptor_runs_witness :
  FormatCheck AlignCheck_pow2 0x3000 store2 = Done CheckPass store2 /\
  FormatArena 0x3000 store2 = Done 0x1000 store2 /\
  (exists res s', FormatDescribe 0x3000 0x7000 store2 = Done res s' /\
                  (res = ResOK \/ res = ResIO)) /\
  (exists s', FormatDestroy AlignCheck_pow2 0x3000 store2 = Done tt s').
Proof.
  split; [vm_compute; reflexivity|].
  destruct (valid_descriptor_runs AlignCheck_pow2 0x3000 store2)
    as ((fs & a & Hfs & Harena & _) & Hdescribe & Hdestroy).
  { vm_compute. reflexivity. }
  vm_compute in Hfs. injection Hfs as <-.
  split; [exact Harena|]. split; [|exact Hdestroy].
  apply Hdescribe; [discriminate|]. eexists. vm_compute. reflexivity.
Defined.
